(** * Zinops: a shallow embedding of [zinops.py] and its specification

    The development follows the source file top to bottom:
    - Python and numpy primitives the code relies on (strings, list
      indexing, [np.prod], [reshape], [transpose], [broadcast_to]);
    - [parser] with its nested [split], [parse_axis], [validate_shapes]
      and [rearrange];
    - the properties of the specification, stated over these definitions.

    Conventions.  A Python [str] is a Rocq [string] (code points below
    256).  A Python [int] is a [Z].  A [dict] with string keys is a
    [gmap string _]; no result of the program depends on the iteration
    order of a dict.  An exception is a value of [exn]; a computation that
    may raise has type [result _]. *)

From Stdlib Require Import ZArith Lia Ascii String List Bool.
From stdpp Require Import base option list gmap strings pretty.

(** ** Exceptions *)

(** The raise sites of the custom class [Error], one constructor per
    message of the source. *)
Inductive ErrorMsg : Type :=
  | MsgNoSeparator      (* "Pattern must contain '->' separator" *)
  | MsgSplitNeedsHint   (* "Must specify at least one dimension for split ..." *)
  | MsgCannotSplit      (* "Cannot split ... with sizes ..." *)
  | MsgOneUnknown       (* "Can only infer one unknown dimension per split" *)
  | MsgTooManyAxes      (* "Too many explicit axes for tensor rank" *)
  | MsgTransposeRank    (* "Transpose: Number of axes ... doesn't match tensor rank ..." *)
  | MsgSplitRank        (* "Split: Number of base axes ... doesn't match tensor rank ..." *)
  | MsgMergeUnknown     (* "Merge contains unknown components: ..." *)
  | MsgUnknownAxis.     (* "Unknown axis ... in output" *)

(** What a call can raise: the library's [Error], the interpreter's own
    exceptions (tuple unpacking, list indexing, dict lookup) and the
    [ValueError] of a numpy primitive. *)
Inductive exn : Type :=
  | Error (m : ErrorMsg)
  | UnpackValueError
  | IndexError
  | KeyError
  | NumpyValueError.

(** The error kinds of the specification (section 7), and the kind of each
    raise site. *)
Inductive ErrorKind : Type :=
  | PatternSyntaxError
  | RankError
  | ShapeMismatchError
  | AmbiguousSplitError
  | UnknownAxisError.

Definition kind_of (m : ErrorMsg) : ErrorKind :=
  match m with
  | MsgNoSeparator => PatternSyntaxError
  | MsgSplitNeedsHint => AmbiguousSplitError
  | MsgCannotSplit => ShapeMismatchError
  | MsgOneUnknown => AmbiguousSplitError
  | MsgTooManyAxes => RankError
  | MsgTransposeRank => RankError
  | MsgSplitRank => RankError
  | MsgMergeUnknown => UnknownAxisError
  | MsgUnknownAxis => UnknownAxisError
  end.

Inductive result (A : Type) : Type :=
  | Ok (a : A)
  | Raise (e : exn).
Arguments Ok {A} a.
Arguments Raise {A} e.

Global Instance result_ret : MRet result := λ A a, Ok a.
Global Instance result_bind : MBind result := λ A B k r,
  match r with
  | Ok a => k a
  | Raise e => Raise e
  end.

(** A loop [for x in l: ...] whose body may raise, over the loop's state. *)
Fixpoint foldM {S X : Type} (body : S → X → result S) (s : S) (l : list X)
    : result S :=
  match l with
  | [] => Ok s
  | x :: l' => s' ← body s x; foldM body s' l'
  end.

(** [[f(x) for x in l]] where [f] may raise. *)
Fixpoint mapR {X Y : Type} (f : X → result Y) (l : list X) : result (list Y) :=
  match l with
  | [] => Ok []
  | x :: l' => y ← f x; ys ← mapR f l'; Ok (y :: ys)
  end.

(** [fails_with r k]: the call raised the library's [Error] at a raise site
    of kind [k]. *)
Definition fails_with {A : Type} (r : result A) (k : ErrorKind) : Prop :=
  ∃ m, r = Raise (Error m) ∧ kind_of m = k.

Definition succeeds {A : Type} (r : result A) : Prop := ∃ a, r = Ok a.

(** ** Python strings *)

(** [str.isspace] on one character (code points below 256). *)
Definition isspace (c : ascii) : bool :=
  let n := nat_of_ascii c in
  ((9 <=? n) && (n <=? 13)) || ((28 <=? n) && (n <=? 32))
  || (n =? 133) || (n =? 160).

Definition char_in (chars : string) (c : ascii) : bool :=
  bool_decide (c ∈ list_ascii_of_string chars).

Fixpoint lstrip_by (p : ascii → bool) (s : string) : string :=
  match s with
  | EmptyString => EmptyString
  | String c s' => if p c then lstrip_by p s' else s
  end.

Fixpoint rstrip_by (p : ascii → bool) (s : string) : string :=
  match s with
  | EmptyString => EmptyString
  | String c s' =>
      match rstrip_by p s' with
      | EmptyString => if p c then EmptyString else String c EmptyString
      | r => String c r
      end
  end.

(** [s.strip()] and [s.strip(chars)]. *)
Definition strip (s : string) : string := rstrip_by isspace (lstrip_by isspace s).
Definition strip_chars (chars s : string) : string :=
  rstrip_by (char_in chars) (lstrip_by (char_in chars) s).

Definition nonempty (s : string) : bool :=
  match s with EmptyString => false | _ => true end.

(** [current += char] *)
Definition snoc (s : string) (c : ascii) : string := s +:+ String c EmptyString.

(** [sub in s] for strings. *)
Fixpoint contains (sub s : string) : bool :=
  String.prefix sub s ||
  match s with
  | EmptyString => false
  | String _ s' => contains sub s'
  end.

(** [s.split('->')]: cut at each occurrence of the separator, scanning from
    the left. *)
Fixpoint split_arrow (s : string) : list string :=
  match s with
  | EmptyString => [EmptyString]
  | String c s' =>
      let keep :=
        match split_arrow s' with
        | h :: t => String c h :: t
        | [] => [String c EmptyString]
        end in
      match s' with
      | String d s'' =>
          if Ascii.eqb c "-" && Ascii.eqb d ">"
          then EmptyString :: split_arrow s''
          else keep
      | EmptyString => keep
      end
  end.

(** [s.split()]: the maximal runs of characters that are not whitespace. *)
Fixpoint split_ws_go (s current : string) : list string :=
  match s with
  | EmptyString => if nonempty current then [current] else []
  | String c s' =>
      if isspace c
      then (if nonempty current then current :: split_ws_go s' EmptyString
            else split_ws_go s' EmptyString)
      else split_ws_go s' (snoc current c)
  end.
Definition split_ws (s : string) : list string := split_ws_go s EmptyString.

(** [''.join(parts)] *)
Definition join_empty (parts : list string) : string :=
  foldr String.append EmptyString parts.

(** ** [parser] *)

(** The loop of the nested function [split]: [result], [current] and
    [paren_count] are its three local variables. *)
Fixpoint split_loop (s : string) (result : list string) (current : string)
    (paren_count : Z) : list string :=
  match s with
  | EmptyString => if nonempty current then result ++ [current] else result
  | String char s' =>
      if Ascii.eqb char "("
      then split_loop s' result (snoc current char) (paren_count + 1)
      else if Ascii.eqb char ")"
      then split_loop s' result (snoc current char) (paren_count - 1)
      else if isspace char && (paren_count =? 0)%Z
      then (if nonempty current
            then split_loop s' (result ++ [current]) EmptyString paren_count
            else split_loop s' result current paren_count)
      else split_loop s' result (snoc current char) paren_count
  end.

Definition split (s : string) : list string :=
  split_loop (strip s) [] EmptyString 0.

Definition parser (pattern : string) : result (list string * list string) :=
  if negb (contains "->" pattern) then Raise (Error MsgNoSeparator)
  else
    match split_arrow pattern with
    | [input; output] => Ok (split input, split output)
    | _ => Raise UnpackValueError
    end.

(** ** [parse_axis] *)

(** The second component is [None] for Python's [None]. *)
Definition parse_axis (axis : string) : string * option (list string) :=
  if bool_decide (axis = "...") then (axis, None)
  else if contains "(" axis && contains ")" axis then
    let parts := split_ws (strip_chars "()" axis) in
    (join_empty parts, Some parts)
  else (axis, None).

(** Truth value of an optional list: [None] and the empty list are false. *)
Definition truthy {A : Type} (o : option (list A)) : bool :=
  match o with
  | Some (_ :: _) => true
  | _ => false
  end.

Definition components_of (o : option (list string)) : list string :=
  match o with Some l => l | None => [] end.

(** ** Python lists and dicts *)

(** [range(n)]: empty when [n] is not positive. *)
Definition range (n : Z) : list nat := seq 0 (Z.to_nat n).

(** [l[i]] with Python's negative indices. *)
Definition py_index {A : Type} (l : list A) (i : Z) : result A :=
  let n := Z.of_nat (length l) in
  let j := if (i <? 0)%Z then (n + i)%Z else i in
  if (j <? 0)%Z then Raise IndexError
  else match l !! Z.to_nat j with
       | Some x => Ok x
       | None => Raise IndexError
       end.

(** [l[:i]] and [l[i:]] with Python's negative indices. *)
Definition py_take {A : Type} (l : list A) (i : Z) : list A :=
  let n := Z.of_nat (length l) in
  take (Z.to_nat (if (i <? 0)%Z then (n + i)%Z else i)) l.
Definition py_drop {A : Type} (l : list A) (i : Z) : list A :=
  let n := Z.of_nat (length l) in
  drop (Z.to_nat (if (i <? 0)%Z then (n + i)%Z else i)) l.

(** [d[k]] *)
Definition dict_get {V : Type} (d : gmap string V) (k : string) : result V :=
  match d !! k with
  | Some v => Ok v
  | None => Raise KeyError
  end.

(** [f'_ellipsis_{i}'] *)
Definition ellipsis_name (i : nat) : string := "_ellipsis_" +:+ pretty i.

(** ** numpy *)

(** 64-bit two's complement wrap-around of numpy's default integer. *)
Definition wrap64 (z : Z) : Z := ((z + 2 ^ 63) mod 2 ^ 64 - 2 ^ 63)%Z.

Definition prodZ (l : list Z) : Z := foldr Z.mul 1%Z l.

(** [np.prod(l)] for a non-empty list of integers within the 64-bit range
    (the program never calls it on an empty list). *)
Definition np_prod (l : list Z) : Z := wrap64 (prodZ l).

(** [a % b] and [a // b] when [b] is a numpy integer: floor semantics, and
    zero (with a warning) when [b] is zero. *)
Definition np_mod (a b : Z) : Z := if (b =? 0)%Z then 0%Z else (a mod b)%Z.
Definition np_floordiv (a b : Z) : Z := if (b =? 0)%Z then 0%Z else (a / b)%Z.

(** An array: its shape and its elements in row-major (C) order. *)
Record ndarray (A : Type) : Type := mk_ndarray {
  shape : list nat;
  data : list A
}.
Arguments mk_ndarray {A} shape data.
Arguments shape {A} _.
Arguments data {A} _.

Definition prodn (l : list nat) : nat := foldr Nat.mul 1 l.
Definition size {A : Type} (a : ndarray A) : nat := prodn (shape a).

(** The invariant of every numpy array. *)
Definition wf_array {A : Type} (a : ndarray A) : Prop :=
  length (data a) = size a ∧ (Z.of_nat (size a) < 2 ^ 63)%Z.

(** Row-major strides, in elements. *)
Fixpoint strides (sh : list nat) : list nat :=
  match sh with
  | [] => []
  | _ :: sh' => prodn sh' :: strides sh'
  end.

(** All multi-indices of a shape, in row-major order. *)
Fixpoint indices (sh : list nat) : list (list nat) :=
  match sh with
  | [] => [[]]
  | d :: sh' => i ← seq 0 d; (i ::.) <$> indices sh'
  end.

Definition offset (idx strd : list nat) : nat :=
  foldr Nat.add 0 (zip_with Nat.mul idx strd).

(** The elements of a strided view, listed in row-major order of the
    view's shape. *)
Definition gather {A : Type} (dat : list A) (sh strd : list nat) : list A :=
  idx ← indices sh; option_list (dat !! offset idx strd).

(** Product of the known dimensions of a requested shape, as numpy
    accumulates it: [None] on overflow of the signed 64-bit size type. *)
Definition known_size (dims : list Z) : option Z :=
  foldl (λ acc d,
           s ← acc;
           if (d <? 0)%Z then Some s
           else if (s * d <? 2 ^ 63)%Z then Some (s * d)%Z else None)
        (Some 1%Z) dims.

(** [a.reshape(newshape)]: one negative entry is inferred. *)
Definition np_reshape {A : Type} (a : ndarray A) (newshape : list Z)
    : result (ndarray A) :=
  let total := Z.of_nat (size a) in
  match filter (λ d, (d < 0)%Z) newshape, known_size newshape with
  | [], Some known =>
      if (known =? total)%Z
      then Ok (mk_ndarray (Z.to_nat <$> newshape) (data a))
      else Raise NumpyValueError
  | [_], Some known =>
      if (known =? 0)%Z || negb (total mod known =? 0)%Z
      then Raise NumpyValueError
      else Ok (mk_ndarray
                 ((λ d, Z.to_nat (if (d <? 0)%Z then total / known else d)%Z)
                    <$> newshape)
                 (data a))
  | _, _ => Raise NumpyValueError
  end.

(** One axis argument of [transpose], normalised to [0 .. ndim-1]. *)
Definition normalize_axis (ndim : nat) (ax : Z) : result nat :=
  let n := Z.of_nat ndim in
  if ((- n <=? ax) && (ax <? n))%Z
  then Ok (Z.to_nat (if (ax <? 0)%Z then n + ax else ax)%Z)
  else Raise NumpyValueError.

(** The entries of [l] at the positions [axes], in the order of [axes]. *)
Definition take_axes (l : list nat) (axes : list nat) : list nat :=
  (λ ax, default 0 (l !! ax)) <$> axes.

(** [np.transpose(a, axes)] *)
Definition np_transpose {A : Type} (a : ndarray A) (axes : list Z)
    : result (ndarray A) :=
  let ndim := length (shape a) in
  if negb (length axes =? ndim) then Raise NumpyValueError
  else
    axes' ← mapR (normalize_axis ndim) axes;
    if negb (bool_decide (NoDup axes')) then Raise NumpyValueError
    else
      let sh := take_axes (shape a) axes' in
      let st := take_axes (strides (shape a)) axes' in
      Ok (mk_ndarray sh (gather (data a) sh st)).

(** [np.broadcast_to(a, target)] *)
Definition np_broadcast_to {A : Type} (a : ndarray A) (target : list Z)
    : result (ndarray A) :=
  let ndim := length (shape a) in
  if existsb (λ d, (d <? 0)%Z) target then Raise NumpyValueError
  else if length target <? ndim then Raise NumpyValueError
  else
    let pad := length target - ndim in
    let src_shape := replicate pad 1 ++ shape a in
    let src_strides := replicate pad 0 ++ strides (shape a) in
    let sh := Z.to_nat <$> target in
    if forallb (λ '(s, t), (s =? t) || (s =? 1)) (zip src_shape sh)
    then
      let st := zip_with (λ s k, if s =? 1 then 0 else k) src_shape src_strides in
      Ok (mk_ndarray sh (gather (data a) sh st))
    else Raise NumpyValueError.

(** ** [validate_shapes] *)

(** [{c: axes_length[c] for c in components if c in axes_length}] *)
Definition known_sizes_of (axes_length : gmap string Z) (components : list string)
    : gmap string Z :=
  foldl (λ known c,
           match axes_length !! c with
           | Some v => <[c := v]> known
           | None => known
           end)
        ∅ components.

(** [list(d.values())] *)
Definition dict_values (d : gmap string Z) : list Z := (map_to_list d).*2.

(** The body of the composite branch (lines 78-91): the new [shape_dict],
    or the [Error] raised. *)
Definition resolve_split (axes_length : gmap string Z) (components : list string)
    (current_size : Z) (shape_dict : gmap string Z) : result (gmap string Z) :=
  let known_sizes := known_sizes_of axes_length components in
  if bool_decide (known_sizes = ∅) then Raise (Error MsgSplitNeedsHint)
  else
    let known_product := np_prod (dict_values known_sizes) in
    if negb (np_mod current_size known_product =? 0)%Z
    then Raise (Error MsgCannotSplit)
    else
      let remaining_size := np_floordiv current_size known_product in
      let remaining_comps :=
        filter (λ c, known_sizes !! c = None) components in
      if 1 <? length remaining_comps then Raise (Error MsgOneUnknown)
      else
        Ok (foldl (λ sd comp,
                     <[comp := default remaining_size (known_sizes !! comp)]> sd)
                  shape_dict components).

(** One iteration of the loop over [input_axes] (lines 67-94); the state is
    [(shape_dict, shape_idx)]. *)
Definition validate_step (shape : list Z) (axes_length : gmap string Z)
    (n_ellipsis : Z) (st : gmap string Z * nat) (axis : string)
    : result (gmap string Z * nat) :=
  let '(shape_dict, shape_idx) := st in
  if bool_decide (axis = "...") then
    foldM (λ '(sd, idx) i,
             d ← py_index shape (Z.of_nat idx);
             Ok (<[ellipsis_name i := d]> sd, S idx))
          (shape_dict, shape_idx) (range n_ellipsis)
  else
    let '(name, components) := parse_axis axis in
    current_size ← py_index shape (Z.of_nat shape_idx);
    if truthy components then
      sd ← resolve_split axes_length (components_of components)
             current_size shape_dict;
      Ok (sd, S shape_idx)
    else Ok (<[name := current_size]> shape_dict, S shape_idx).

(** Lines 96-99: hints whose name is not yet in [shape_dict] are added. *)
Definition merge_hints (shape_dict axes_length : gmap string Z) : gmap string Z :=
  map_fold (λ name size sd,
              match sd !! name with
              | Some _ => sd
              | None => <[name := size]> sd
              end)
           shape_dict axes_length.

Definition is_ellipsis (ax : string) : bool := bool_decide (ax = "...").

(** The loop of lines 66-94 from its initial state. *)
Definition input_walk (shape : list Z) (axes_length : gmap string Z)
    (n_ellipsis : Z) (input_axes : list string) : result (gmap string Z * nat) :=
  foldM (validate_step shape axes_length n_ellipsis) (∅, 0) input_axes.

Definition validate_shapes {A : Type} (tensor : ndarray A)
    (input_axes output_axes : list string) (axes_length : gmap string Z)
    : result (gmap string Z) :=
  let shape := Z.of_nat <$> shape tensor in
  let tensor_rank := Z.of_nat (length shape) in
  let base_input_axes := filter (λ ax, ax ≠ "...") input_axes in
  let n_ellipsis := (tensor_rank - Z.of_nat (length base_input_axes))%Z in
  '(shape_dict, _) ← input_walk shape axes_length n_ellipsis input_axes;
  Ok (merge_hints shape_dict axes_length).

(** ** [rearrange] *)

(** An entry of [ops]; the only operation tag the source ever appends is
    ['reshape']. *)
Inductive op : Type := OpReshape (axis : Z) (shape : list Z).

(** ['(' in ax and ')' in ax] *)
Definition has_parens (ax : string) : bool := contains "(" ax && contains ")" ax.

(** Lines 116-128: the rank checks. *)
Definition check_rank (has_split has_merge ellipsis_present : bool)
    (tensor_rank n_base : Z) : result unit :=
  if negb has_split && negb has_merge then
    if ellipsis_present then
      let n_ellipsis := (tensor_rank - n_base)%Z in
      if (n_ellipsis <? 0)%Z then Raise (Error MsgTooManyAxes) else Ok ()
    else
      if negb (n_base =? tensor_rank)%Z then Raise (Error MsgTransposeRank)
      else Ok ()
  else if has_split then
    if negb (n_base =? tensor_rank)%Z then Raise (Error MsgSplitRank) else Ok ()
  else Ok ().

(** Lines 133-142: the members of the output groups must be keys of
    [shape_dict] that are not ellipsis slots. *)
Definition check_merge (has_merge : bool) (output_axes : list string)
    (shape_dict : gmap string Z) : result unit :=
  if has_merge then
    let output_comps : gset string :=
      foldl (λ acc ax,
               let '(_, comps) := parse_axis ax in
               if truthy comps then acc ∪ list_to_set (components_of comps)
               else acc)
            ∅ output_axes in
    let input_comps : gset string :=
      dom shape_dict
      ∖ filter (λ k, String.prefix "_ellipsis_" k = true) (dom shape_dict) in
    if bool_decide (output_comps ⊆ input_comps) then Ok ()
    else Raise (Error MsgMergeUnknown)
  else Ok ().

(** Lines 144-148. *)
Definition check_output (output_axes : list string) (shape_dict : gmap string Z)
    : result unit :=
  foldM (λ _ ax,
           let '(name, comps) := parse_axis ax in
           if negb (bool_decide (name = "...")) && negb (truthy comps)
              && negb (bool_decide (is_Some (shape_dict !! name)))
           then Raise (Error MsgUnknownAxis)
           else Ok ())
        () output_axes.

(** [for j, comp in enumerate(components): axis_map[comp] = shape_idx + j] *)
Definition assign_positions (components : list string) (shape_idx : Z)
    (axis_map : gmap string Z) : gmap string Z :=
  foldl (λ am '(j, comp), <[comp := (shape_idx + Z.of_nat j)%Z]> am)
        axis_map (imap pair components).

(** One iteration of the loop of lines 156-175; the state is
    [(ops, axis_map, shape_idx)]. *)
Definition axis_map_step (current_shape : list Z) (shape_dict : gmap string Z)
    (n_ellipsis : Z) (st : list op * gmap string Z * Z) (axis : string)
    : result (list op * gmap string Z * Z) :=
  let '(ops, axis_map, shape_idx) := st in
  if bool_decide (axis = "...") then
    Ok (ops,
        foldl (λ am j, <[ellipsis_name j := (shape_idx + Z.of_nat j)%Z]> am)
              axis_map (range n_ellipsis),
        (shape_idx + n_ellipsis)%Z)
  else
    let '(name, components) := parse_axis axis in
    if truthy components then
      let comps := components_of components in
      split_shape ← mapR (dict_get shape_dict) comps;
      Ok (ops ++ [OpReshape shape_idx split_shape],
          assign_positions comps shape_idx axis_map,
          (shape_idx + Z.of_nat (length comps))%Z)
    else
      _ ← (if bool_decide (name = "1")
           then d ← py_index current_shape shape_idx; Ok ()
           else Ok ());
      Ok (ops, <[name := shape_idx]> axis_map, (shape_idx + 1)%Z).

(** Line 199: the positions of the input tokens ['1'] whose dimension is 1,
    and the first of them. *)
Definition singleton_pos (input_axes : list string) (current_shape : list Z)
    : result Z :=
  l ← foldM (λ acc '(i, ax),
               if bool_decide (ax = "1") then
                 d ← py_index current_shape (Z.of_nat i);
                 Ok (if (d =? 1)%Z then acc ++ [Z.of_nat i] else acc)
               else Ok acc)
            [] (imap pair input_axes);
  py_index l 0.

(** One iteration of the loop of lines 182-204; the state is
    [(final_shape, permutation)].  The counter [current_axis_pos] of the
    source is written and never read. *)
Definition output_step (input_axes : list string) (current_shape : list Z)
    (shape_dict axis_map axes_lengths : gmap string Z) (n_ellipsis : Z)
    (st : list Z * list Z) (axis : string) : result (list Z * list Z) :=
  let '(final_shape, permutation) := st in
  let '(name, components) := parse_axis axis in
  if bool_decide (name = "...") then
    foldM (λ '(fs, pm) i,
             d ← dict_get shape_dict (ellipsis_name i);
             p ← dict_get axis_map (ellipsis_name i);
             Ok (fs ++ [d], pm ++ [p]))
          (final_shape, permutation) (range n_ellipsis)
  else if truthy components then
    let comps := components_of components in
    sizes ← mapR (dict_get shape_dict) comps;
    perm ← mapR (dict_get axis_map) comps;
    Ok (final_shape ++ [np_prod sizes], permutation ++ perm)
  else if bool_decide (is_Some (axes_lengths !! name))
          && negb (bool_decide (is_Some (axis_map !! name))) then
    d ← dict_get axes_lengths name;
    p ← singleton_pos input_axes current_shape;
    Ok (final_shape ++ [d], permutation ++ [p])
  else
    d ← dict_get shape_dict name;
    p ← dict_get axis_map name;
    Ok (final_shape ++ [d], permutation ++ [p]).

(** What lines 107-204 compute before the first numpy primitive is called. *)
Record plan : Type := mk_plan {
  input_axes : list string;
  output_axes : list string;
  has_split : bool;
  has_merge : bool;
  n_ellipsis : Z;
  shape_dict : gmap string Z;
  current_shape : list Z;
  ops : list op;
  axis_map : gmap string Z;
  final_shape : list Z;
  permutation : list Z
}.

(** Lines 107-204. *)
Definition compile {A : Type} (tensor : ndarray A) (pattern : string)
    (axes_lengths : gmap string Z) : result plan :=
  '(input_axes, output_axes) ← parser pattern;
  let has_split := existsb has_parens input_axes in
  let has_merge := existsb has_parens output_axes in
  let ellipsis_present :=
    bool_decide ("..." ∈ input_axes) || bool_decide ("..." ∈ output_axes) in
  let base_input_axes := filter (λ ax, ax ≠ "...") input_axes in
  let tensor_rank := Z.of_nat (length (shape tensor)) in
  let n_base := Z.of_nat (length base_input_axes) in
  _ ← check_rank has_split has_merge ellipsis_present tensor_rank n_base;
  shape_dict ← validate_shapes tensor input_axes output_axes axes_lengths;
  _ ← check_merge has_merge output_axes shape_dict;
  _ ← check_output output_axes shape_dict;
  let current_shape := Z.of_nat <$> shape tensor in
  let n_ellipsis := (tensor_rank - n_base)%Z in
  '(ops, axis_map, _) ←
    foldM (axis_map_step current_shape shape_dict n_ellipsis)
          ([], ∅, 0%Z) input_axes;
  '(final_shape, permutation) ←
    foldM (output_step input_axes current_shape shape_dict axis_map
             axes_lengths n_ellipsis)
          ([], []) output_axes;
  Ok (mk_plan input_axes output_axes has_split has_merge n_ellipsis shape_dict
        current_shape ops axis_map final_shape permutation).

(** A call of a numpy primitive, as recorded in the trace of a run. *)
Inductive prim : Type :=
  | PReshape (newshape : list Z)
  | PTranspose (axes : list Z)
  | PBroadcastTo (target : list Z).

(** Computations of the executing part: the trace of the primitives called
    so far is threaded through, and a primitive that raises is the last
    entry of the trace. *)
Definition backend (X : Type) : Type := list prim → list prim * result X.

Definition bpure {X : Type} (x : X) : backend X := λ tr, (tr, Ok x).
Definition blift {X : Type} (r : result X) : backend X := λ tr, (tr, r).
Definition bcall {X : Type} (p : prim) (r : result X) : backend X :=
  λ tr, (tr ++ [p], r).
Definition bbind {X Y : Type} (m : backend X) (k : X → backend Y) : backend Y :=
  λ tr,
    match m tr with
    | (tr', Ok x) => k x tr'
    | (tr', Raise e) => (tr', Raise e)
    end.

(** Lines 208-212: the split reshapes; the state is [(result, current_shape)]. *)
Fixpoint apply_ops {A : Type} (ops : list op) (result : ndarray A)
    (current_shape : list Z) : backend (ndarray A * list Z) :=
  match ops with
  | [] => bpure (result, current_shape)
  | OpReshape axis shape :: ops' =>
      let new_shape :=
        py_take current_shape axis ++ shape ++ py_drop current_shape (axis + 1) in
      bbind (bcall (PReshape new_shape) (np_reshape result new_shape))
            (λ result', apply_ops ops' result' new_shape)
  end.

(** Lines 220-229: the target of the broadcast, one output token at a
    time. *)
Definition broadcast_step (shape_dict axes_lengths : gmap string Z)
    (n_ellipsis : Z) (bs : list Z) (ax : string) : result (list Z) :=
  if bool_decide (ax = "...") then
    ds ← mapR (λ i, dict_get shape_dict (ellipsis_name i)) (range n_ellipsis);
    Ok (bs ++ ds)
  else if truthy (parse_axis ax).2 then
    sizes ← mapR (dict_get shape_dict) (components_of (parse_axis ax).2);
    Ok (bs ++ [np_prod sizes])
  else
    Ok (bs ++ [default (default 1%Z (axes_lengths !! ax)) (shape_dict !! ax)]).

Definition broadcast_shape_of (output_axes : list string)
    (shape_dict axes_lengths : gmap string Z) (n_ellipsis : Z)
    : result (list Z) :=
  foldM (broadcast_step shape_dict axes_lengths n_ellipsis) [] output_axes.

(** Lines 214-215. *)
Definition transpose_step {A : Type} (permutation : list Z) (result : ndarray A)
    : backend (ndarray A) :=
  match permutation with
  | [] => bpure result
  | _ => bcall (PTranspose permutation) (np_transpose result permutation)
  end.

(** Lines 217-233: the broadcast or the final reshape. *)
Definition terminal_step {A : Type} (p : plan) (axes_lengths : gmap string Z)
    (result : ndarray A) (current_shape : list Z) : backend (ndarray A) :=
  match final_shape p with
  | [] => bpure result
  | _ =>
      if existsb (λ s, (s =? 1)%Z) current_shape
         && negb (has_split p) && negb (has_merge p)
      then
        bbind (blift (broadcast_shape_of (output_axes p) (shape_dict p)
                        axes_lengths (n_ellipsis p)))
              (λ broadcast_shape,
                 bcall (PBroadcastTo broadcast_shape)
                       (np_broadcast_to result broadcast_shape))
      else bcall (PReshape (final_shape p)) (np_reshape result (final_shape p))
  end.

(** Lines 206-235. *)
Definition execute {A : Type} (tensor : ndarray A) (axes_lengths : gmap string Z)
    (p : plan) : backend (ndarray A) :=
  bbind (apply_ops (ops p) tensor (current_shape p)) (λ '(result, current_shape),
  bbind (transpose_step (permutation p) result) (λ result,
  terminal_step p axes_lengths result current_shape)).

(** A whole call, with the trace of the numpy primitives it invoked. *)
Definition rearrange_run {A : Type} (tensor : ndarray A) (pattern : string)
    (axes_lengths : gmap string Z) : list prim * result (ndarray A) :=
  match compile tensor pattern axes_lengths with
  | Raise e => ([], Raise e)
  | Ok p => execute tensor axes_lengths p []
  end.

Definition rearrange {A : Type} (tensor : ndarray A) (pattern : string)
    (axes_lengths : gmap string Z) : result (ndarray A) :=
  (rearrange_run tensor pattern axes_lengths).2.


(** ** Notions of the specification *)

(** *** Well-formed halves of a pattern (section 6) *)

Definition all_chars (p : ascii → bool) (s : string) : bool :=
  forallb p (list_ascii_of_string s).

Definition is_paren (c : ascii) : bool := Ascii.eqb c "(" || Ascii.eqb c ")".

Definition blank (s : string) : Prop := all_chars isspace s = true.

(** A bare unit: a non-empty run without whitespace and parentheses. *)
Definition bare_unit (u : string) : Prop :=
  nonempty u = true
  ∧ all_chars (λ c, negb (isspace c) && negb (is_paren c)) u = true.

(** A parenthesized group; whitespace is allowed inside. *)
Definition group_unit (u : string) : Prop :=
  ∃ body, u = "(" +:+ body +:+ ")"
          ∧ all_chars (λ c, negb (is_paren c)) body = true.

Definition wf_unit (u : string) : Prop := bare_unit u ∨ group_unit u.

(** Units, each followed by a run of whitespace. *)
Fixpoint render_units (pieces : list (string * string)) : string :=
  match pieces with
  | [] => EmptyString
  | (u, w) :: rest => u +:+ w +:+ render_units rest
  end.

(** The whitespace between two units is not empty. *)
Fixpoint wf_pieces (pieces : list (string * string)) : Prop :=
  match pieces with
  | [] => True
  | (u, w) :: rest =>
      wf_unit u ∧ blank w ∧ (rest ≠ [] → nonempty w = true) ∧ wf_pieces rest
  end.

(** Parentheses are balanced: the depth never drops below zero and ends at
    zero. *)
Fixpoint balanced_from (depth : nat) (s : string) : bool :=
  match s with
  | EmptyString => depth =? 0
  | String c s' =>
      if Ascii.eqb c "(" then balanced_from (S depth) s'
      else if Ascii.eqb c ")" then
        match depth with
        | 0 => false
        | S d => balanced_from d s'
        end
      else balanced_from depth s'
  end.
Definition balanced (s : string) : bool := balanced_from 0 s.

(** The units without the whitespace after the last one. *)
Fixpoint render_stripped (pieces : list (string * string)) : string :=
  match pieces with
  | [] => EmptyString
  | (u, w) :: rest =>
      match rest with
      | [] => u
      | _ => u +:+ w +:+ render_stripped rest
      end
  end.

(** *** Stages of a call *)

(** The rank checks of lines 116-128 pass. *)
Definition rank_ok {A : Type} (tensor : ndarray A) (ins outs : list string)
    : Prop :=
  check_rank (existsb has_parens ins) (existsb has_parens outs)
    (bool_decide ("..." ∈ ins) || bool_decide ("..." ∈ outs))
    (Z.of_nat (length (shape tensor)))
    (Z.of_nat (length (filter (λ ax, ax ≠ "...") ins)))
  = Ok ().

(** The call gets through the tokenizer, the rank checks and the shape
    resolver, which returns the shape dictionary [sd]. *)
Definition resolves {A : Type} (tensor : ndarray A) (pattern : string)
    (axes_lengths : gmap string Z) (ins outs : list string)
    (sd : gmap string Z) : Prop :=
  parser pattern = Ok (ins, outs)
  ∧ rank_ok tensor ins outs
  ∧ validate_shapes tensor ins outs axes_lengths = Ok sd.

(** The members of a group whose size no hint supplies. *)
Definition unhinted (axes_lengths : gmap string Z) (comps : list string)
    : list string :=
  filter (λ c, axes_lengths !! c = None) comps.


(** *** Element counts *)

(** The terminal operation of the plan is [broadcast_to] (lines 217-218). *)
Definition terminal_broadcast (p : plan) : bool :=
  match final_shape p with
  | [] => false
  | _ => existsb (λ s, (s =? 1)%Z) (current_shape p)
         && negb (has_split p) && negb (has_merge p)
  end.

(** The output token [b] introduces a new axis of size [v]: it is a plain
    name with the hint [v] that the input side does not bind (line 197). *)
Definition new_axis (p : plan) (axes_lengths : gmap string Z) (b : string)
    (v : Z) : Prop :=
  b ∈ output_axes p ∧ b ≠ "..."
  ∧ axes_lengths !! b = Some v ∧ axis_map p !! b = None.

(** *** Invariants of the loops *)

(** The dictionary of the input walk and the axis map have the same keys,
    and the size of a key is the dimension at its position. *)
Definition agree_at (shape : list Z) (w am : gmap string Z) : Prop :=
  ∀ k, match am !! k with
       | Some p => ∃ i d, p = Z.of_nat i ∧ shape !! i = Some d ∧ w !! k = Some d
       | None => w !! k = None
       end.

(** An entry of [final_shape] with its entry of [permutation]: the
    dimension of the array at that position, or a value [f] with [N f] (the
    hint of a new axis) whose position is the first singleton of the
    input. *)
Definition entry_ok (shape : list Z) (sp : result Z) (N : Z → Prop) (f q : Z)
    : Prop :=
  ∃ i, q = Z.of_nat i
       ∧ (shape !! i = Some f ∨ (shape !! i = Some 1%Z ∧ sp = Ok q ∧ N f)).

(** *** The reversed pattern and the slots of a side *)


(** The names a token binds: the slots of an ellipsis that stands for [n]
    dimensions, the members of a group, or the token itself. *)
Definition token_names (n : nat) (ax : string) : list string :=
  if bool_decide (ax = "...") then ellipsis_name <$> seq 0 n
  else if truthy (parse_axis ax).2 then components_of (parse_axis ax).2
  else [(parse_axis ax).1].

Definition slot_names (n : nat) (axes : list string) : list string :=
  axes ≫= token_names n.

Definition lookups (m : gmap string Z) (names : list string) : list Z :=
  (λ k, default 0%Z (m !! k)) <$> names.

(** The dimensions a token stands for when the names have the sizes [sd]:
    one per slot of an ellipsis, and the product of the members of a
    group. *)
Definition token_dims (sd : gmap string Z) (n : nat) (ax : string) : list Z :=
  if bool_decide (ax = "...") then lookups sd (token_names n ax)
  else [prodZ (lookups sd (token_names n ax))].

Definition side_dims (sd : gmap string Z) (n : nat) (axes : list string)
    : list Z :=
  axes ≫= token_dims sd n.

(** A name that is not the ellipsis, not the singleton ['1'], has no pair
    of parentheses and is not one of the names the program gives to the
    slots of an ellipsis. *)
Definition ident (s : string) : Prop :=
  s ≠ "..." ∧ s ≠ "1" ∧ has_parens s = false
  ∧ String.prefix "_ellipsis_" s = false.

(** A token is the ellipsis, a name, or a group of names. *)
Definition wf_token (ax : string) : Prop :=
  ax = "..." ∨ ident ax
  ∨ (truthy (parse_axis ax).2 = true ∧ (parse_axis ax).1 ≠ "..."
     ∧ Forall ident (components_of (parse_axis ax).2)).

(** The number of dimensions the ellipsis stands for. *)
Definition ellipsis_width {A : Type} (tensor : ndarray A) (ins : list string)
    : nat :=
  length (shape tensor) - length (filter (λ ax, ax ≠ "...") ins).

(** The split a token contributes when the input side is walked with the
    next free position [pos], and the splits of a whole side. *)
Definition token_ops (sd : gmap string Z) (n pos : nat) (ax : string) : list op :=
  if bool_decide (ax = "...") then []
  else if truthy (parse_axis ax).2
       then [OpReshape (Z.of_nat pos) (lookups sd (token_names n ax))]
       else [].

Fixpoint ops_of (sd : gmap string Z) (n pos : nat) (axes : list string)
    : list op :=
  match axes with
  | [] => []
  | ax :: axes' =>
      token_ops sd n pos ax
      ++ ops_of sd n (pos + length (token_names n ax)) axes'
  end.

(** The sizes [sd] written into a dictionary, name by name. *)
Definition bind_sizes (sd : gmap string Z) (names : list string)
    (w : gmap string Z) : gmap string Z :=
  foldl (λ w k, <[k := default 0%Z (sd !! k)]> w) w names.

(** The positions [am] gives to the names, as indices. *)
Definition slot_positions (am : gmap string Z) (names : list string)
    : list nat :=
  (λ k, Z.to_nat (default 0%Z (am !! k))) <$> names.

(** The positions of the names of a side, counted from zero. *)
Definition positions_of (names : list string) : gmap string Z :=
  assign_positions names 0 ∅.

(** *** Exceptions of the compiling part *)

(** The exceptions of the compiling part: anything but numpy's. *)
Definition compile_exn (e : exn) : Prop := e ≠ NumpyValueError.

(** ** The arrays and hints of [tests.py] *)

(** An array of a given shape filled with [0 .. size-1]. *)
Definition arange (sh : list nat) : ndarray nat := mk_ndarray sh (seq 0 (prodn sh)).

Definition hints (l : list (string * Z)) : gmap string Z := list_to_map l.

Definition result_shape {A : Type} (r : result (ndarray A)) : result (list nat) :=
  a ← r; Ok (shape a).

(** ** The calls of [tests.py] *)

Example parser_test_pattern :
  parser "(h1 h2) w -> h1 (h2 w)" = Ok (["(h1 h2)"; "w"], ["h1"; "(h2 w)"]).
Proof. reflexivity. Qed.

Example parse_axis_group : parse_axis "(h2 w)" = ("h2w", Some ["h2"; "w"]).
Proof. reflexivity. Qed.

Example test_transpose :
  rearrange (arange [3; 4]) "h w -> w h" ∅
  = Ok (mk_ndarray [4; 3] [0; 4; 8; 1; 5; 9; 2; 6; 10; 3; 7; 11]).
Proof. vm_compute. reflexivity. Qed.

Example test_split :
  result_shape (rearrange (arange [12; 10]) "(h w) c -> h w c" (hints [("h", 3%Z)]))
  = Ok [3; 4; 10].
Proof. vm_compute. reflexivity. Qed.

Example test_merge :
  result_shape (rearrange (arange [3; 4; 5]) "a b c -> (a b) c" ∅) = Ok [12; 5].
Proof. vm_compute. reflexivity. Qed.

Example test_ellipsis :
  result_shape (rearrange (arange [2; 3; 4; 5]) "... h w -> ... (h w)" ∅)
  = Ok [2; 3; 20].
Proof. vm_compute. reflexivity. Qed.

Example test_split_all_hinted :
  result_shape
    (rearrange (arange [24]) "(a b) -> a b" (hints [("a", 4%Z); ("b", 6%Z)]))
  = Ok [4; 6].
Proof. vm_compute. reflexivity. Qed.
(** * Properties *)

(** ** Strings *)

Lemma string_app_cons (c : ascii) (s t : string) :
  String c s +:+ t = String c (s +:+ t).
Proof. done. Qed.

Lemma string_app_nil_l (t : string) : "" +:+ t = t.
Proof. done. Qed.

Ltac sapp := rewrite ?string_app_cons, ?string_app_nil_l in *.

Lemma string_app_nil_r (s : string) : s +:+ "" = s.
Proof. induction s as [|c s IH]; sapp; [done|]. by rewrite IH. Qed.

Lemma string_app_assoc (s1 s2 s3 : string) :
  (s1 +:+ s2) +:+ s3 = s1 +:+ (s2 +:+ s3).
Proof. induction s1 as [|c s1 IH]; sapp; [done|]. by rewrite IH. Qed.

Lemma snoc_app (cur : string) (c : ascii) (s : string) :
  snoc cur c +:+ s = cur +:+ String c s.
Proof. unfold snoc. by rewrite string_app_assoc. Qed.

Lemma nonempty_snoc (cur : string) (c : ascii) : nonempty (snoc cur c) = true.
Proof. by destruct cur. Qed.

Lemma nonempty_app_l (s t : string) : nonempty s = true → nonempty (s +:+ t) = true.
Proof. by destruct s. Qed.

Lemma all_chars_cons p c s : all_chars p (String c s) = p c && all_chars p s.
Proof. done. Qed.

Lemma all_chars_app p s t : all_chars p (s +:+ t) = all_chars p s && all_chars p t.
Proof.
  induction s as [|c s IH]; sapp; [done|].
  rewrite !all_chars_cons, IH. by rewrite andb_assoc.
Qed.

Lemma all_chars_impl (p q : ascii → bool) s :
  (∀ c, p c = true → q c = true) → all_chars p s = true → all_chars q s = true.
Proof.
  intros Hpq. induction s as [|c s IH]; [done|].
  rewrite !all_chars_cons. intros [Hc Hs]%andb_true_iff.
  by rewrite (Hpq _ Hc), IH.
Qed.

(** ** [strip] *)

Lemma lstrip_by_blank p w s :
  all_chars p w = true → lstrip_by p (w +:+ s) = lstrip_by p s.
Proof.
  induction w as [|c w IH]; sapp; [done|].
  rewrite all_chars_cons. intros [Hc Hw]%andb_true_iff. simpl. rewrite Hc. auto.
Qed.

Lemma lstrip_by_head p c s : p c = false → lstrip_by p (String c s) = String c s.
Proof. simpl. by intros ->. Qed.

Lemma rstrip_by_all p w : all_chars p w = true → rstrip_by p w = "".
Proof.
  induction w as [|c w IH]; simpl; [done|].
  rewrite all_chars_cons. intros [Hc Hw]%andb_true_iff. by rewrite IH, Hc.
Qed.

Lemma rstrip_by_empty p s : rstrip_by p s = "" → all_chars p s = true.
Proof.
  induction s as [|e s IH]; simpl; [done|].
  rewrite all_chars_cons. destruct (rstrip_by p s); [|done].
  destruct (p e); [|done]. intros _. by rewrite IH.
Qed.

Lemma rstrip_by_last p s c : p c = false → rstrip_by p (snoc s c) = snoc s c.
Proof.
  intros Hc. unfold snoc. induction s as [|d s IH]; sapp; simpl; [by rewrite Hc|].
  rewrite IH. by destruct s.
Qed.

Lemma rstrip_by_app p s w :
  nonempty (rstrip_by p s) = true →
  all_chars p w = true → rstrip_by p (s +:+ w) = rstrip_by p s.
Proof.
  intros Hne Hw. induction s as [|c s IH]; sapp; simpl in *; [done|].
  destruct (rstrip_by p s) as [|d r] eqn:Hr.
  - assert (all_chars p (s +:+ w) = true) as Hall.
    { by rewrite all_chars_app, Hw, andb_true_r, (rstrip_by_empty _ _ Hr). }
    rewrite (rstrip_by_all _ _ Hall). done.
  - by rewrite IH.
Qed.

(** ** The tokenizer *)

Lemma split_arrow_no_separator (s : string) :
  contains "->" s = false → split_arrow s = [s].
Proof.
  induction s as [|c s IH]; [done|].
  cbn [contains]. intros [Hp Hc]%orb_false_iff.
  cbn [split_arrow]. rewrite (IH Hc).
  destruct s as [|d s']; [done|].
  destruct (Ascii.eqb c "-") eqn:Hc1; [|done].
  destruct (Ascii.eqb d ">") eqn:Hd1; [|done].
  apply Ascii.eqb_eq in Hc1, Hd1. subst. cbn in Hp. by destruct s'.
Qed.

Lemma split_arrow_app (a b : string) :
  contains "->" a = false → split_arrow (a +:+ "->" +:+ b) = a :: split_arrow b.
Proof.
  induction a as [|c a IH]; [done|].
  cbn [contains]. intros [Hp Hc]%orb_false_iff. sapp.
  cbn [split_arrow]. rewrite (IH Hc).
  destruct a as [|d a']; sapp.
  - change ("->" +:+ b) with (String "-" (String ">" b)).
    by rewrite andb_false_r.
  - destruct (Ascii.eqb c "-") eqn:Hc1; [|done].
    destruct (Ascii.eqb d ">") eqn:Hd1; [|done].
    apply Ascii.eqb_eq in Hc1, Hd1. subst. cbn in Hp. by destruct a'.
Qed.

Lemma split_loop_units_nonempty s r cur pc :
  Forall (λ u, nonempty u = true) r →
  Forall (λ u, nonempty u = true) (split_loop s r cur pc).
Proof.
  revert r cur pc. induction s as [|c s IH]; intros r cur pc Hr; cbn [split_loop].
  - destruct (nonempty cur) eqn:Hcur; [|done].
    apply Forall_app; split; [done|]. by constructor.
  - repeat case_match; apply IH; try done.
    apply Forall_app; split; [done|]. by constructor.
Qed.

(** A run without parentheses, and without whitespace at depth zero, is
    appended to the current unit. *)
Lemma split_loop_run s rest r cur pc :
  all_chars (λ c, negb (is_paren c) && (negb (isspace c) || negb (pc =? 0)%Z)) s
    = true →
  split_loop (s +:+ rest) r cur pc = split_loop rest r (cur +:+ s) pc.
Proof.
  revert cur. induction s as [|c s IH]; intros cur; sapp.
  - by rewrite string_app_nil_r.
  - rewrite all_chars_cons. intros [[Hp Hw]%andb_true_iff Hs]%andb_true_iff.
    cbn [split_loop]. unfold is_paren in Hp.
    apply negb_true_iff, orb_false_iff in Hp as [-> ->].
    assert (isspace c && (pc =? 0)%Z = false) as ->.
    { destruct (isspace c), (pc =? 0)%Z; naive_solver. }
    rewrite IH by done. by rewrite snoc_app.
Qed.

Lemma scan_unit u rest r cur :
  wf_unit u → split_loop (u +:+ rest) r cur 0 = split_loop rest r (cur +:+ u) 0.
Proof.
  intros [[_ Hb]|(body & -> & Hbody)].
  - apply split_loop_run. eapply all_chars_impl; [|exact Hb].
    intros c; simpl. intros [-> ->]%andb_true_iff. done.
  - sapp. cbn [split_loop]. simpl (Ascii.eqb "(" "(").
    rewrite string_app_assoc, split_loop_run.
    + cbn [split_loop]. simpl. unfold snoc.
      rewrite !string_app_assoc. by sapp.
    + eapply all_chars_impl; [|exact Hbody].
      intros c; simpl. intros ->. by rewrite orb_true_r.
Qed.

Lemma scan_blank_empty w rest r :
  blank w → split_loop (w +:+ rest) r "" 0 = split_loop rest r "" 0.
Proof.
  unfold blank. induction w as [|c w IH]; sapp; [done|].
  rewrite all_chars_cons. intros [Hc Hw]%andb_true_iff.
  cbn [split_loop].
  assert (Ascii.eqb c "(" = false) as ->.
  { destruct (Ascii.eqb_spec c "("); [by subst|done]. }
  assert (Ascii.eqb c ")" = false) as ->.
  { destruct (Ascii.eqb_spec c ")"); [by subst|done]. }
  rewrite Hc. simpl. auto.
Qed.

Lemma scan_blank w rest r cur :
  blank w → nonempty w = true → nonempty cur = true →
  split_loop (w +:+ rest) r cur 0 = split_loop rest (r ++ [cur]) "" 0.
Proof.
  unfold blank. destruct w as [|c w]; [done|]. sapp.
  rewrite all_chars_cons. intros [Hc Hw]%andb_true_iff _ Hcur.
  cbn [split_loop].
  assert (Ascii.eqb c "(" = false) as ->.
  { destruct (Ascii.eqb_spec c "("); [by subst|done]. }
  assert (Ascii.eqb c ")" = false) as ->.
  { destruct (Ascii.eqb_spec c ")"); [by subst|done]. }
  rewrite Hc, Hcur. simpl. by apply scan_blank_empty.
Qed.

Lemma wf_unit_nonempty u : wf_unit u → nonempty u = true.
Proof. intros [[? _]|(body & -> & _)]; done. Qed.

Lemma split_loop_stripped pieces r :
  wf_pieces pieces →
  split_loop (render_stripped pieces) r "" 0 = r ++ pieces.*1.
Proof.
  revert r. induction pieces as [|[u w] rest IH]; intros r; simpl.
  - by rewrite app_nil_r.
  - intros (Hu & Hw & Hne & Hrest). destruct rest as [|p rest].
    + pose proof (scan_unit u "" r "" Hu) as Hscan.
      rewrite string_app_nil_r in Hscan. rewrite Hscan. sapp.
      simpl. by rewrite (wf_unit_nonempty _ Hu).
    + rewrite scan_unit by done. sapp.
      rewrite scan_blank; [|done|by apply Hne|by apply wf_unit_nonempty].
      rewrite IH by done. by rewrite <-app_assoc.
Qed.

Lemma rstrip_by_none p s :
  all_chars (λ c, negb (p c)) s = true → rstrip_by p s = s.
Proof.
  induction s as [|c s IH]; [done|].
  rewrite all_chars_cons. intros [Hc Hs]%andb_true_iff.
  cbn [rstrip_by]. rewrite (IH Hs). apply negb_true_iff in Hc.
  destruct s; [by rewrite Hc|done].
Qed.

Lemma rstrip_by_prefix p s t :
  nonempty (rstrip_by p t) = true → rstrip_by p (s +:+ t) = s +:+ rstrip_by p t.
Proof.
  intros Ht. induction s as [|c s IH]; sapp; [done|].
  cbn [rstrip_by]. rewrite IH.
  destruct (s +:+ rstrip_by p t) eqn:E; [|done].
  destruct s; sapp; [|done]. by rewrite E in Ht.
Qed.

Lemma rstrip_unit u : wf_unit u → rstrip_by isspace u = u.
Proof.
  intros [[_ Hb]|(body & -> & _)].
  - apply rstrip_by_none. eapply all_chars_impl; [|exact Hb].
    intros c; simpl. by intros [-> _]%andb_true_iff.
  - rewrite <-string_app_assoc.
    change (("(" +:+ body) +:+ ")") with (snoc ("(" +:+ body) ")").
    by apply rstrip_by_last.
Qed.

Lemma lstrip_unit u s : wf_unit u → lstrip_by isspace (u +:+ s) = u +:+ s.
Proof.
  intros [[Hne Hb]|(body & -> & _)].
  - destruct u as [|c u]; [done|]. sapp. apply lstrip_by_head.
    rewrite all_chars_cons in Hb.
    apply andb_true_iff in Hb as [[Hc _]%andb_true_iff _].
    by apply negb_true_iff.
  - by sapp.
Qed.

Lemma render_stripped_nonempty pieces :
  wf_pieces pieces → pieces ≠ [] → nonempty (render_stripped pieces) = true.
Proof.
  destruct pieces as [|[u w] rest]; [done|]. intros (Hu & _) _. simpl.
  destruct rest; [by apply wf_unit_nonempty|].
  by apply nonempty_app_l, wf_unit_nonempty.
Qed.

Lemma rstrip_render pieces :
  wf_pieces pieces →
  rstrip_by isspace (render_units pieces) = render_stripped pieces.
Proof.
  induction pieces as [|[u w] rest IH]; [done|].
  intros (Hu & Hw & Hne & Hrest). cbn [render_units render_stripped].
  destruct rest as [|p rest].
  - cbn [render_units]. rewrite string_app_nil_r.
    rewrite rstrip_by_app, rstrip_unit; try done.
    rewrite rstrip_unit by done. by apply wf_unit_nonempty.
  - rewrite <-string_app_assoc, rstrip_by_prefix.
    + by rewrite IH, string_app_assoc.
    + rewrite IH by done. by apply render_stripped_nonempty.
Qed.

Lemma strip_render lead pieces :
  blank lead → wf_pieces pieces →
  strip (lead +:+ render_units pieces) = render_stripped pieces.
Proof.
  intros Hlead Hp. unfold strip. rewrite lstrip_by_blank by done.
  destruct pieces as [|[u w] rest]; [done|].
  cbn [render_units]. rewrite lstrip_unit by apply Hp.
  by apply (rstrip_render ((u, w) :: rest)).
Qed.

(** On a well-formed half, [split] returns its units. *)
Lemma split_well_formed lead pieces :
  blank lead → wf_pieces pieces →
  split (lead +:+ render_units pieces) = pieces.*1.
Proof.
  intros Hlead Hp. unfold split.
  rewrite strip_render by done. by rewrite split_loop_stripped.
Qed.

Lemma parser_no_separator pattern :
  contains "->" pattern = false → parser pattern = Raise (Error MsgNoSeparator).
Proof. unfold parser. by intros ->. Qed.

Lemma parser_one_separator pattern input output :
  split_arrow pattern = [input; output] →
  parser pattern = Ok (split input, split output).
Proof.
  intros Hs. unfold parser.
  destruct (contains "->" pattern) eqn:Hc.
  - by rewrite Hs.
  - by rewrite (split_arrow_no_separator _ Hc) in Hs.
Qed.

Lemma parser_inv pattern ins outs :
  parser pattern = Ok (ins, outs) →
  ∃ input output, split_arrow pattern = [input; output]
                  ∧ ins = split input ∧ outs = split output.
Proof.
  unfold parser. destruct (contains "->" pattern); [|done]. simpl.
  destruct (split_arrow pattern) as [|i [|o [|]]]; try done.
  intros [= <- <-]. eauto.
Qed.

Lemma parser_raises pattern e :
  parser pattern = Raise e → e = Error MsgNoSeparator ∨ e = UnpackValueError.
Proof.
  unfold parser. destruct (contains "->" pattern); simpl; [|naive_solver].
  destruct (split_arrow pattern) as [|i [|o [|]]]; naive_solver.
Qed.

(** C5 (as the code has it).  The tokenizer raises the library's error, of
    kind [PatternSyntaxError], exactly when the separator is absent; any
    other failure is the interpreter's unpacking error for a second
    separator.  Whenever the pattern has one separator the two halves are
    tokenized whatever their parentheses, and no unit of the result is
    empty.  On a well-formed half (units separated by whitespace, a unit
    being a bare word or a parenthesized group) the result is the list of
    the units, a group with its inner whitespace being one unit. *)
Theorem C5_tokenizer_contract :
  (∀ pattern, contains "->" pattern = false →
     fails_with (parser pattern) PatternSyntaxError)
  ∧ (∀ pattern k, fails_with (parser pattern) k →
       k = PatternSyntaxError ∧ contains "->" pattern = false)
  ∧ (∀ pattern input output, split_arrow pattern = [input; output] →
       parser pattern = Ok (split input, split output))
  ∧ (∀ pattern ins outs, parser pattern = Ok (ins, outs) →
       Forall (λ u, u ≠ "") (ins ++ outs))
  ∧ (∀ lead1 pieces1 lead2 pieces2,
       blank lead1 → wf_pieces pieces1 → blank lead2 → wf_pieces pieces2 →
       contains "->" (lead1 +:+ render_units pieces1) = false →
       contains "->" (lead2 +:+ render_units pieces2) = false →
       parser ((lead1 +:+ render_units pieces1) +:+ "->"
                 +:+ (lead2 +:+ render_units pieces2))
       = Ok (pieces1.*1, pieces2.*1)).
Proof.
  split_and!.
  - intros pattern Hc. exists MsgNoSeparator.
    by rewrite parser_no_separator.
  - intros pattern k (m & Hm & <-). unfold parser in Hm.
    destruct (contains "->" pattern); simpl in Hm.
    + destruct (split_arrow pattern) as [|i [|o [|]]]; done.
    + by injection Hm as <-.
  - apply parser_one_separator.
  - intros pattern ins outs (input & output & _ & -> & ->)%parser_inv.
    apply Forall_app; split; unfold split;
      (eapply Forall_impl; [apply split_loop_units_nonempty; constructor|]);
      intros [|]; done.
  - intros lead1 pieces1 lead2 pieces2 Hl1 Hp1 Hl2 Hp2 Hc1 Hc2.
    rewrite (parser_one_separator _ (lead1 +:+ render_units pieces1)
               (lead2 +:+ render_units pieces2)).
    + by rewrite !split_well_formed.
    + by rewrite split_arrow_app, split_arrow_no_separator.
Qed.

(** C5, the claim as stated fails: a pattern with an unbalanced parenthesis
    is tokenized without error. *)
Lemma C5_unbalanced_accepted :
  balanced "(a b -> c" = false
  ∧ parser "(a b -> c" = Ok (["(a b"], ["c"])
  ∧ ¬ fails_with (parser "(a b -> c") PatternSyntaxError.
Proof.
  split_and!; [done..|]. intros (m & Hm & _). discriminate Hm.
Qed.

Lemma C5_tokenizer_contract_witness :
  fails_with (parser "a b c") PatternSyntaxError
  ∧ parser (("  " +:+ render_units [("a", " "); ("(b  c)", "  ")]) +:+ "->"
              +:+ (" " +:+ render_units [("(a b)", " "); ("c", "")]))
    = Ok (["a"; "(b  c)"], ["(a b)"; "c"]).
Proof.
  split.
  - apply (proj1 C5_tokenizer_contract "a b c"). reflexivity.
  - apply (proj2 (proj2 (proj2 (proj2 C5_tokenizer_contract)))
             "  " [("a", " "); ("(b  c)", "  ")]
             " " [("(a b)", " "); ("c", "")]); try reflexivity.
    + simpl. split_and!; try done.
      * left. split; reflexivity.
      * right. exists "b  c". split; reflexivity.
    + simpl. split_and!; try done.
      * right. exists "a b". split; reflexivity.
      * left. split; reflexivity.
Defined.

(** ** The result monad and loops *)

Lemma bind_Ok_inv {X Y : Type} (r : result X) (k : X → result Y) (y : Y) :
  r ≫= k = Ok y → ∃ x, r = Ok x ∧ k x = Ok y.
Proof. destruct r as [x|e]; [|done]. intros. by exists x. Qed.

Lemma bind_Raise_inv {X Y : Type} (r : result X) (k : X → result Y) (e : exn) :
  r ≫= k = Raise e → r = Raise e ∨ ∃ x, r = Ok x ∧ k x = Raise e.
Proof.
  destruct r as [x|e']; simpl.
  - intros. right. by exists x.
  - intros [= ->]. by left.
Qed.

Lemma foldM_app {S X : Type} (body : S → X → result S) (s : S) (l1 l2 : list X) :
  foldM body s (l1 ++ l2) = foldM body s l1 ≫= λ s', foldM body s' l2.
Proof.
  revert s. induction l1 as [|x l1 IH]; intros s; simpl; [done|].
  destruct (body s x) as [s'|e]; simpl; [apply IH|done].
Qed.

(** An invariant of a loop that completes. *)
Lemma foldM_invariant {S X : Type} (P : S → Prop) (body : S → X → result S)
    (s : S) (l : list X) (s' : S) :
  (∀ s x s', x ∈ l → P s → body s x = Ok s' → P s') →
  P s → foldM body s l = Ok s' → P s'.
Proof.
  revert s. induction l as [|x l IH]; intros s Hstep Hs; simpl.
  - by intros [= <-].
  - intros (s1 & Hb & Hrest)%bind_Ok_inv.
    eapply IH; [|by eapply Hstep; [left| |]|done].
    intros ????; apply Hstep. by right.
Qed.

(** Every exception of a loop comes from its body. *)
Lemma foldM_raises {S X : Type} (Q : exn → Prop) (body : S → X → result S)
    (s : S) (l : list X) (e : exn) :
  (∀ s x e, x ∈ l → body s x = Raise e → Q e) →
  foldM body s l = Raise e → Q e.
Proof.
  revert s. induction l as [|x l IH]; intros s Hstep; simpl; [done|].
  intros [Hb|(s1 & Hb & Hrest)]%bind_Raise_inv.
  - eapply Hstep; [left|done].
  - eapply IH; [|done]. intros ????; apply Hstep. by right.
Qed.

Lemma mapR_Ok_length {X Y : Type} (f : X → result Y) (l : list X) (ys : list Y) :
  mapR f l = Ok ys → length ys = length l.
Proof.
  revert ys. induction l as [|x l IH]; intros ys; simpl.
  - by intros [= <-].
  - intros (y & Hy & (ys' & Hys & [= <-])%bind_Ok_inv)%bind_Ok_inv.
    simpl. by rewrite (IH _ Hys).
Qed.

Lemma mapR_Ok_lookup {X Y : Type} (f : X → result Y) (l : list X) (ys : list Y)
    (i : nat) (x : X) :
  mapR f l = Ok ys → l !! i = Some x → ∃ y, ys !! i = Some y ∧ f x = Ok y.
Proof.
  revert ys i. induction l as [|x' l IH]; intros ys i; simpl; [done|].
  intros (y & Hy & (ys' & Hys & [= <-])%bind_Ok_inv)%bind_Ok_inv.
  destruct i as [|i]; simpl.
  - intros [= ->]. eauto.
  - intros Hi. eauto.
Qed.

(** ** Stages of [compile] *)

Lemma compile_Ok_inv {A : Type} (tensor : ndarray A) pattern axes_lengths p :
  compile tensor pattern axes_lengths = Ok p →
  ∃ ins outs sd ops am last fs pm,
    let rank := Z.of_nat (length (shape tensor)) in
    let n_base := Z.of_nat (length (filter (λ ax, ax ≠ "...") ins)) in
    let cs := Z.of_nat <$> shape tensor in
    parser pattern = Ok (ins, outs)
    ∧ check_rank (existsb has_parens ins) (existsb has_parens outs)
        (bool_decide ("..." ∈ ins) || bool_decide ("..." ∈ outs)) rank n_base
      = Ok ()
    ∧ validate_shapes tensor ins outs axes_lengths = Ok sd
    ∧ check_merge (existsb has_parens outs) outs sd = Ok ()
    ∧ check_output outs sd = Ok ()
    ∧ foldM (axis_map_step cs sd (rank - n_base)) ([], ∅, 0%Z) ins
      = Ok (ops, am, last)
    ∧ foldM (output_step ins cs sd am axes_lengths (rank - n_base)) ([], []) outs
      = Ok (fs, pm)
    ∧ p = mk_plan ins outs (existsb has_parens ins) (existsb has_parens outs)
            (rank - n_base) sd cs ops am fs pm.
Proof.
  unfold compile.
  intros ([ins outs] & Hp & H1)%bind_Ok_inv.
  apply bind_Ok_inv in H1 as ([] & Hr & H1).
  apply bind_Ok_inv in H1 as (sd & Hv & H1).
  apply bind_Ok_inv in H1 as ([] & Hm & H1).
  apply bind_Ok_inv in H1 as ([] & Ho & H1).
  apply bind_Ok_inv in H1 as ([[ops am] last] & Ha & H1).
  apply bind_Ok_inv in H1 as ([fs pm] & Hf & H1).
  injection H1 as <-.
  exists ins, outs, sd, ops, am, last, fs, pm. by split_and!.
Qed.

Lemma bind_Ok {X Y : Type} (x : X) (k : X → result Y) : Ok x ≫= k = k x.
Proof. done. Qed.

Lemma bind_Raise {X Y : Type} (e : exn) (k : X → result Y) :
  Raise e ≫= k = Raise e.
Proof. done. Qed.



Lemma compile_checks_raise {A : Type} (tensor : ndarray A) pattern H ins outs sd e :
  resolves tensor pattern H ins outs sd →
  (check_merge (existsb has_parens outs) outs sd ≫= λ _, check_output outs sd)
  = Raise e →
  compile tensor pattern H = Raise e.
Proof.
  intros (Hp & Hr & Hv) Hc. unfold compile. rewrite Hp, bind_Ok.
  cbv beta iota zeta. unfold rank_ok in Hr. rewrite Hr, bind_Ok, Hv, bind_Ok.
  revert Hc. destruct (check_merge _ outs sd) as [[]|e'].
  - rewrite !bind_Ok. by intros ->.
  - rewrite !bind_Raise. by intros [= ->].
Qed.

Lemma rearrange_compile_raise {A : Type} (tensor : ndarray A) pattern H e :
  compile tensor pattern H = Raise e →
  rearrange_run tensor pattern H = ([], Raise e).
Proof. unfold rearrange_run. by intros ->. Qed.





(** The patterns with a group on the output side only have no rank check:
    too many tokens end in an [IndexError] of the input walk. *)
Example merge_only_rank_mismatch :
  rearrange (arange [3; 4]) "a b c -> (a b c)" ∅ = Raise IndexError.
Proof. vm_compute. reflexivity. Qed.

(** ** The shape dictionary *)

Lemma merge_hints_lookup (shape_dict axes_length : gmap string Z) (k : string) :
  merge_hints shape_dict axes_length !! k
  = match shape_dict !! k with
    | Some v => Some v
    | None => axes_length !! k
    end.
Proof.
  unfold merge_hints. revert k.
  apply (map_fold_weak_ind
           (λ r m, ∀ k, r !! k = match shape_dict !! k with
                                 | Some v => Some v
                                 | None => m !! k
                                 end)).
  - intros k. rewrite lookup_empty. by destruct (shape_dict !! k).
  - intros i x m r Hi IH k.
    destruct (r !! i) eqn:Hr.
    + rewrite IH. destruct (decide (i = k)) as [<-|Hne].
      * rewrite lookup_insert_eq, Hi. rewrite IH, Hi in Hr.
        by destruct (shape_dict !! i).
      * by rewrite lookup_insert_ne.
    + destruct (decide (i = k)) as [<-|Hne].
      * rewrite !lookup_insert_eq. rewrite IH in Hr.
        by destruct (shape_dict !! i).
      * rewrite !lookup_insert_ne by done. apply IH.
Qed.

Lemma merge_hints_union (shape_dict axes_length : gmap string Z) :
  merge_hints shape_dict axes_length = shape_dict ∪ axes_length.
Proof.
  apply map_eq. intros k. rewrite merge_hints_lookup, lookup_union.
  by destruct (shape_dict !! k), (axes_length !! k).
Qed.

Lemma known_sizes_of_lookup_acc (H : gmap string Z) comps (acc : gmap string Z) c :
  foldl (λ known c, match H !! c with
                    | Some v => <[c := v]> known
                    | None => known
                    end) acc comps !! c
  = match (if decide (c ∈ comps) then H !! c else None) with
    | Some v => Some v
    | None => acc !! c
    end.
Proof.
  revert acc. induction comps as [|c' comps IH]; intros acc; cbn [foldl].
  - case_decide as Hin; [by apply elem_of_nil in Hin|done].
  - rewrite IH. destruct (decide (c = c')) as [->|Hne].
    + destruct (decide (c' ∈ c' :: comps)) as [_|Hn]; [|by destruct Hn; left].
      destruct (decide (c' ∈ comps)); destruct (H !! c') eqn:Hc; try done.
      by rewrite lookup_insert_eq.
    + destruct (decide (c ∈ comps)) as [Hin|Hin].
      * destruct (decide (c ∈ c' :: comps)) as [_|Hn]; [|by destruct Hn; right].
        destruct (H !! c); [done|].
        destruct (H !! c'); [by rewrite lookup_insert_ne|done].
      * destruct (decide (c ∈ c' :: comps)) as [Hn|_];
          [by apply elem_of_cons in Hn as [?|?]|].
        destruct (H !! c'); [by rewrite lookup_insert_ne|done].
Qed.

Lemma known_sizes_of_lookup (H : gmap string Z) comps c :
  known_sizes_of H comps !! c = if decide (c ∈ comps) then H !! c else None.
Proof.
  unfold known_sizes_of. rewrite known_sizes_of_lookup_acc, lookup_empty.
  by destruct (if decide (c ∈ comps) then H !! c else None).
Qed.

Lemma filter_ext_elem {X : Type} (P Q : X → Prop)
    `{!∀ x, Decision (P x), !∀ x, Decision (Q x)} (l : list X) :
  (∀ x, x ∈ l → P x ↔ Q x) → filter P l = filter Q l.
Proof.
  induction l as [|a l IH]; intros HPQ; [done|].
  rewrite !filter_cons, IH by (intros; apply HPQ; by right).
  destruct (decide (P a)) as [HP|HP], (decide (Q a)) as [HQ|HQ]; try done;
    exfalso; apply (HPQ a) in HP || apply (HPQ a) in HQ; try done; by left.
Qed.

Lemma remaining_comps_unhinted (H : gmap string Z) comps :
  filter (λ c, known_sizes_of H comps !! c = None) comps = unhinted H comps.
Proof.
  unfold unhinted. apply filter_ext_elem.
  intros c Hc. by rewrite known_sizes_of_lookup, decide_True.
Qed.


Lemma resolve_split_raises (H : gmap string Z) comps d sd e :
  resolve_split H comps d sd = Raise e →
  ∃ m, e = Error m
       ∧ (kind_of m = AmbiguousSplitError ∨ kind_of m = ShapeMismatchError).
Proof.
  unfold resolve_split. repeat case_match; intros [= <-]; eauto.
Qed.

Lemma parse_axis_some_parens axis name comps :
  parse_axis axis = (name, Some comps) → axis ≠ "..." ∧ has_parens axis = true.
Proof.
  unfold parse_axis, has_parens. case_bool_decide; [done|].
  destruct (contains "(" axis && contains ")" axis); [done|done].
Qed.

Lemma parse_axis_no_parens axis :
  has_parens axis = false → parse_axis axis = (axis, None).
Proof.
  unfold parse_axis, has_parens. intros ->. by case_bool_decide.
Qed.

Lemma parse_axis_ellipsis : parse_axis "..." = ("...", None).
Proof. done. Qed.

Lemma Z_of_nat_ltb_0 (i : nat) : (Z.of_nat i <? 0)%Z = false.
Proof. apply Z.ltb_ge. lia. Qed.

Lemma py_index_nat {X : Type} (l : list X) (i : nat) (x : X) :
  l !! i = Some x → py_index l (Z.of_nat i) = Ok x.
Proof.
  intros Hi. unfold py_index. cbv zeta.
  by rewrite !Z_of_nat_ltb_0, Nat2Z.id, Hi.
Qed.

Lemma py_index_nat_inv {X : Type} (l : list X) (i : nat) (x : X) :
  py_index l (Z.of_nat i) = Ok x → l !! i = Some x.
Proof.
  unfold py_index. cbv zeta. rewrite !Z_of_nat_ltb_0, Nat2Z.id.
  destruct (l !! i); [|done]. by intros [= ->].
Qed.

Lemma validate_step_ellipsis shape (H : gmap string Z) n sd idx :
  validate_step shape H n (sd, idx) "..."
  = foldM (λ '(sd, idx) i,
             d ← py_index shape (Z.of_nat idx);
             Ok (<[ellipsis_name i := d]> sd, S idx))
          (sd, idx) (range n).
Proof. done. Qed.

Lemma validate_step_token shape (H : gmap string Z) n sd idx axis :
  axis ≠ "..." →
  validate_step shape H n (sd, idx) axis
  = (current_size ← py_index shape (Z.of_nat idx);
     if truthy (parse_axis axis).2 then
       sd' ← resolve_split H (components_of (parse_axis axis).2) current_size sd;
       Ok (sd', S idx)
     else Ok (<[(parse_axis axis).1 := current_size]> sd, S idx)).
Proof.
  intros Hne. unfold validate_step. rewrite bool_decide_false by done.
  by destruct (parse_axis axis).
Qed.





(** ** The checks on the output side *)

Lemma check_output_raises outs sd e :
  check_output outs sd = Raise e → e = Error MsgUnknownAxis.
Proof.
  unfold check_output.
  apply (foldM_raises (λ e, e = Error MsgUnknownAxis)). intros [] ax e' _.
  destruct (parse_axis ax) as [name comps]. by case_match; intros [= <-].
Qed.

Lemma check_merge_raises has_merge outs sd e :
  check_merge has_merge outs sd = Raise e → e = Error MsgMergeUnknown.
Proof.
  unfold check_merge. destruct has_merge; [|done].
  by case_bool_decide; intros [= <-].
Qed.

Lemma check_output_unknown outs sd ax :
  ax ∈ outs →
  (parse_axis ax).1 ≠ "..." → truthy (parse_axis ax).2 = false →
  sd !! (parse_axis ax).1 = None →
  check_output outs sd = Raise (Error MsgUnknownAxis).
Proof.
  intros Hin Hne Ht Hsd. unfold check_output.
  induction outs as [|x outs IH]; [by apply elem_of_nil in Hin|].
  cbn [foldM].
  destruct (parse_axis x) as [name comps] eqn:Hpx.
  destruct (negb (bool_decide (name = "...")) && negb (truthy comps)
            && negb (bool_decide (is_Some (sd !! name)))) eqn:Hc; [done|].
  rewrite bind_Ok. apply elem_of_cons in Hin as [->|Hin]; [|by apply IH].
  rewrite Hpx in Hne, Ht, Hsd. simpl in *.
  rewrite bool_decide_false, Ht, bool_decide_false in Hc; [done| |done].
  rewrite Hsd. by intros [? ?].
Qed.

(** C8.  Once the tokenizer, the rank checks and the shape resolver have
    passed, an output token that is a plain name (not the ellipsis, not a
    group) absent from the shape dictionary, which holds the names of the
    input walk, of the ellipsis expansion and of the hints, makes the call
    fail with [UnknownAxisError].  For a two-dimensional array the pattern
    "a b -> a c" without a hint for c fails so. *)
Theorem C8_unknown_output_axis :
  (∀ (A : Type) (tensor : ndarray A) pattern H ins outs sd ax name comps,
     resolves tensor pattern H ins outs sd →
     ax ∈ outs → parse_axis ax = (name, comps) →
     name ≠ "..." → truthy comps = false → sd !! name = None →
     fails_with (rearrange tensor pattern H) UnknownAxisError)
  ∧ (∀ (A : Type) (tensor : ndarray A) (H : gmap string Z),
       length (shape tensor) = 2 → H !! "c" = None →
       fails_with (rearrange tensor "a b -> a c" H) UnknownAxisError).
Proof.
  assert (∀ (A : Type) (tensor : ndarray A) pattern H ins outs sd ax name comps,
     resolves tensor pattern H ins outs sd →
     ax ∈ outs → parse_axis ax = (name, comps) →
     name ≠ "..." → truthy comps = false → sd !! name = None →
     fails_with (rearrange tensor pattern H) UnknownAxisError) as Hgen.
  { intros A tensor pattern H ins outs sd ax name comps Hres Hin Hpa Hne Ht Hsd.
    assert (∃ m, (check_merge (existsb has_parens outs) outs sd
                  ≫= λ _, check_output outs sd) = Raise (Error m)
                 ∧ kind_of m = UnknownAxisError) as (m & Hm & Hk).
    { destruct (check_merge _ outs sd) as [[]|e] eqn:Hcm.
      - exists MsgUnknownAxis. split; [|done]. rewrite bind_Ok.
        apply (check_output_unknown _ _ ax); by rewrite ?Hpa.
      - apply check_merge_raises in Hcm as ->. by exists MsgMergeUnknown. }
    exists m. split; [|done]. unfold rearrange.
    rewrite (rearrange_compile_raise _ _ _ (Error m)); [done|].
    by eapply compile_checks_raise. }
  split; [exact Hgen|].
  intros A [sh dat] H Hlen Hc. simpl in Hlen.
  destruct sh as [|d0 [|d1 [|]]]; try done.
  apply (Hgen A _ _ H ["a"; "b"] ["a"; "c"]
           (merge_hints (<["b" := Z.of_nat d1]> (<["a" := Z.of_nat d0]> ∅)) H)
           "c" "c" None); try done.
  - set_solver.
  - by rewrite merge_hints_lookup, Hc.
Qed.

Lemma C8_unknown_output_axis_witness :
  fails_with (rearrange (arange [3; 4]) "a b -> a c" ∅) UnknownAxisError.
Proof.
  apply (proj2 C8_unknown_output_axis nat (arange [3; 4]) ∅); reflexivity.
Defined.

(** ** Hints that do not match the dimension *)

(** C2, at the failing input: every member of the group is hinted, the
    product 2*3 of the hints divides the dimension 12 without being equal
    to it, and the shape resolver accepts the hints; the mismatch surfaces
    only as the [ValueError] of numpy's reshape. *)
Theorem C2_hinted_mismatch_accepted :
  validate_shapes (arange [12]) ["(a b)"] ["a"; "b"]
    (hints [("a", 2%Z); ("b", 3%Z)])
  = Ok (hints [("a", 2%Z); ("b", 3%Z)])
  ∧ rearrange_run (arange [12]) "(a b) -> a b" (hints [("a", 2%Z); ("b", 3%Z)])
    = ([PReshape [2%Z; 3%Z]], Raise NumpyValueError).
Proof. split; vm_compute; reflexivity. Qed.

(** A product of hints that does not divide the dimension is rejected by
    the resolver. *)
Example inexact_split_rejected :
  rearrange_run (arange [12]) "(a b) -> a b" (hints [("a", 5%Z)])
  = ([], Raise (Error MsgCannotSplit)).
Proof. vm_compute. reflexivity. Qed.

(** ** Broadcast through a singleton *)

(** C9.  For every array of shape (3,1,5) the call with the pattern
    "a 1 c -> a b c" and the hint b=4 ends with a [broadcast_to] and
    returns an array of shape (3,4,5) whose element at (i, j, k) is the
    element (i, 0, k) of the input: the dimension of size 1 is repeated
    four times. *)
Theorem C9_broadcast_singleton (A : Type) (dat : list A) :
  length dat = 15 →
  ∃ r, rearrange_run (mk_ndarray [3; 1; 5] dat) "a 1 c -> a b c"
         (hints [("b", 4%Z)])
       = ([PTranspose [0%Z; 1%Z; 2%Z]; PBroadcastTo [3%Z; 4%Z; 5%Z]], Ok r)
       ∧ shape r = [3; 4; 5]
       ∧ length (data r) = 60
       ∧ ∀ i j k, i < 3 → j < 4 → k < 5 →
           data r !! (i * 20 + j * 5 + k) = dat !! (i * 5 + k).
Proof.
  intros Hlen.
  do 15 (destruct dat as [|? dat]; [done|]). destruct dat; [|done].
  eexists. split; [vm_compute; reflexivity|].
  split; [reflexivity|]. split; [reflexivity|].
  intros i j k Hi Hj Hk.
  destruct i as [|[|[|]]]; [| | |lia];
    (destruct j as [|[|[|[|]]]]; [| | | |lia]);
    (destruct k as [|[|[|[|[|]]]]]; [| | | | |lia]); reflexivity.
Qed.

Lemma C9_broadcast_singleton_witness :
  ∃ r, rearrange_run (arange [3; 1; 5]) "a 1 c -> a b c" (hints [("b", 4%Z)])
       = ([PTranspose [0%Z; 1%Z; 2%Z]; PBroadcastTo [3%Z; 4%Z; 5%Z]], Ok r)
       ∧ shape r = [3; 4; 5]
       ∧ length (data r) = 60
       ∧ ∀ i j k, i < 3 → j < 4 → k < 5 →
           data r !! (i * 20 + j * 5 + k) = seq 0 15 !! (i * 5 + k).
Proof. apply (C9_broadcast_singleton nat (seq 0 15)). reflexivity. Defined.

(** ** Exceptions of the two phases *)

Lemma py_index_raises {X : Type} (l : list X) i e :
  py_index l i = Raise e → e = IndexError.
Proof. unfold py_index. by repeat case_match; intros [= <-]. Qed.

Lemma dict_get_raises {V : Type} (d : gmap string V) k e :
  dict_get d k = Raise e → e = KeyError.
Proof. unfold dict_get. by case_match; intros [= <-]. Qed.

Lemma mapR_raises {X Y : Type} (Q : exn → Prop) (f : X → result Y) l e :
  (∀ x e, f x = Raise e → Q e) → mapR f l = Raise e → Q e.
Proof.
  intros Hf. induction l as [|x l IH]; simpl; [done|].
  intros [Hx|(y & _ & [Hl|(ys & _ & ?)]%bind_Raise_inv)]%bind_Raise_inv;
    [by eapply Hf|by apply IH|done].
Qed.


Lemma parser_compile_exn pattern e : parser pattern = Raise e → compile_exn e.
Proof. by intros [-> | ->]%parser_raises. Qed.

Lemma check_rank_compile_exn a b c d f e :
  check_rank a b c d f = Raise e → compile_exn e.
Proof. unfold check_rank. by repeat case_match; intros [= <-]. Qed.

Lemma validate_step_compile_exn shape (H : gmap string Z) n st axis e :
  validate_step shape H n st axis = Raise e → compile_exn e.
Proof.
  destruct st as [sd idx]. destruct (decide (axis = "...")) as [->|Hne].
  - rewrite validate_step_ellipsis. apply foldM_raises.
    intros [sd' idx'] i e' _ [Hi|(d & _ & ?)]%bind_Raise_inv; [|done].
    by apply py_index_raises in Hi as ->.
  - rewrite validate_step_token by done.
    intros [Hi|(d & _ & Hr)]%bind_Raise_inv.
    + by apply py_index_raises in Hi as ->.
    + destruct (truthy _); [|done].
      apply bind_Raise_inv in Hr as [Hr|(? & _ & ?)]; [|done].
      by apply resolve_split_raises in Hr as (m & -> & _).
Qed.

Lemma validate_shapes_compile_exn {A : Type} (tensor : ndarray A) ins outs H e :
  validate_shapes tensor ins outs H = Raise e → compile_exn e.
Proof.
  unfold validate_shapes, input_walk.
  intros [Hw|([sd idx] & _ & ?)]%bind_Raise_inv; [|done].
  revert Hw. apply foldM_raises. intros st ax e' _.
  apply validate_step_compile_exn.
Qed.

Lemma axis_map_step_compile_exn cs sd n st axis e :
  axis_map_step cs sd n st axis = Raise e → compile_exn e.
Proof.
  destruct st as [[ops am] pos]. unfold axis_map_step.
  case_bool_decide; [done|]. destruct (parse_axis axis) as [name comps].
  destruct (truthy comps).
  - intros [Hm|(? & _ & ?)]%bind_Raise_inv; [|done].
    revert Hm. apply mapR_raises. by intros ? ? ->%dict_get_raises.
  - intros [Hi|(? & _ & ?)]%bind_Raise_inv; [|done].
    case_bool_decide; [|done].
    apply bind_Raise_inv in Hi as [Hi|(? & _ & ?)]; [|done].
    by apply py_index_raises in Hi as ->.
Qed.

Lemma singleton_pos_compile_exn ins cs e :
  singleton_pos ins cs = Raise e → compile_exn e.
Proof.
  unfold singleton_pos. intros [Hf|(l & _ & Hi)]%bind_Raise_inv.
  - revert Hf. apply foldM_raises. intros acc [i ax] e' _.
    case_bool_decide; [|done].
    intros [Hi|(? & _ & ?)]%bind_Raise_inv; [|done].
    by apply py_index_raises in Hi as ->.
  - by apply py_index_raises in Hi as ->.
Qed.

Lemma output_step_compile_exn ins cs sd am H n st axis e :
  output_step ins cs sd am H n st axis = Raise e → compile_exn e.
Proof.
  destruct st as [fs pm]. unfold output_step.
  destruct (parse_axis axis) as [name comps].
  case_bool_decide.
  { apply foldM_raises. intros [fs' pm'] i e' _.
    intros [Hd|(d & _ & [Hp|(p & _ & ?)]%bind_Raise_inv)]%bind_Raise_inv;
      [by apply dict_get_raises in Hd as ->
      |by apply dict_get_raises in Hp as ->|done]. }
  destruct (truthy comps).
  { intros [Hm|(? & _ & [Hm|(? & _ & ?)]%bind_Raise_inv)]%bind_Raise_inv;
      [| |done]; revert Hm; apply mapR_raises; by intros ? ? ->%dict_get_raises. }
  case_match.
  - intros [Hd|(d & _ & [Hp|(p & _ & ?)]%bind_Raise_inv)]%bind_Raise_inv;
      [by apply dict_get_raises in Hd as ->
      |by apply singleton_pos_compile_exn in Hp|done].
  - intros [Hd|(d & _ & [Hp|(p & _ & ?)]%bind_Raise_inv)]%bind_Raise_inv;
      [by apply dict_get_raises in Hd as ->
      |by apply dict_get_raises in Hp as ->|done].
Qed.

Lemma compile_raises {A : Type} (tensor : ndarray A) pattern H e :
  compile tensor pattern H = Raise e → compile_exn e.
Proof.
  unfold compile.
  intros [Hp|([ins outs] & _ & H1)]%bind_Raise_inv;
    [by apply parser_compile_exn in Hp|].
  apply bind_Raise_inv in H1 as [Hr|([] & _ & H1)];
    [by apply check_rank_compile_exn in Hr|].
  apply bind_Raise_inv in H1 as [Hv|(sd & _ & H1)];
    [by apply validate_shapes_compile_exn in Hv|].
  apply bind_Raise_inv in H1 as [Hm|([] & _ & H1)];
    [by apply check_merge_raises in Hm as ->|].
  apply bind_Raise_inv in H1 as [Ho|([] & _ & H1)];
    [by apply check_output_raises in Ho as ->|].
  apply bind_Raise_inv in H1 as [Ha|([[ops am] last] & _ & H1)].
  { revert Ha. apply foldM_raises. intros st ax e' _.
    apply axis_map_step_compile_exn. }
  apply bind_Raise_inv in H1 as [Hf|([fs pm] & _ & H1)]; [|done].
  revert Hf. apply foldM_raises. intros st ax e' _.
  apply output_step_compile_exn.
Qed.

Lemma np_reshape_raises {A : Type} (a : ndarray A) newshape e :
  np_reshape a newshape = Raise e → e = NumpyValueError.
Proof. unfold np_reshape. by repeat case_match; intros [= <-]. Qed.

Lemma np_transpose_raises {A : Type} (a : ndarray A) axes e :
  np_transpose a axes = Raise e → e = NumpyValueError.
Proof.
  unfold np_transpose. case_match; [by intros [= <-]|].
  intros [Hm|(axes' & _ & Hn)]%bind_Raise_inv.
  - revert Hm. apply (mapR_raises (λ e, e = NumpyValueError)).
    intros x e'. unfold normalize_axis. by case_match; intros [= <-].
  - revert Hn. by case_match; intros [= <-].
Qed.

Lemma np_broadcast_to_raises {A : Type} (a : ndarray A) target e :
  np_broadcast_to a target = Raise e → e = NumpyValueError.
Proof. unfold np_broadcast_to. by repeat case_match; intros [= <-]. Qed.

(** After the output loop has completed, the target of the broadcast is
    computed without a [KeyError]. *)
Lemma ellipsis_slots_resolved (sd am : gmap string Z) l st st' :
  foldM (λ '(fs, pm) i,
           d ← dict_get sd (ellipsis_name i);
           p ← dict_get am (ellipsis_name i);
           Ok (fs ++ [d], pm ++ [p])) st l = Ok st' →
  ∃ ds, mapR (λ i, dict_get sd (ellipsis_name i)) l = Ok ds.
Proof.
  revert st. induction l as [|i l IH]; intros [fs pm]; simpl; [by eauto|].
  intros (st1 & Hs & Hl)%bind_Ok_inv.
  apply bind_Ok_inv in Hs as (d & Hd & _).
  destruct (IH _ Hl) as (ds & Hds). exists (d :: ds).
  by rewrite Hd, bind_Ok, Hds.
Qed.

Lemma broadcast_step_ellipsis (sd H : gmap string Z) n bs :
  broadcast_step sd H n bs "..."
  = (ds ← mapR (λ i, dict_get sd (ellipsis_name i)) (range n); Ok (bs ++ ds)).
Proof. done. Qed.

Lemma broadcast_step_plain (sd H : gmap string Z) n bs ax :
  ax ≠ "..." → has_parens ax = false →
  broadcast_step sd H n bs ax
  = Ok (bs ++ [default (default 1%Z (H !! ax)) (sd !! ax)]).
Proof.
  intros Hne Hp. unfold broadcast_step. rewrite bool_decide_false by done.
  by rewrite (parse_axis_no_parens _ Hp).
Qed.

Lemma broadcast_shape_no_raise ins cs sd am H n outs st st' bs0 :
  existsb has_parens outs = false →
  foldM (output_step ins cs sd am H n) st outs = Ok st' →
  ∃ bs, foldM (broadcast_step sd H n) bs0 outs = Ok bs.
Proof.
  revert st bs0. induction outs as [|ax outs IH]; intros st bs0; [by eauto|].
  cbn [existsb foldM]. intros [Hax Houts]%orb_false_iff.
  intros (st1 & Hs & Hl)%bind_Ok_inv.
  destruct (decide (ax = "...")) as [->|Hne].
  - rewrite broadcast_step_ellipsis.
    destruct st as [fs pm]. unfold output_step in Hs.
    rewrite parse_axis_ellipsis, bool_decide_true in Hs by done.
    apply ellipsis_slots_resolved in Hs as (ds & ->). rewrite !bind_Ok.
    by eapply IH.
  - rewrite broadcast_step_plain, bind_Ok by done. by eapply IH.
Qed.

(** ** Traces *)

Lemma apply_ops_trace {A : Type} ops (a : ndarray A) cs tr tr' res :
  apply_ops ops a cs tr = (tr', res) →
  match res with
  | Ok _ => ∃ suffix, tr' = tr ++ suffix
  | Raise e => e = NumpyValueError ∧ ∃ suffix p, tr' = tr ++ suffix ++ [p]
  end.
Proof.
  revert a cs tr. induction ops as [|[axis sh] ops IH]; intros a cs tr; simpl.
  - intros [= <- <-]. exists []. by rewrite app_nil_r.
  - unfold bbind, bcall.
    destruct (np_reshape a _) as [a'|e] eqn:Hr.
    + intros Hrest. apply IH in Hrest. destruct res as [x|e].
      * destruct Hrest as (suffix & ->). eexists. by rewrite <-app_assoc.
      * destruct Hrest as (-> & suffix & p & ->). split; [done|].
        exists (PReshape (py_take cs axis ++ sh ++ py_drop cs (axis + 1)) :: suffix), p.
        by rewrite <-!app_assoc.
    + intros [= <- <-]. apply np_reshape_raises in Hr as ->.
      split; [done|]. by exists [], (PReshape (py_take cs axis ++ sh ++ py_drop cs (axis + 1))).
Qed.

Lemma transpose_step_trace {A : Type} pm (a : ndarray A) tr tr' res :
  transpose_step pm a tr = (tr', res) →
  match res with
  | Ok _ => ∃ suffix, tr' = tr ++ suffix
  | Raise e => e = NumpyValueError ∧ ∃ p, tr' = tr ++ [p]
  end.
Proof.
  unfold transpose_step, bpure, bcall. destruct pm as [|p0 pm].
  - intros [= <- <-]. exists []. by rewrite app_nil_r.
  - intros [= <- <-]. destruct (np_transpose a (p0 :: pm)) as [a'|e] eqn:Ht.
    + by eexists.
    + apply np_transpose_raises in Ht as ->. split; [done|]. by eexists.
Qed.

Lemma terminal_step_raises {A : Type} p H (a : ndarray A) cs tr tr' e :
  (has_merge p = false →
   ∃ bs, broadcast_shape_of (output_axes p) (shape_dict p) H (n_ellipsis p)
         = Ok bs) →
  terminal_step p H a cs tr = (tr', Raise e) →
  e = NumpyValueError ∧ ∃ q, tr' = tr ++ [q].
Proof.
  intros Hbs. unfold terminal_step, bpure, bcall, bbind, blift.
  destruct (final_shape p) as [|f0 fs]; [done|].
  destruct (existsb _ cs && negb (has_split p) && negb (has_merge p)) eqn:Hc.
  - destruct Hbs as (bs & ->).
    { apply andb_true_iff in Hc as [_ Hm]. by apply negb_true_iff in Hm. }
    intros [= <- He]. apply np_broadcast_to_raises in He as ->.
    split; [done|]. by eexists.
  - intros [= <- He]. apply np_reshape_raises in He as ->.
    split; [done|]. by eexists.
Qed.

(** An exception of the executing part is numpy's, raised by the last
    primitive of the trace. *)
Lemma execute_raises {A : Type} (tensor : ndarray A) H p tr tr' e :
  (has_merge p = false →
   ∃ bs, broadcast_shape_of (output_axes p) (shape_dict p) H (n_ellipsis p)
         = Ok bs) →
  execute tensor H p tr = (tr', Raise e) →
  e = NumpyValueError ∧ ∃ suffix q, tr' = tr ++ suffix ++ [q].
Proof.
  intros Hbs. unfold execute, bbind at 1.
  destruct (apply_ops (ops p) tensor (current_shape p) tr) as [tr1 res1] eqn:Hops.
  apply apply_ops_trace in Hops. destruct res1 as [[a cs]|e1].
  2: { intros [= <- <-]. done. }
  destruct Hops as (s1 & ->). unfold bbind.
  destruct (transpose_step (permutation p) a (tr ++ s1)) as [tr2 res2] eqn:Htr.
  apply transpose_step_trace in Htr. destruct res2 as [a'|e2].
  - destruct Htr as (s2 & ->).
    intros (-> & q & ->)%terminal_step_raises; [|done].
    split; [done|]. exists (s1 ++ s2), q. by rewrite <-!app_assoc.
  - destruct Htr as (-> & q & ->). intros [= <- <-].
    split; [done|]. exists s1, q. by rewrite <-!app_assoc.
Qed.

(** C1 (as the code has it).  A call that raises anything but the
    [ValueError] of a numpy primitive raises it before the first primitive
    is called: the errors of the library's own class, and the index, key
    and unpacking errors of the interpreter, belong to the compiling part.
    The remaining failures are raised by a primitive itself, after the
    primitives before it in the trace have run. *)
Theorem C1_errors_before_backend {A : Type} (tensor : ndarray A) pattern H tr e :
  rearrange_run tensor pattern H = (tr, Raise e) →
  (e ≠ NumpyValueError → tr = [])
  ∧ (e = NumpyValueError → ∃ before failing, tr = before ++ [failing]).
Proof.
  unfold rearrange_run.
  destruct (compile tensor pattern H) as [p|e0] eqn:Hc.
  - intros Hex.
    cut (e = NumpyValueError ∧ ∃ suffix q, tr = [] ++ suffix ++ [q]).
    { intros (-> & suffix & q & ->). split; [done|]. intros _. by exists suffix, q. }
    eapply execute_raises; [|done].
    apply compile_Ok_inv in Hc
      as (ins & outs & sd & ops & am & last & fs & pm
          & _ & _ & _ & _ & _ & _ & Hout & ->).
    simpl. intros Hm. by eapply broadcast_shape_no_raise.
  - intros [= <- <-]. split; [done|]. intros ->. by apply compile_raises in Hc.
Qed.

(** C1, the claim as stated fails: the split reshape of this call has run
    when the transpose raises, because the output side drops two of the
    three axes. *)
Lemma C1_error_after_reshape :
  rearrange_run (arange [4; 3]) "(a b) c -> a" (hints [("a", 2%Z)])
  = ([PReshape [2%Z; 2%Z; 3%Z]; PTranspose [0%Z]], Raise NumpyValueError)
  ∧ np_reshape (arange [4; 3]) [2%Z; 2%Z; 3%Z] = Ok (arange [2; 2; 3]).
Proof. split; vm_compute; reflexivity. Qed.

Lemma C1_errors_before_backend_witness :
  (Error MsgUnknownAxis ≠ NumpyValueError → @nil prim = [])
  ∧ (Error MsgUnknownAxis = NumpyValueError →
     ∃ before failing, @nil prim = before ++ [failing]).
Proof.
  apply (C1_errors_before_backend (arange [3; 4]) "a b -> a c" ∅).
  vm_compute. reflexivity.
Defined.


(** ** Names bound by the input side *)

Lemma foldM_ext_elem {S X : Type} (f g : S → X → result S) (s : S) (l : list X) :
  (∀ s x, x ∈ l → f s x = g s x) → foldM f s l = foldM g s l.
Proof.
  revert s. induction l as [|x l IH]; intros s Hfg; [done|].
  cbn [foldM]. rewrite (Hfg s x) by by left.
  destruct (g s x) as [s'|e]; [|done]. rewrite !bind_Ok.
  apply IH. intros ???; apply Hfg. by right.
Qed.

Lemma foldl_insert_is_Some {X : Type} (key : X → string) (val : X → Z)
    (l : list X) (m : gmap string Z) k :
  is_Some (m !! k) →
  is_Some (foldl (λ acc x, <[key x := val x]> acc) m l !! k).
Proof.
  revert m. induction l as [|x l IH]; intros m Hk; [done|].
  simpl. apply IH. destruct (decide (key x = k)) as [<-|Hne].
  - by rewrite lookup_insert_eq.
  - by rewrite lookup_insert_ne.
Qed.

Lemma resolve_split_mono (H : gmap string Z) comps d sd sd' k :
  resolve_split H comps d sd = Ok sd' → is_Some (sd !! k) → is_Some (sd' !! k).
Proof.
  unfold resolve_split. repeat case_match; try done. intros [= <-].
  apply (foldl_insert_is_Some (λ c, c)
           (λ c, default _ (known_sizes_of H comps !! c))).
Qed.

Lemma validate_step_mono shape (H : gmap string Z) n sd idx ax sd' idx' k :
  validate_step shape H n (sd, idx) ax = Ok (sd', idx') →
  is_Some (sd !! k) → is_Some (sd' !! k).
Proof.
  destruct (decide (ax = "...")) as [->|Hne].
  - rewrite validate_step_ellipsis. intros Hf Hk.
    apply (foldM_invariant (λ st, is_Some (st.1 !! k)) _ _ _ _) in Hf; try done.
    intros [s i] x [s' i'] _ Hs (d & _ & [= <- <-])%bind_Ok_inv. simpl in *.
    destruct (decide (ellipsis_name x = k)) as [<-|?].
    + by rewrite lookup_insert_eq.
    + by rewrite lookup_insert_ne.
  - rewrite validate_step_token by done.
    intros (d & _ & Hr)%bind_Ok_inv Hk. destruct (truthy _).
    + apply bind_Ok_inv in Hr as (sd1 & Hr & [= <- <-]).
      by eapply resolve_split_mono.
    + injection Hr as <- <-.
      destruct (decide ((parse_axis ax).1 = k)) as [<-|?].
      * by rewrite lookup_insert_eq.
      * by rewrite lookup_insert_ne.
Qed.

Lemma validate_loop_mono shape (H : gmap string Z) n l sd idx sd' idx' k :
  foldM (validate_step shape H n) (sd, idx) l = Ok (sd', idx') →
  is_Some (sd !! k) → is_Some (sd' !! k).
Proof.
  intros Hf Hk.
  apply (foldM_invariant (λ st, is_Some (st.1 !! k)) _ _ _ _) in Hf; try done.
  intros [s i] x [s' i'] _ Hs Hstep. simpl in *. by eapply validate_step_mono.
Qed.


Lemma assign_positions_is_Some (l : list string) pos (am : gmap string Z) k :
  is_Some (am !! k) → is_Some (assign_positions l pos am !! k).
Proof.
  unfold assign_positions. generalize (imap pair l). intros jl. revert am.
  induction jl as [|[j x] jl IH]; intros am Hk; [done|].
  simpl. apply IH. destruct (decide (x = k)) as [<-|Hne].
  - by rewrite lookup_insert_eq.
  - by rewrite lookup_insert_ne.
Qed.



(** ** Hints for names of the input side *)

Section hint_irrelevant.
Context (name : string) (H1 H0 : gmap string Z).
Hypothesis agree : ∀ k, k ≠ name → H1 !! k = H0 !! k.










End hint_irrelevant.



(** ** Products of dimensions *)

Lemma prodZ_app (l1 l2 : list Z) : prodZ (l1 ++ l2) = (prodZ l1 * prodZ l2)%Z.
Proof.
  unfold prodZ. induction l1 as [|d l1 IH]; simpl; [lia|]. rewrite IH. lia.
Qed.

Lemma prodn_app (l1 l2 : list nat) : prodn (l1 ++ l2) = prodn l1 * prodn l2.
Proof.
  unfold prodn. induction l1 as [|d l1 IH]; simpl; [lia|]. rewrite IH. lia.
Qed.

Lemma prodZ_cons (d : Z) (l : list Z) : prodZ (d :: l) = (d * prodZ l)%Z.
Proof. done. Qed.

Lemma prodn_cons (d : nat) (l : list nat) : prodn (d :: l) = d * prodn l.
Proof. done. Qed.

Lemma prodZ_of_nat (l : list nat) : prodZ (Z.of_nat <$> l) = Z.of_nat (prodn l).
Proof.
  induction l as [|d l IH]; [done|].
  rewrite fmap_cons, prodZ_cons, prodn_cons, IH. lia.
Qed.

Lemma prodn_to_nat (l : list Z) :
  Forall (λ d, 0 ≤ d)%Z l → Z.of_nat (prodn (Z.to_nat <$> l)) = prodZ l.
Proof.
  induction 1 as [|d l Hd Hl IH]; [done|].
  rewrite fmap_cons, prodZ_cons, prodn_cons, Nat2Z.inj_mul, IH. lia.
Qed.

Lemma prodZ_nonneg (l : list Z) : Forall (λ d, 0 ≤ d)%Z l → (0 ≤ prodZ l)%Z.
Proof.
  induction 1 as [|d l Hd Hl IH]; [done|]. rewrite prodZ_cons. lia.
Qed.

Lemma prodZ_pos (l : list Z) : Forall (λ d, 0 < d)%Z l → (0 < prodZ l)%Z.
Proof.
  induction 1 as [|d l Hd Hl IH]; [done|]. rewrite prodZ_cons. lia.
Qed.

Lemma prodZ_Permutation (l1 l2 : list Z) : l1 ≡ₚ l2 → prodZ l1 = prodZ l2.
Proof.
  induction 1; rewrite ?prodZ_cons; lia || congruence.
Qed.

Lemma prodn_Permutation (l1 l2 : list nat) : l1 ≡ₚ l2 → prodn l1 = prodn l2.
Proof.
  induction 1; rewrite ?prodn_cons; lia || congruence.
Qed.

(** ** [reshape] *)

Lemma known_size_acc (dims : list Z) (s : option Z) (k : Z) :
  foldl (λ acc d,
           s ← acc;
           if (d <? 0)%Z then Some s
           else if (s * d <? 2 ^ 63)%Z then Some (s * d)%Z else None)
        s dims = Some k →
  ∃ s0, s = Some s0 ∧ k = (s0 * prodZ (filter (λ d, 0 ≤ d)%Z dims))%Z.
Proof.
  revert s. induction dims as [|d dims IH]; intros s; simpl.
  - intros ->. exists k. split; [done|]. unfold prodZ. simpl. lia.
  - intros (s1 & Hs1 & ->)%IH. destruct s as [s0|]; [|done]. simpl in Hs1.
    exists s0. split; [done|].
    rewrite filter_cons. destruct (d <? 0)%Z eqn:Hd.
    + injection Hs1 as <-. rewrite decide_False by lia. done.
    + destruct (s0 * d <? 2 ^ 63)%Z; [|done]. injection Hs1 as <-.
      rewrite decide_True by lia. rewrite prodZ_cons. lia.
Qed.

Lemma known_size_Some (dims : list Z) (k : Z) :
  known_size dims = Some k → k = prodZ (filter (λ d, 0 ≤ d)%Z dims).
Proof.
  unfold known_size. intros (s0 & [= <-] & ->)%known_size_acc. lia.
Qed.

Lemma filter_neg_nil (l : list Z) :
  filter (λ d, (d < 0)%Z) l = [] → Forall (λ d, 0 ≤ d)%Z l.
Proof.
  induction l as [|d l IH]; [done|]. rewrite filter_cons.
  case_decide; [done|]. intros Hl. constructor; [lia|auto].
Qed.

Lemma filter_nonneg_id (l : list Z) :
  Forall (λ d, 0 ≤ d)%Z l → filter (λ d, 0 ≤ d)%Z l = l.
Proof.
  induction 1 as [|d l Hd Hl IH]; [done|].
  by rewrite filter_cons, decide_True, IH.
Qed.

Lemma filter_neg_singleton (l : list Z) (d : Z) :
  filter (λ d, (d < 0)%Z) l = [d] →
  ∃ l1 l2, l = l1 ++ d :: l2 ∧ (d < 0)%Z
           ∧ Forall (λ d, 0 ≤ d)%Z l1 ∧ Forall (λ d, 0 ≤ d)%Z l2.
Proof.
  induction l as [|x l IH]; [done|]. rewrite filter_cons. case_decide as Hx.
  - intros [= -> Hl]. exists [], l. split_and!; try done.
    by apply filter_neg_nil.
  - intros (l1 & l2 & -> & Hd & H1 & H2)%IH. exists (x :: l1), l2.
    split_and!; try done. constructor; [lia|done].
Qed.

Lemma np_reshape_Ok_inv {A : Type} (a a' : ndarray A) (newshape : list Z) :
  np_reshape a newshape = Ok a' →
  data a' = data a ∧ size a' = size a
  ∧ (Forall (λ d, 0 ≤ d)%Z newshape → shape a' = Z.to_nat <$> newshape).
Proof.
  unfold np_reshape.
  destruct (filter (λ d, (d < 0)%Z) newshape) as [|d [|]] eqn:Hneg; [| |done].
  - destruct (known_size newshape) as [known|] eqn:Hk; [|done].
    destruct (known =? Z.of_nat (size a))%Z eqn:Hkt; [|done].
    intros [= <-]. simpl. split_and!; [done| |done].
    apply filter_neg_nil in Hneg. apply known_size_Some in Hk.
    rewrite filter_nonneg_id in Hk by done.
    unfold size at 1. simpl. apply Nat2Z.inj. rewrite prodn_to_nat by done. lia.
  - destruct (known_size newshape) as [known|] eqn:Hk; [|done].
    destruct ((known =? 0)%Z || negb (Z.of_nat (size a) mod known =? 0)%Z)
      eqn:Hc; [done|].
    apply orb_false_iff in Hc as [Hk0 Hmod].
    apply negb_false_iff in Hmod.
    intros [= <-]. simpl.
    apply filter_neg_singleton in Hneg as (l1 & l2 & -> & Hd & H1 & H2).
    split_and!; [done| |].
    + apply known_size_Some in Hk.
      rewrite filter_app, filter_cons, decide_False in Hk by lia.
      rewrite !filter_nonneg_id, prodZ_app in Hk by done.
      unfold size at 1. simpl. apply Nat2Z.inj.
      rewrite fmap_app, fmap_cons, prodn_app, prodn_cons.
      rewrite (proj2 (Z.ltb_lt d 0) Hd).
      assert (Forall (λ x, (if (x <? 0)%Z then Z.of_nat (size a) / known else x)
                           = x)%Z l1) as E1.
      { eapply Forall_impl; [exact H1|]. intros x Hx. simpl.
        by rewrite (proj2 (Z.ltb_ge x 0) Hx). }
      assert (Forall (λ x, (if (x <? 0)%Z then Z.of_nat (size a) / known else x)
                           = x)%Z l2) as E2.
      { eapply Forall_impl; [exact H2|]. intros x Hx. simpl.
        by rewrite (proj2 (Z.ltb_ge x 0) Hx). }
      assert (∀ l, Forall (λ x, (if (x <? 0)%Z then Z.of_nat (size a) / known
                                 else x) = x)%Z l →
                   Forall (λ d, 0 ≤ d)%Z l →
                   Z.of_nat (prodn ((λ d0, Z.to_nat (if (d0 <? 0)%Z
                                                     then Z.of_nat (size a) / known
                                                     else d0)) <$> l))
                   = prodZ l) as Hmap.
      { intros l El Hl. rewrite <-prodn_to_nat by done. do 2 f_equal.
        apply Forall_fmap_ext_1. eapply Forall_impl; [exact El|].
        intros x Hx. simpl in *. by rewrite Hx. }
      rewrite !Nat2Z.inj_mul, !Hmap by done.
      assert (0 ≤ prodZ l1)%Z by by apply prodZ_nonneg.
      assert (0 ≤ prodZ l2)%Z by by apply prodZ_nonneg.
      assert (0 < known)%Z by lia.
      rewrite Z2Nat.id by (apply Z.div_pos; lia).
      assert (Z.of_nat (size a) = known * (Z.of_nat (size a) / known))%Z
        by (apply Z.div_exact; lia).
      nia.
    + intros Hall. apply Forall_app in Hall as [_ Hall].
      apply Forall_cons in Hall as [? _]. lia.
Qed.

(** ** [transpose] *)

Lemma normalize_axis_Ok ndim ax i :
  normalize_axis ndim ax = Ok i →
  i < ndim ∧ ((0 ≤ ax)%Z → ax = Z.of_nat i).
Proof.
  unfold normalize_axis. case_match eqn:Hc; [|done]. intros [= <-].
  apply andb_true_iff in Hc as [H1 H2].
  apply Z.leb_le in H1. apply Z.ltb_lt in H2.
  destruct (ax <? 0)%Z eqn:Hneg.
  - apply Z.ltb_lt in Hneg. split; lia.
  - apply Z.ltb_ge in Hneg. split; lia.
Qed.

Lemma normalize_axis_nat ndim i :
  i < ndim → normalize_axis ndim (Z.of_nat i) = Ok i.
Proof.
  intros Hi. unfold normalize_axis.
  rewrite (proj2 (andb_true_iff _ _)) by (split; [apply Z.leb_le|apply Z.ltb_lt]; lia).
  by rewrite Z_of_nat_ltb_0, Nat2Z.id.
Qed.

Lemma mapR_Ok_Forall2 {X Y : Type} (f : X → result Y) (l : list X) (ys : list Y) :
  mapR f l = Ok ys ↔ Forall2 (λ x y, f x = Ok y) l ys.
Proof.
  revert ys. induction l as [|x l IH]; intros ys; simpl.
  - split; [intros [= <-]; constructor|by inversion 1].
  - split.
    + intros (y & Hy & (ys' & Hys & [= <-])%bind_Ok_inv)%bind_Ok_inv.
      constructor; [done|by apply IH].
    + inversion 1 as [|? y ? ys' Hy Hys]; subst.
      apply IH in Hys. by rewrite Hy, bind_Ok, Hys.
Qed.

Lemma range_Permutation (l : list nat) (n : nat) :
  NoDup l → length l = n → Forall (λ i, i < n) l → l ≡ₚ seq 0 n.
Proof.
  intros Hnd Hlen Hlt. apply submseteq_length_Permutation.
  - apply NoDup_submseteq; [done|]. intros i Hi.
    apply elem_of_seq. rewrite Forall_forall in Hlt. specialize (Hlt i Hi). lia.
  - by rewrite length_seq, Hlen.
Qed.

Lemma fmap_lookup_seq_default (l : list nat) :
  take_axes l (seq 0 (length l)) = l.
Proof.
  unfold take_axes. apply list_eq. intros i. rewrite list_lookup_fmap.
  destruct (decide (i < length l)) as [Hi|Hi].
  - rewrite lookup_seq_lt by done. simpl.
    destruct (lookup_lt_is_Some_2 l i Hi) as [x ->]. done.
  - rewrite lookup_seq_ge by lia. simpl. symmetry. apply lookup_ge_None. lia.
Qed.

Lemma np_transpose_Ok_inv {A : Type} (a a' : ndarray A) (axes : list Z) :
  np_transpose a axes = Ok a' →
  ∃ axes',
    Forall2 (λ ax i, normalize_axis (length (shape a)) ax = Ok i) axes axes'
    ∧ axes' ≡ₚ seq 0 (length (shape a))
    ∧ NoDup axes'
    ∧ shape a' = take_axes (shape a) axes'
    ∧ data a' = gather (data a) (shape a') (take_axes (strides (shape a)) axes')
    ∧ size a' = size a.
Proof.
  unfold np_transpose.
  destruct (length axes =? length (shape a)) eqn:Hlen; [|done].
  apply Nat.eqb_eq in Hlen. simpl.
  intros (axes' & Hn & Hr)%bind_Ok_inv.
  destruct (bool_decide (NoDup axes')) eqn:Hnd; [|done].
  apply bool_decide_eq_true in Hnd. injection Hr as <-. simpl.
  apply mapR_Ok_Forall2 in Hn.
  assert (axes' ≡ₚ seq 0 (length (shape a))) as Hperm.
  { apply range_Permutation; [done| |].
    - by rewrite <-(Forall2_length _ _ _ Hn).
    - clear -Hn. induction Hn as [|ax i axes axes' Hi _ IH]; constructor; [|done].
      by apply normalize_axis_Ok in Hi as [? _]. }
  exists axes'. split_and!; try done.
  unfold size. simpl. rewrite (prodn_Permutation _ (shape a)); [done|].
  rewrite <-(fmap_lookup_seq_default (shape a)) at 2. unfold take_axes.
  by rewrite Hperm.
Qed.

(** ** [broadcast_to] *)

Lemma existsb_neg_false (l : list Z) :
  existsb (λ d, (d <? 0)%Z) l = false → Forall (λ d, 0 ≤ d)%Z l.
Proof.
  induction l as [|d l IH]; simpl; [by constructor|].
  intros [Hd Hl]%orb_false_iff. constructor; [|auto].
  by apply Z.ltb_ge in Hd.
Qed.

Lemma forallb_zip_Forall2 (s t : list nat) :
  length s = length t →
  forallb (λ '(s, t), (s =? t) || (s =? 1)) (zip s t) = true →
  Forall2 (λ s t, s = t ∨ s = 1) s t.
Proof.
  revert t. induction s as [|x s IH]; intros [|y t] Hlen; try done; simpl.
  intros [Hxy Hrest]%andb_true_iff. constructor.
  - apply orb_true_iff in Hxy as [?%Nat.eqb_eq|?%Nat.eqb_eq]; auto.
  - apply IH; [by injection Hlen|done].
Qed.

Lemma np_broadcast_to_Ok_inv {A : Type} (a r : ndarray A) (target : list Z) :
  np_broadcast_to a target = Ok r →
  length target = length (shape a) →
  Forall (λ d, 0 ≤ d)%Z target
  ∧ shape r = Z.to_nat <$> target
  ∧ Forall2 (λ s t, s = t ∨ s = 1) (shape a) (Z.to_nat <$> target)
  ∧ data r
    = gather (data a) (Z.to_nat <$> target)
        (zip_with (λ s k, if s =? 1 then 0 else k) (shape a) (strides (shape a))).
Proof.
  unfold np_broadcast_to. intros Hr Hlen.
  destruct (existsb (λ d, (d <? 0)%Z) target) eqn:Hneg; [done|].
  destruct (length target <? length (shape a)) eqn:Hlt; [done|].
  rewrite Hlen, Nat.sub_diag in Hr. simpl in Hr.
  destruct (forallb _ _) eqn:Hall; [|done]. injection Hr as <-. simpl.
  split_and!; try done.
  - by apply existsb_neg_false.
  - apply forallb_zip_Forall2; [by rewrite length_fmap|done].
Qed.

(** ** The executing part *)

Lemma apply_ops_Ok_inv {A : Type} ops (a a' : ndarray A) cs cs' tr tr' :
  apply_ops ops a cs tr = (tr', Ok (a', cs')) →
  data a' = data a ∧ size a' = size a ∧ (ops = [] → a' = a ∧ cs' = cs).
Proof.
  revert a cs tr. induction ops as [|[axis sh] ops IH]; intros a cs tr; simpl.
  - intros [= <- <- <-]. done.
  - unfold bbind, bcall.
    destruct (np_reshape a _) as [a1|e] eqn:Hr; [|done].
    intros (Hd & Hs & _)%IH.
    apply np_reshape_Ok_inv in Hr as (Hd1 & Hs1 & _).
    split_and!; [congruence|congruence|done].
Qed.

Lemma execute_Ok_inv {A : Type} (tensor r : ndarray A) H p tr tr' :
  execute tensor H p tr = (tr', Ok r) →
  ∃ a1 cs1 a2 tr1 tr2,
    apply_ops (ops p) tensor (current_shape p) tr = (tr1, Ok (a1, cs1))
    ∧ transpose_step (permutation p) a1 tr1 = (tr2, Ok a2)
    ∧ terminal_step p H a2 cs1 tr2 = (tr', Ok r).
Proof.
  unfold execute, bbind.
  destruct (apply_ops _ _ _ tr) as [tr1 [[a1 cs1]|e]] eqn:Hops; [|done].
  destruct (transpose_step _ a1 tr1) as [tr2 [a2|e]] eqn:Htr; [|done].
  intros Hterm. by exists a1, cs1, a2, tr1, tr2.
Qed.

Lemma transpose_step_size {A : Type} pm (a a' : ndarray A) tr tr' :
  transpose_step pm a tr = (tr', Ok a') → size a' = size a.
Proof.
  unfold transpose_step, bpure, bcall. destruct pm as [|p0 pm].
  - by intros [= <- <-].
  - intros [= <- Ht]. by apply np_transpose_Ok_inv in Ht as (? & _ & _ & _ & _ & _ & ?).
Qed.

(** ** Patterns without groups *)

Lemma axis_map_no_groups cs sd n l st ops am pos :
  existsb has_parens l = false →
  foldM (axis_map_step cs sd n) st l = Ok (ops, am, pos) → ops = st.1.1.
Proof.
  intros Hl Hf.
  apply (foldM_invariant (λ s, s.1.1 = st.1.1) _ _ _ _) in Hf; [done| |done].
  intros [[o a] q] ax [[o' a'] q'] Hax Ho. simpl in *.
  assert (has_parens ax = false) as Hp.
  { apply not_true_is_false. intros Hp.
    assert (existsb has_parens l = true); [|congruence].
    apply existsb_exists. exists ax. by rewrite <-list_elem_of_In. }
  unfold axis_map_step. case_bool_decide; [by intros [= <- _ _]|].
  rewrite (parse_axis_no_parens _ Hp). simpl.
  by intros (? & _ & [= <- _ _])%bind_Ok_inv.
Qed.

Lemma agree_at_insert shape (w am : gmap string Z) k i d :
  agree_at shape w am → shape !! i = Some d →
  agree_at shape (<[k := d]> w) (<[k := Z.of_nat i]> am).
Proof.
  intros Hag Hi k'. destruct (decide (k = k')) as [<-|Hne].
  - rewrite !lookup_insert_eq. by exists i, d.
  - rewrite !lookup_insert_ne by done. apply Hag.
Qed.

Lemma ellipsis_joint shape idx0 m a (w am : gmap string Z) w' idx' :
  agree_at shape w am →
  foldM (λ '(sd, idx) i,
           d ← py_index shape (Z.of_nat idx);
           Ok (<[ellipsis_name i := d]> sd, S idx))
        (w, idx0 + a) (seq a m) = Ok (w', idx') →
  idx' = idx0 + a + m
  ∧ agree_at shape w'
      (foldl (λ am j, <[ellipsis_name j := (Z.of_nat idx0 + Z.of_nat j)%Z]> am)
             am (seq a m)).
Proof.
  revert a w am. induction m as [|m IH]; intros a w am Hag; simpl.
  - intros [= <- <-]. split; [lia|done].
  - intros ([w1 i1] & Hs & Hf)%bind_Ok_inv.
    apply bind_Ok_inv in Hs as (d & Hd & [= <- <-]).
    apply py_index_nat_inv in Hd.
    replace (S (idx0 + a)) with (idx0 + S a) in Hf by lia.
    assert (agree_at shape (<[ellipsis_name a := d]> w)
              (<[ellipsis_name a := (Z.of_nat idx0 + Z.of_nat a)%Z]> am))
      as Hag1.
    { replace (Z.of_nat idx0 + Z.of_nat a)%Z with (Z.of_nat (idx0 + a)) by lia.
      by apply agree_at_insert. }
    destruct (IH (S a) _ _ Hag1 Hf) as [-> Hag']. split; [lia|done].
Qed.

(** The two loops over the input tokens, run side by side. *)
Lemma walk_axis_map_joint shape (H : gmap string Z) cs sd n l :
  existsb has_parens l = false → (0 ≤ n)%Z →
  ∀ w idx ops am w' idx' ops' am' pos',
    agree_at shape w am →
    foldM (validate_step shape H n) (w, idx) l = Ok (w', idx') →
    foldM (axis_map_step cs sd n) (ops, am, Z.of_nat idx) l = Ok (ops', am', pos') →
    agree_at shape w' am'.
Proof.
  intros Hl Hn. induction l as [|ax l IH];
    intros w idx ops am w' idx' ops' am' pos' Hag; cbn [foldM].
  { by intros [= <- <-] [= _ <- _]. }
  cbn [existsb] in Hl. apply orb_false_iff in Hl as [Hax Hl].
  intros ([w1 i1] & Hs & Hf)%bind_Ok_inv ([[o1 a1] p1] & Hs' & Hf')%bind_Ok_inv.
  destruct (decide (ax = "...")) as [->|Hne].
  - rewrite validate_step_ellipsis in Hs. unfold axis_map_step in Hs'.
    rewrite bool_decide_true in Hs' by done. injection Hs' as <- <- <-.
    unfold range in *.
    pose proof (ellipsis_joint shape idx (Z.to_nat n) 0 w am w1 i1 Hag) as Hj.
    rewrite Nat.add_0_r in Hj. destruct (Hj Hs) as [-> Hag1].
    eapply (IH Hl); [exact Hag1|exact Hf|].
    replace (Z.of_nat (idx + Z.to_nat n)) with (Z.of_nat idx + n)%Z by lia.
    exact Hf'.
  - rewrite validate_step_token, (parse_axis_no_parens _ Hax) in Hs by done.
    simpl in Hs. apply bind_Ok_inv in Hs as (d & Hd & [= <- <-]).
    apply py_index_nat_inv in Hd.
    unfold axis_map_step in Hs'. rewrite bool_decide_false in Hs' by done.
    rewrite (parse_axis_no_parens _ Hax) in Hs'. simpl in Hs'.
    apply bind_Ok_inv in Hs' as (? & _ & [= <- <- <-]).
    eapply (IH Hl); [by apply agree_at_insert|exact Hf|].
    replace (Z.of_nat (S idx)) with (Z.of_nat idx + 1)%Z by lia. exact Hf'.
Qed.

(** ** The loop over the output tokens *)

Lemma singleton_pos_spec ins cs p :
  singleton_pos ins cs = Ok p → ∃ i, p = Z.of_nat i ∧ cs !! i = Some 1%Z.
Proof.
  unfold singleton_pos. intros (l & Hl & Hp)%bind_Ok_inv.
  assert (Forall (λ q, ∃ i, q = Z.of_nat i ∧ cs !! i = Some 1%Z) l) as Hall.
  { revert Hl. apply (foldM_invariant
      (λ acc, Forall (λ q, ∃ i, q = Z.of_nat i ∧ cs !! i = Some 1%Z) acc));
      [|by constructor].
    intros acc [i ax] acc' _ Hacc. case_bool_decide; [|by intros [= <-]].
    intros (d & Hd & [= <-])%bind_Ok_inv.
    destruct (d =? 1)%Z eqn:Hd1; [|done].
    apply Z.eqb_eq in Hd1 as ->. apply py_index_nat_inv in Hd.
    apply Forall_app. split; [done|]. constructor; [|constructor]. eauto. }
  change 0%Z with (Z.of_nat 0) in Hp. apply py_index_nat_inv in Hp.
  rewrite Forall_forall in Hall. apply Hall.
  by eapply list_elem_of_lookup_2.
Qed.

Lemma ellipsis_output_inv (sd am : gmap string Z) l fs pm fs' pm' :
  foldM (λ '(fs, pm) i,
           d ← dict_get sd (ellipsis_name i);
           p ← dict_get am (ellipsis_name i);
           Ok (fs ++ [d], pm ++ [p])) (fs, pm) l = Ok (fs', pm') →
  ∃ ds ps, fs' = fs ++ ds ∧ pm' = pm ++ ps
           ∧ Forall2 (λ i d, sd !! ellipsis_name i = Some d) l ds
           ∧ Forall2 (λ i p, am !! ellipsis_name i = Some p) l ps.
Proof.
  revert fs pm. induction l as [|i l IH]; intros fs pm; simpl.
  - intros [= <- <-]. exists [], []. rewrite !app_nil_r. by repeat constructor.
  - intros ([f1 p1] & Hs & Hl)%bind_Ok_inv.
    apply bind_Ok_inv in Hs as (d & Hd & (p & Hpp & [= <- <-])%bind_Ok_inv).
    apply IH in Hl as (ds & ps & -> & -> & Hds & Hps).
    exists (d :: ds), (p :: ps). rewrite <-!app_assoc.
    unfold dict_get in *.
    destruct (sd !! ellipsis_name i) eqn:E1; [|done].
    destruct (am !! ellipsis_name i) eqn:E2; [|done].
    injection Hd as ->. injection Hpp as ->.
    split_and!; try done; by constructor.
Qed.

Lemma dict_get_Ok {V : Type} (d : gmap string V) k v :
  dict_get d k = Ok v ↔ d !! k = Some v.
Proof. unfold dict_get. destruct (d !! k); naive_solver. Qed.

Lemma mapR_dict_get (d : gmap string Z) (key : nat → string) l vs :
  Forall2 (λ i v, d !! key i = Some v) l vs →
  mapR (λ i, dict_get d (key i)) l = Ok vs.
Proof.
  intros Hf. apply mapR_Ok_Forall2. eapply Forall2_impl; [exact Hf|].
  intros i v Hv. by apply dict_get_Ok.
Qed.

(** The output loop only appends, the same number of entries to both
    lists. *)
Lemma output_step_appends ins cs sd am H n fs pm ax fs' pm' :
  output_step ins cs sd am H n (fs, pm) ax = Ok (fs', pm') →
  ∃ f2 p2, fs' = fs ++ f2 ∧ pm' = pm ++ p2
           ∧ (truthy (parse_axis ax).2 = false → length f2 = length p2).
Proof.
  unfold output_step. destruct (parse_axis ax) as [name comps]. simpl.
  case_bool_decide.
  { intros (ds & ps & -> & -> & H1 & H2)%ellipsis_output_inv.
    exists ds, ps. split_and!; try done. intros _.
    by rewrite <-(Forall2_length _ _ _ H1), <-(Forall2_length _ _ _ H2). }
  destruct (truthy comps).
  { intros (sizes & _ & (perm & _ & [= <- <-])%bind_Ok_inv)%bind_Ok_inv.
    by eexists _, _. }
  case_match; intros (d & _ & (p & _ & [= <- <-])%bind_Ok_inv)%bind_Ok_inv;
    by exists [d], [p].
Qed.

Lemma output_loop_appends ins cs sd am H n outs fs pm fs' pm' :
  existsb has_parens outs = false →
  foldM (output_step ins cs sd am H n) (fs, pm) outs = Ok (fs', pm') →
  ∃ f2 p2, fs' = fs ++ f2 ∧ pm' = pm ++ p2 ∧ length f2 = length p2.
Proof.
  revert fs pm. induction outs as [|ax outs IH]; intros fs pm; cbn [foldM existsb].
  - intros _ [= <- <-]. exists [], []. by rewrite !app_nil_r.
  - intros [Hax Houts]%orb_false_iff ([f1 p1] & Hs & Hl)%bind_Ok_inv.
    apply output_step_appends in Hs as (f2 & p2 & -> & -> & Hlen).
    apply IH in Hl as (f3 & p3 & -> & -> & Hlen3); [|done].
    exists (f2 ++ f3), (p2 ++ p3). rewrite <-!app_assoc, !length_app.
    split_and!; try done. rewrite Hlen, Hlen3; [done|].
    destruct (decide (ax = "...")) as [->|Hne]; [done|].
    by rewrite (parse_axis_no_parens _ Hax).
Qed.

Section output_no_groups.
Context (ins outs0 : list string) (cs : list Z) (w am H : gmap string Z) (n : Z).
Hypothesis agree : agree_at cs w am.

Let sd := merge_hints w H.
Let sp := singleton_pos ins cs.
Let N (f : Z) : Prop :=
  ∃ b, b ∈ outs0 ∧ b ≠ "..." ∧ H !! b = Some f ∧ am !! b = None.

Lemma sd_bound k p :
  am !! k = Some p →
  ∃ i d, p = Z.of_nat i ∧ cs !! i = Some d ∧ sd !! k = Some d.
Proof.
  intros Hk. pose proof (agree k) as Hag. rewrite Hk in Hag.
  destruct Hag as (i & d & -> & Hi & Hw). exists i, d.
  subst sd. by rewrite merge_hints_lookup, Hw.
Qed.

Lemma sd_unbound k : am !! k = None → sd !! k = H !! k.
Proof.
  intros Hk. pose proof (agree k) as Hag. rewrite Hk in Hag.
  subst sd. by rewrite merge_hints_lookup, Hag.
Qed.

Lemma output_no_groups outs fs pm fs' pm' :
  existsb has_parens outs = false → outs ⊆ outs0 →
  Forall2 (entry_ok cs sp N) fs pm →
  foldM (output_step ins cs sd am H n) (fs, pm) outs = Ok (fs', pm') →
  Forall2 (entry_ok cs sp N) fs' pm'
  ∧ foldM (broadcast_step sd H n) fs outs = Ok fs'.
Proof.
  revert fs pm. induction outs as [|ax outs IH]; intros fs pm;
    cbn [foldM existsb].
  { by intros _ _ ? [= <- <-]. }
  intros [Hax Houts]%orb_false_iff Hsub Hinv ([f1 p1] & Hs & Hl)%bind_Ok_inv.
  assert (outs ⊆ outs0) as Hsub' by (intros x Hx; apply Hsub; by right).
  assert (ax ∈ outs0) as Hin by (apply Hsub; by left).
  destruct (decide (ax = "...")) as [->|Hne].
  - rewrite broadcast_step_ellipsis. unfold output_step in Hs.
    rewrite parse_axis_ellipsis, bool_decide_true in Hs by done.
    apply ellipsis_output_inv in Hs as (ds & ps & -> & -> & Hds & Hps).
    rewrite (mapR_dict_get sd ellipsis_name _ ds Hds), bind_Ok.
    eapply IH; [exact Houts|exact Hsub'| |exact Hl].
    apply Forall2_app; [done|].
    clear -Hds Hps agree. revert ps Hps.
    induction Hds as [|i d l ds Hd _ IHd]; intros ps Hps;
      inversion Hps as [|? p ? ps' Hp Hps']; subst; constructor; [|by apply IHd].
    destruct (sd_bound _ _ Hp) as (j & d' & -> & Hj & Hd').
    exists j. split; [done|]. left. congruence.
  - rewrite broadcast_step_plain by done. rewrite bind_Ok.
    unfold output_step in Hs. rewrite (parse_axis_no_parens _ Hax) in Hs.
    rewrite bool_decide_false in Hs by done. simpl in Hs.
    destruct (bool_decide (is_Some (H !! ax))
              && negb (bool_decide (is_Some (am !! ax)))) eqn:Hc.
    + apply andb_true_iff in Hc as [[v Hv]%bool_decide_eq_true Ham].
      apply negb_true_iff, bool_decide_eq_false in Ham.
      apply eq_None_not_Some in Ham.
      apply bind_Ok_inv in Hs as (d & Hd & (p & Hp & [= <- <-])%bind_Ok_inv).
      apply dict_get_Ok in Hd. rewrite Hv in Hd. injection Hd as <-.
      rewrite (sd_unbound _ Ham), Hv. simpl.
      eapply IH; [exact Houts|exact Hsub'| |exact Hl].
      apply Forall2_app; [done|]. constructor; [|constructor].
      destruct (singleton_pos_spec _ _ _ Hp) as (i & -> & Hi).
      exists i. split; [done|]. right. split_and!; [done|done|].
      by exists ax.
    + apply bind_Ok_inv in Hs as (d & Hd & (p & Hp & [= <- <-])%bind_Ok_inv).
      apply dict_get_Ok in Hd, Hp. rewrite Hd. simpl.
      eapply IH; [exact Houts|exact Hsub'| |exact Hl].
      apply Forall2_app; [done|]. constructor; [|constructor].
      destruct (sd_bound _ _ Hp) as (j & d' & -> & Hj & Hd').
      exists j. split; [done|]. left. congruence.
Qed.

(** A new axis has its entry in the two lists. *)
Lemma new_axis_entry outs fs pm fs' pm' b v :
  existsb has_parens outs = false →
  length fs = length pm →
  b ∈ outs → b ≠ "..." → H !! b = Some v → am !! b = None →
  foldM (output_step ins cs sd am H n) (fs, pm) outs = Ok (fs', pm') →
  ∃ j q, fs' !! j = Some v ∧ pm' !! j = Some q ∧ sp = Ok q.
Proof.
  intros Hng Hlen (l1 & l2 & ->)%list_elem_of_split Hne Hv Ham.
  rewrite existsb_app in Hng. apply orb_false_iff in Hng as [Hl1 Hl2].
  cbn [existsb] in Hl2. apply orb_false_iff in Hl2 as [Hb Hl2].
  rewrite foldM_app. intros ([f1 p1] & H1 & Hf)%bind_Ok_inv.
  cbn [foldM] in Hf. apply bind_Ok_inv in Hf as ([f2 p2] & Hs & Hf).
  apply output_loop_appends in H1 as (x1 & y1 & -> & -> & Hlen1); [|done].
  apply output_loop_appends in Hf as (x3 & y3 & -> & -> & Hlen3); [|done].
  unfold output_step in Hs. rewrite (parse_axis_no_parens _ Hb) in Hs.
  rewrite bool_decide_false in Hs by done. simpl in Hs.
  rewrite Hv, Ham in Hs.
  rewrite bool_decide_true, bool_decide_false in Hs
    by (try apply is_Some_None; by eexists).
  simpl in Hs.
  apply bind_Ok_inv in Hs as (d & Hd & (p & Hp & [= <- <-])%bind_Ok_inv).
  apply dict_get_Ok in Hd. rewrite Hv in Hd. injection Hd as <-.
  exists (length (fs ++ x1)), p. split_and!; [| |done].
  - rewrite <-app_assoc. by apply list_lookup_middle.
  - rewrite <-app_assoc. apply list_lookup_middle.
    rewrite !length_app. lia.
Qed.
End output_no_groups.

(** ** Element counts *)

Lemma check_rank_no_groups ell rank nb :
  check_rank false false ell rank nb = Ok () → (0 ≤ rank - nb)%Z.
Proof.
  unfold check_rank. simpl. destruct ell.
  - destruct (rank - nb <? 0)%Z eqn:E; [done|]. apply Z.ltb_ge in E. lia.
  - destruct (nb =? rank)%Z eqn:E; [|done]. apply Z.eqb_eq in E. lia.
Qed.

Lemma prodZ_insert (l : list Z) (j : nat) (v : Z) :
  l !! j = Some 1%Z → prodZ (<[j := v]> l) = (v * prodZ l)%Z.
Proof.
  intros Hj. pose proof (lookup_lt_Some _ _ _ Hj) as Hlt.
  rewrite insert_take_drop by done.
  rewrite <-(take_drop_middle l j 1%Z Hj) at 3.
  rewrite !prodZ_app, !prodZ_cons. lia.
Qed.

Section entries.
Context (S : list nat) (sp : result Z) (N : Z → Prop).
Context (fs pm : list Z) (axes' : list nat) (S2 : list nat).
Hypothesis entries : Forall2 (entry_ok (Z.of_nat <$> S) sp N) fs pm.
Hypothesis normal :
  Forall2 (λ ax i, normalize_axis (length S) ax = Ok i) pm axes'.
Hypothesis S2_eq : S2 = (λ ax, default 0 (S !! ax)) <$> axes'.

Lemma entries_pointwise j f :
  fs !! j = Some f →
  ∃ s q i, S2 !! j = Some s ∧ pm !! j = Some q ∧ axes' !! j = Some i
           ∧ (f = Z.of_nat s ∨ (s = 1 ∧ sp = Ok q ∧ N f)).
Proof.
  intros Hf.
  destruct (Forall2_lookup_l _ _ _ _ _ entries Hf) as (q & Hq & i & -> & He).
  destruct (Forall2_lookup_l _ _ _ _ _ normal Hq) as (i' & Hi' & Hn).
  apply normalize_axis_Ok in Hn as [_ Hn].
  assert (i' = i) as -> by (specialize (Hn ltac:(lia)); lia).
  exists (default 0 (S !! i)), (Z.of_nat i), i.
  split_and!; try done.
  { by rewrite S2_eq, list_lookup_fmap, Hi'. }
  destruct He as [He|(He & Hsp & HN)]; rewrite list_lookup_fmap in He;
    destruct (S !! i) as [s|]; simplify_eq/=.
  - by left.
  - right. split_and!; try done. lia.
Qed.

Lemma entries_plain :
  (∀ f, ¬ N f) → fs = Z.of_nat <$> S2.
Proof.
  intros HN. apply list_eq. intros j. rewrite list_lookup_fmap.
  destruct (fs !! j) as [f|] eqn:Hf.
  - destruct (entries_pointwise j f Hf) as (s & q & i & -> & _ & _ & [->|(_ & _ & ?)]);
      [done|]. by destruct (HN f).
  - apply lookup_ge_None in Hf.
    rewrite (Forall2_length _ _ _ entries), (Forall2_length _ _ _ normal) in Hf.
    rewrite (proj2 (lookup_ge_None S2 j)); [done|].
    by rewrite S2_eq, length_fmap.
Qed.

Lemma entries_one_new j0 q0 i0 v :
  NoDup axes' →
  fs !! j0 = Some v → pm !! j0 = Some q0 → sp = Ok q0 →
  q0 = Z.of_nat i0 → (Z.of_nat <$> S) !! i0 = Some 1%Z →
  fs = <[j0 := v]> (Z.of_nat <$> S2) ∧ (Z.of_nat <$> S2) !! j0 = Some 1%Z.
Proof.
  intros Hnd Hv Hq0 Hsp -> Hi0.
  destruct (entries_pointwise j0 v Hv) as (s0 & q & i & Hs0 & Hq & Hi & _).
  rewrite Hq0 in Hq. injection Hq as <-.
  destruct (Forall2_lookup_l _ _ _ _ _ normal Hq0) as (i' & Hi' & Hn).
  apply normalize_axis_Ok in Hn as [_ Hn]. rewrite Hi in Hi'. injection Hi' as <-.
  assert (i = i0) as -> by (specialize (Hn ltac:(lia)); lia).
  assert (s0 = 1) as ->.
  { rewrite S2_eq, list_lookup_fmap, Hi in Hs0. simpl in Hs0.
    rewrite list_lookup_fmap in Hi0. destruct (S !! i0); simplify_eq/=. lia. }
  split; [|by rewrite list_lookup_fmap, Hs0].
  apply list_eq. intros j. destruct (decide (j = j0)) as [->|Hne].
  - rewrite list_lookup_insert_eq; [done|].
    rewrite length_fmap. by eapply lookup_lt_Some.
  - rewrite list_lookup_insert_ne by done. rewrite list_lookup_fmap.
    destruct (fs !! j) as [f|] eqn:Hf.
    + destruct (entries_pointwise j f Hf)
        as (s & q & i & -> & Hq & Hij & [->|(_ & Hsp' & _)]); [done|].
      rewrite Hsp in Hsp'. injection Hsp' as <-.
      destruct (Forall2_lookup_l _ _ _ _ _ normal Hq) as (i'' & Hi'' & Hn').
      apply normalize_axis_Ok in Hn' as [_ Hn'].
      assert (i'' = i0) as -> by (specialize (Hn' ltac:(lia)); lia).
      destruct Hne. by eapply NoDup_lookup.
    + apply lookup_ge_None in Hf.
      rewrite (Forall2_length _ _ _ entries), (Forall2_length _ _ _ normal) in Hf.
      rewrite (proj2 (lookup_ge_None S2 j)); [done|].
      by rewrite S2_eq, length_fmap.
Qed.
End entries.

(** C4.  A call that returns preserves the number of elements, unless its
    terminal operation is the broadcast and an output token introduces a new
    axis; then the number of elements is multiplied by the size of that
    axis. *)
Theorem C4_element_count {A : Type} (tensor r : ndarray A) pattern H p :
  compile tensor pattern H = Ok p →
  rearrange tensor pattern H = Ok r →
  (terminal_broadcast p = false ∨ (∀ b v, ¬ new_axis p H b v) →
   size r = size tensor)
  ∧ (terminal_broadcast p = true →
     ∀ b v, new_axis p H b v →
            Z.of_nat (size r) = (Z.of_nat (size tensor) * v)%Z).
Proof.
  intros Hc Hr. unfold rearrange, rearrange_run in Hr. rewrite Hc in Hr.
  destruct (execute tensor H p []) as [tr res] eqn:Hex. simpl in Hr. subst res.
  apply execute_Ok_inv in Hex as (a1 & cs1 & a2 & tr1 & tr2 & Hops & Htr & Hterm).
  pose proof (apply_ops_Ok_inv _ _ _ _ _ _ _ Hops) as (_ & Hsz1 & Hnil).
  pose proof (transpose_step_size _ _ _ _ _ Htr) as Hsz2.
  apply compile_Ok_inv in Hc
    as (ins & outs & sd & ops & am & last & fs & pm
        & Hp & Hrank & Hv & _ & _ & Ha & Hout & ->).
  unfold terminal_step in Hterm. unfold terminal_broadcast, new_axis.
  simpl in *.
  destruct fs as [|f0 fs'] eqn:Hfs.
  { injection Hterm as <- <-. split; [intros _; congruence|done]. }
  assert (fs ≠ []) as Hfsne by by rewrite Hfs.
  rewrite <-Hfs in *. clear Hfs.
  destruct (existsb has_parens ins) eqn:Hsplit.
  { rewrite andb_false_r in *. simpl in Hterm.
    unfold bcall in Hterm. injection Hterm as _ Hre.
    apply np_reshape_Ok_inv in Hre as (_ & Hsz & _).
    destruct fs; (split; [intros _; congruence|done]). }
  destruct (existsb has_parens outs) eqn:Hmerge.
  { rewrite !andb_false_r in *. simpl in Hterm.
    unfold bcall in Hterm. injection Hterm as _ Hre.
    apply np_reshape_Ok_inv in Hre as (_ & Hsz & _).
    destruct fs; (split; [intros _; congruence|done]). }
  pose proof (axis_map_no_groups _ _ _ _ _ _ _ _ Hsplit Ha) as Hnoops.
  simpl in Hnoops. subst ops. destruct (Hnil eq_refl) as [-> ->].
  rewrite !andb_true_r in *.
  destruct (existsb (λ s, (s =? 1)%Z) (Z.of_nat <$> shape tensor)) eqn:Hone.
  2: { unfold bcall in Hterm. injection Hterm as _ Hre.
       apply np_reshape_Ok_inv in Hre as (_ & Hsz & _).
       destruct fs; (split; [intros _; congruence|done]). }
  (* the broadcast *)
  set (cs := Z.of_nat <$> shape tensor) in *.
  set (n := (Z.of_nat (length (shape tensor))
             - Z.of_nat (length (filter (λ ax, ax ≠ "...") ins)))%Z) in *.
  assert (0 ≤ n)%Z as Hn by by apply check_rank_no_groups in Hrank.
  unfold validate_shapes in Hv. rewrite length_fmap in Hv. fold cs n in Hv.
  apply bind_Ok_inv in Hv as ([w idx] & Hw & [= <-]).
  assert (agree_at cs w am) as Hag.
  { eapply (walk_axis_map_joint cs H cs (merge_hints w H) n ins Hsplit Hn
              ∅ 0 [] ∅); [|exact Hw|exact Ha].
    intros k. by rewrite !lookup_empty. }
  destruct (output_no_groups ins outs cs w am H n Hag outs [] [] fs pm Hmerge)
    as [Hent Hbs]; [done|constructor|exact Hout|].
  destruct (output_loop_appends _ _ _ _ _ _ _ _ _ _ _ Hmerge Hout)
    as (f2 & p2 & Ef & Ep & Hlen). simpl in Ef, Ep. subst f2 p2.
  unfold bbind, blift, broadcast_shape_of in Hterm. rewrite Hbs in Hterm.
  unfold bcall in Hterm.
  assert (np_broadcast_to a2 fs = Ok r) as Hbc.
  { by injection Hterm. }
  clear Hterm.
  unfold transpose_step in Htr.
  assert (np_transpose tensor pm = Ok a2) as Htp.
  { destruct pm; [by destruct fs|]. unfold bcall in Htr. by injection Htr. }
  clear Hfsne.
  apply np_transpose_Ok_inv in Htp
    as (axes' & Hnorm & Hperm & Hnd & Hsh & _ & _).
  apply np_broadcast_to_Ok_inv in Hbc as (Hnonneg & Hshr & _ & _).
  2: { rewrite Hsh. unfold take_axes.
       rewrite length_fmap, <-(Forall2_length _ _ _ Hnorm). done. }
  assert (Z.of_nat (size r) = prodZ fs) as Hsize.
  { unfold size. rewrite Hshr. by apply prodn_to_nat. }
  split.
  - intros [?|Hnone]; [done|].
    apply Nat2Z.inj. rewrite Hsize, <-Hsz2.
    rewrite (entries_plain _ _ _ fs pm axes' (shape a2) Hent Hnorm Hsh).
    + by rewrite prodZ_of_nat.
    + intros f (b & Hb & Hne & Hv & Ham). by apply (Hnone b f).
  - intros _ b v (Hb & Hne & Hv & Ham).
    destruct (new_axis_entry ins cs w am H n outs [] [] fs pm b v)
      as (j0 & q0 & Hj0 & Hq0 & Hsp); try done.
    destruct (singleton_pos_spec _ _ _ Hsp) as (i0 & -> & Hi0).
    destruct (entries_one_new _ _ _ fs pm axes' (shape a2) Hent Hnorm Hsh
                j0 (Z.of_nat i0) i0 v Hnd Hj0 Hq0 Hsp eq_refl Hi0)
      as [Efs H1].
    rewrite Hsize, Efs, prodZ_insert by done.
    rewrite prodZ_of_nat. fold (size a2). rewrite Hsz2. lia.
Qed.

Lemma C4_element_count_witness :
  ∃ p r,
    compile (arange [3; 1; 5]) "a 1 c -> a b c" (hints [("b", 4%Z)]) = Ok p
    ∧ terminal_broadcast p = true
    ∧ new_axis p (hints [("b", 4%Z)]) "b" 4
    ∧ rearrange (arange [3; 1; 5]) "a 1 c -> a b c" (hints [("b", 4%Z)]) = Ok r
    ∧ Z.of_nat (size r) = (Z.of_nat (size (arange [3%nat; 1%nat; 5%nat])) * 4)%Z.
Proof.
  destruct (compile (arange [3; 1; 5]) "a 1 c -> a b c" (hints [("b", 4%Z)]))
    as [p|] eqn:Hc; [|by vm_compute in Hc].
  destruct (rearrange (arange [3; 1; 5]) "a 1 c -> a b c" (hints [("b", 4%Z)]))
    as [r|] eqn:Hr; [|by vm_compute in Hr].
  assert (terminal_broadcast p = true) as Hb.
  { vm_compute in Hc. injection Hc as <-. reflexivity. }
  assert (new_axis p (hints [("b", 4%Z)]) "b" 4) as Hnew.
  { vm_compute in Hc. injection Hc as <-.
    split_and!; [set_solver|done|reflexivity|reflexivity]. }
  exists p, r. split_and!; try done.
  exact (proj2 (C4_element_count _ r _ _ p Hc Hr) Hb "b" 4%Z Hnew).
Defined.

(** ** Multi-indices and strided views *)

Lemma offset_cons (i s : nat) (idx strd : list nat) :
  offset (i :: idx) (s :: strd) = i * s + offset idx strd.
Proof. done. Qed.

Lemma seq_blocks (d P : nat) :
  (seq 0 d ≫= λ i, seq (i * P) P) = seq 0 (d * P).
Proof.
  induction d as [|d IH]; [done|].
  rewrite seq_S, bind_app, IH. simpl. rewrite app_nil_r.
  replace (P + d * P) with (d * P + P) by lia. by rewrite seq_app.
Qed.

Lemma fmap_list_bind {A B C : Type} (f : B → C) (g : A → list B) (l : list A) :
  f <$> (l ≫= g) = l ≫= λ x, f <$> g x.
Proof.
  induction l as [|x l IH]; [done|].
  cbn [mbind list_bind]. change (mbind ?h l) with (l ≫= h).
  by rewrite fmap_app, IH.
Qed.

(** The row-major offsets of the indices of a shape count from zero. *)
Lemma indices_ravel (sh : list nat) :
  (λ idx, offset idx (strides sh)) <$> indices sh = seq 0 (prodn sh).
Proof.
  induction sh as [|d sh IH]; [done|].
  cbn [indices strides]. rewrite prodn_cons, <-seq_blocks.
  rewrite fmap_list_bind. apply list_bind_ext; [|done]. intros i.
  rewrite <-list_fmap_compose.
  rewrite <-(Nat.add_0_r (i * prodn sh)) at 1.
  rewrite <-fmap_add_seq, <-IH, <-list_fmap_compose.
  by apply list_fmap_ext.
Qed.

Lemma length_indices (sh : list nat) : length (indices sh) = prodn sh.
Proof. by rewrite <-(length_fmap (λ idx, offset idx (strides sh))), indices_ravel, length_seq. Qed.

Lemma elem_of_indices (sh idx : list nat) :
  idx ∈ indices sh ↔ Forall2 lt idx sh.
Proof.
  revert idx. induction sh as [|d sh IH]; intros idx; cbn [indices].
  - rewrite list_elem_of_singleton. split; [intros ->; constructor|by inversion 1].
  - rewrite list_elem_of_bind. split.
    + intros (i & (idx' & -> & Hidx)%list_elem_of_fmap & Hi%elem_of_seq).
      constructor; [lia|by apply IH].
    + inversion 1 as [|i ? idx' ? Hi Hidx]; subst. exists i. split.
      * apply list_elem_of_fmap. exists idx'. split; [done|by apply IH].
      * apply elem_of_seq. lia.
Qed.

(** The index at the position given by its own offset. *)
Lemma indices_lookup_ravel (sh idx : list nat) :
  Forall2 lt idx sh →
  indices sh !! offset idx (strides sh) = Some idx
  ∧ offset idx (strides sh) < prodn sh.
Proof.
  intros (k & Hk)%elem_of_indices%list_elem_of_lookup_1.
  assert (((λ idx, offset idx (strides sh)) <$> indices sh) !! k
          = Some (offset idx (strides sh))) as Hm
    by by rewrite list_lookup_fmap, Hk.
  rewrite indices_ravel in Hm. apply lookup_seq in Hm as [Heq Hlt].
  simpl in Heq. by rewrite Heq.
Qed.

Lemma gather_Forall2 {A : Type} (dat : list A) (sh strd : list nat) (l : list A) :
  Forall2 (λ idx x, dat !! offset idx strd = Some x) (indices sh) l →
  gather dat sh strd = l.
Proof.
  unfold gather. generalize (indices sh). intros idxs.
  induction 1 as [|idx x idxs l Hx _ IH]; [done|].
  cbn [mbind list_bind]. change (mbind ?f idxs) with (idxs ≫= f).
  by rewrite Hx, IH.
Qed.

Lemma gather_exists {A : Type} (dat : list A) (sh strd : list nat) :
  (∀ idx, Forall2 lt idx sh → offset idx strd < length dat) →
  ∃ l, Forall2 (λ idx x, dat !! offset idx strd = Some x) (indices sh) l.
Proof.
  intros Hin.
  assert (∀ idx, idx ∈ indices sh → offset idx strd < length dat) as Hall.
  { intros idx Hidx. by apply Hin, elem_of_indices. }
  clear Hin. induction (indices sh) as [|idx idxs IH]; [by exists []|].
  destruct IH as (l & Hl); [intros; apply Hall; by right|].
  destruct (lookup_lt_is_Some_2 dat (offset idx strd)) as [x Hx];
    [apply Hall; by left|].
  exists (x :: l). by constructor.
Qed.

(** The row-major view of an array is the array itself. *)
Lemma gather_identity {A : Type} (dat : list A) (sh : list nat) :
  length dat = prodn sh →
  Forall2 (λ idx x, Forall2 lt idx sh ∧ dat !! offset idx (strides sh) = Some x)
    (indices sh) dat.
Proof.
  intros Hlen. apply Forall2_same_length_lookup_2; [by rewrite length_indices|].
  intros i idx x Hidx Hx. split.
  - by apply elem_of_indices, list_elem_of_lookup_2 with i.
  - assert (((λ idx, offset idx (strides sh)) <$> indices sh) !! i
            = Some (offset idx (strides sh))) as Hm
      by by rewrite list_lookup_fmap, Hidx.
    rewrite indices_ravel in Hm. apply lookup_seq in Hm as [Heq _].
    simpl in Heq. by rewrite Heq.
Qed.

(** ** Transposition and its inverse *)

Lemma length_take_axes (l axes : list nat) : length (take_axes l axes) = length axes.
Proof. apply length_fmap. Qed.

Lemma take_axes_lookup (l axes : list nat) (j i : nat) :
  axes !! j = Some i → take_axes l axes !! j = Some (default 0 (l !! i)).
Proof. intros Hj. unfold take_axes. by rewrite list_lookup_fmap, Hj. Qed.

Lemma take_axes_compose (l p q : list nat) :
  Forall (λ i, i < length p) q →
  take_axes (take_axes l p) q = take_axes l (take_axes p q).
Proof.
  intros Hq. unfold take_axes. rewrite <-list_fmap_compose.
  apply Forall_fmap_ext_1. eapply Forall_impl; [exact Hq|].
  intros i Hi. simpl.
  destruct (lookup_lt_is_Some_2 p i Hi) as [pi Hpi].
  by rewrite list_lookup_fmap, Hpi.
Qed.

Lemma offset_take_axes (idx strd p : list nat) :
  offset (take_axes idx p) (take_axes strd p)
  = sum_list ((λ i, default 0 (idx !! i) * default 0 (strd !! i)) <$> p).
Proof.
  induction p as [|i p IH]; [done|]. unfold take_axes in *.
  by rewrite !fmap_cons, offset_cons, IH.
Qed.

Lemma sum_list_Permutation (l1 l2 : list nat) :
  l1 ≡ₚ l2 → sum_list l1 = sum_list l2.
Proof. induction 1; simpl; lia. Qed.

(** Permuting an index and the strides together keeps the offset. *)
Lemma offset_reindex (idx strd p : list nat) :
  p ≡ₚ seq 0 (length idx) → length strd = length idx →
  offset (take_axes idx p) (take_axes strd p) = offset idx strd.
Proof.
  intros Hp Hlen. rewrite offset_take_axes.
  rewrite (sum_list_Permutation _ _ (fmap_Permutation _ _ _ Hp)).
  rewrite <-offset_take_axes.
  by rewrite fmap_lookup_seq_default, <-Hlen, fmap_lookup_seq_default.
Qed.

Lemma Permutation_seq_bound (p : list nat) (k : nat) :
  p ≡ₚ seq 0 k → Forall (λ i, i < k) p.
Proof.
  intros Hp. apply Forall_forall. intros i Hi. rewrite Hp in Hi.
  apply elem_of_seq in Hi. lia.
Qed.

Lemma take_axes_valid (idx sh p : list nat) :
  Forall2 lt idx sh → Forall (λ i, i < length sh) p →
  Forall2 lt (take_axes idx p) (take_axes sh p).
Proof.
  intros Hv Hp. unfold take_axes. apply Forall2_fmap, Forall_Forall2_diag.
  eapply Forall_impl; [exact Hp|]. intros i Hi. simpl.
  destruct (lookup_lt_is_Some_2 sh i Hi) as [s Hs].
  destruct (Forall2_lookup_r _ _ _ _ _ Hv Hs) as (x & Hx & Hlt).
  by rewrite Hs, Hx.
Qed.

Lemma length_strides (sh : list nat) : length (strides sh) = length sh.
Proof. induction sh; simpl; auto. Qed.

(** [np.transpose] with a permutation of the axes succeeds. *)
Lemma np_transpose_nat {A : Type} (a : ndarray A) (p : list nat) :
  p ≡ₚ seq 0 (length (shape a)) →
  np_transpose a (Z.of_nat <$> p)
  = Ok (mk_ndarray (take_axes (shape a) p)
          (gather (data a) (take_axes (shape a) p)
             (take_axes (strides (shape a)) p))).
Proof.
  intros Hp. unfold np_transpose.
  assert (length p = length (shape a)) as Hlen
    by by rewrite Hp, length_seq.
  rewrite length_fmap, Hlen, Nat.eqb_refl. simpl.
  assert (mapR (normalize_axis (length (shape a))) (Z.of_nat <$> p) = Ok p) as ->.
  { apply mapR_Ok_Forall2, Forall2_fmap_l, Forall_Forall2_diag.
    eapply Forall_impl; [exact (Permutation_seq_bound _ _ Hp)|].
    intros i Hi. by apply normalize_axis_nat. }
  rewrite bind_Ok, bool_decide_eq_true_2; [done|].
  rewrite Hp. apply NoDup_seq.
Qed.

Section transpose_inverse.
Context {A : Type} (D : list A) (S1 p q : list nat).
Hypothesis length_D : length D = prodn S1.
Hypothesis perm_p : p ≡ₚ seq 0 (length S1).
Hypothesis perm_q : q ≡ₚ seq 0 (length S1).
Hypothesis inverse : take_axes p q = seq 0 (length S1).

Lemma length_p : length p = length S1.
Proof. by rewrite perm_p, length_seq. Qed.

Lemma q_bound : Forall (λ i, i < length p) q.
Proof. rewrite length_p. by apply Permutation_seq_bound. Qed.

Lemma transpose_inverse_shape :
  take_axes (take_axes S1 p) q = S1.
Proof.
  rewrite take_axes_compose by apply q_bound.
  by rewrite inverse, fmap_lookup_seq_default.
Qed.


(** The transposed view reads inside the data. *)
Lemma transposed_in_range (jdx : list nat) :
  Forall2 lt jdx (take_axes S1 p) →
  offset jdx (take_axes (strides S1) p) < length D.
Proof.
  intros Hj. pose proof (Forall2_length _ _ _ Hj) as Hlen.
  rewrite length_take_axes, length_p in Hlen.
  rewrite <-(offset_reindex jdx (take_axes (strides S1) p) q).
  - rewrite (take_axes_compose (strides S1)) by apply q_bound.
    rewrite inverse, <-(length_strides S1), fmap_lookup_seq_default.
    rewrite length_D. apply indices_lookup_ravel.
    rewrite <-transpose_inverse_shape at 1.
    apply take_axes_valid; [done|].
    rewrite length_take_axes. apply q_bound.
  - by rewrite Hlen.
  - by rewrite length_take_axes, length_p.
Qed.

Lemma transposed_data :
  ∃ D2,
    Forall2 (λ idx x, D !! offset idx (take_axes (strides S1) p) = Some x)
      (indices (take_axes S1 p)) D2
    ∧ gather D (take_axes S1 p) (take_axes (strides S1) p) = D2.
Proof.
  destruct (gather_exists D (take_axes S1 p) (take_axes (strides S1) p))
    as (D2 & HD2); [apply transposed_in_range|].
  exists D2. split; [done|]. by apply gather_Forall2.
Qed.

Lemma transposed_length :
  length (gather D (take_axes S1 p) (take_axes (strides S1) p))
  = prodn (take_axes S1 p).
Proof.
  destruct transposed_data as (D2 & HD2 & ->).
  by rewrite <-(Forall2_length _ _ _ HD2), length_indices.
Qed.


End transpose_inverse.

(** ** Tokens, slots and the closed forms of the loops *)

Lemma range_of_nat (n : nat) : range (Z.of_nat n) = seq 0 n.
Proof. unfold range. by rewrite Nat2Z.id. Qed.

Lemma truthy_ellipsis : truthy (parse_axis "...").2 = false.
Proof. done. Qed.

Lemma ident_parse (s : string) : ident s → parse_axis s = (s, None).
Proof. intros (_ & _ & Hp & _). by apply parse_axis_no_parens. Qed.

Lemma token_names_ellipsis (n : nat) :
  token_names n "..." = ellipsis_name <$> seq 0 n.
Proof. done. Qed.

Lemma token_names_ident (n : nat) (s : string) : ident s → token_names n s = [s].
Proof.
  intros Hid. unfold token_names. rewrite (ident_parse _ Hid).
  rewrite bool_decide_eq_false_2; [done|]. apply Hid.
Qed.

Lemma token_names_group (n : nat) (ax : string) :
  truthy (parse_axis ax).2 = true →
  ax ≠ "..." ∧ token_names n ax = components_of (parse_axis ax).2.
Proof.
  intros Ht. assert (ax ≠ "...") as Hne by (intros ->; done).
  split; [done|]. unfold token_names.
  by rewrite bool_decide_eq_false_2, Ht.
Qed.

Lemma slot_names_cons n ax l :
  slot_names n (ax :: l) = token_names n ax ++ slot_names n l.
Proof. done. Qed.


Lemma side_dims_cons sd n ax l :
  side_dims sd n (ax :: l) = token_dims sd n ax ++ side_dims sd n l.
Proof. done. Qed.

Lemma length_lookups (m : gmap string Z) names :
  length (lookups m names) = length names.
Proof. apply length_fmap. Qed.

Lemma lookups_app (m : gmap string Z) l1 l2 :
  lookups m (l1 ++ l2) = lookups m l1 ++ lookups m l2.
Proof. apply fmap_app. Qed.

Lemma mapR_dict_get_lookups (m : gmap string Z) (names : list string) :
  Forall (λ k, is_Some (m !! k)) names →
  mapR (dict_get m) names = Ok (lookups m names).
Proof.
  induction 1 as [|k names [v Hv] _ IH]; [done|].
  cbn [mapR]. rewrite (proj2 (dict_get_Ok _ _ _) Hv), bind_Ok, IH, bind_Ok.
  unfold lookups. by rewrite fmap_cons, Hv.
Qed.

(** *** Positions *)

Lemma foldl_imap_shift (pos : Z) (k : nat) (l : list string) (am : gmap string Z) :
  foldl (λ am '(j, comp), <[comp := (pos + Z.of_nat j)%Z]> am) am
        (imap (λ j c, (k + j, c)) l)
  = foldl (λ am '(j, comp), <[comp := (pos + Z.of_nat k + Z.of_nat j)%Z]> am) am
          (imap (λ j c, (0 + j, c)) l).
Proof.
  revert pos k am. induction l as [|c l IH]; intros pos k am; [done|].
  rewrite !imap_cons. cbn [foldl].
  rewrite (imap_ext _ (λ j c, (S k + j, c)) l)
    by (intros; unfold compose; f_equal; lia).
  rewrite IH.
  rewrite (imap_ext ((λ j c, (0 + j, c)) ∘ S) (λ j c, (1 + j, c)) l) by done.
  rewrite (IH (pos + Z.of_nat k)%Z 1).
  replace (pos + Z.of_nat (k + 0))%Z with (pos + Z.of_nat k + Z.of_nat (0 + 0))%Z
    by lia.
  replace (pos + Z.of_nat (S k))%Z with (pos + Z.of_nat k + Z.of_nat 1)%Z by lia.
  done.
Qed.

Lemma assign_positions_cons c l pos (am : gmap string Z) :
  assign_positions (c :: l) pos am
  = assign_positions l (pos + 1) (<[c := pos]> am).
Proof.
  unfold assign_positions. rewrite imap_cons. cbn [foldl].
  rewrite (imap_ext (pair ∘ S) (λ j c, (1 + j, c)) l) by done.
  rewrite foldl_imap_shift. by rewrite Z.add_0_r.
Qed.

Lemma assign_positions_app l1 l2 pos (am : gmap string Z) :
  assign_positions (l1 ++ l2) pos am
  = assign_positions l2 (pos + Z.of_nat (length l1)) (assign_positions l1 pos am).
Proof.
  revert pos am. induction l1 as [|c l1 IH]; intros pos am.
  - simpl. by rewrite Z.add_0_r.
  - rewrite <-app_comm_cons, !assign_positions_cons, IH. f_equal. simpl length. lia.
Qed.

Lemma assign_positions_ellipsis (f : nat → string) (pos : Z) (a m : nat)
    (am : gmap string Z) :
  foldl (λ am j, <[f j := (pos + Z.of_nat j)%Z]> am) am (seq a m)
  = assign_positions (f <$> seq a m) (pos + Z.of_nat a) am.
Proof.
  revert a am. induction m as [|m IH]; intros a am; [done|].
  cbn [seq fmap list_fmap foldl]. rewrite assign_positions_cons, IH.
  f_equal. lia.
Qed.

Lemma assign_positions_notin l pos (am : gmap string Z) k :
  k ∉ l → assign_positions l pos am !! k = am !! k.
Proof.
  revert pos am. induction l as [|c l IH]; intros pos am Hk; [done|].
  apply not_elem_of_cons in Hk as [Hkc Hk].
  by rewrite assign_positions_cons, IH, lookup_insert_ne.
Qed.

Lemma assign_positions_lookup l pos (am : gmap string Z) i k :
  NoDup l → l !! i = Some k →
  assign_positions l pos am !! k = Some (pos + Z.of_nat i)%Z.
Proof.
  revert pos am i. induction l as [|c l IH]; intros pos am i Hnd Hi; [done|].
  apply NoDup_cons in Hnd as [Hc Hnd]. rewrite assign_positions_cons.
  destruct i as [|i]; simpl in Hi.
  - injection Hi as ->. rewrite assign_positions_notin by done.
    rewrite lookup_insert_eq. f_equal. lia.
  - rewrite (IH _ _ i) by done. f_equal. lia.
Qed.

(** *** The loop of lines 156-175 on well-formed tokens *)

Lemma length_token_names_ellipsis n : length (token_names n "...") = n.
Proof. by rewrite token_names_ellipsis, length_fmap, length_seq. Qed.

Lemma axis_map_step_wf cs (sd : gmap string Z) n ops am pos ax :
  wf_token ax →
  Forall (λ k, is_Some (sd !! k)) (token_names n ax) →
  axis_map_step cs sd (Z.of_nat n) (ops, am, Z.of_nat pos) ax
  = Ok (ops ++ token_ops sd n pos ax,
        assign_positions (token_names n ax) (Z.of_nat pos) am,
        Z.of_nat (pos + length (token_names n ax))).
Proof.
  intros [->|[Hid|(Ht & Hname & Hmem)]] Hsd.
  - unfold axis_map_step. rewrite bool_decide_eq_true_2 by done.
    rewrite range_of_nat, assign_positions_ellipsis, Z.add_0_r.
    rewrite length_token_names_ellipsis, app_nil_r. do 3 f_equal. lia.
  - unfold axis_map_step, token_ops. rewrite (token_names_ident _ _ Hid).
    rewrite (ident_parse _ Hid). destruct Hid as (Hne & H1 & _).
    rewrite !bool_decide_eq_false_2 by done. simpl.
    by rewrite app_nil_r, assign_positions_cons, Nat2Z.inj_add.
  - destruct (token_names_group n ax Ht) as [Hne Hnames].
    unfold axis_map_step, token_ops. rewrite Hnames in *.
    rewrite !bool_decide_eq_false_2 by done.
    destruct (parse_axis ax) as [name comps]. simpl in *. rewrite Ht.
    rewrite mapR_dict_get_lookups by done. rewrite bind_Ok.
    by rewrite Nat2Z.inj_add.
Qed.

Lemma axis_map_closed cs (sd : gmap string Z) n l :
  Forall wf_token l →
  Forall (λ k, is_Some (sd !! k)) (slot_names n l) →
  ∀ ops am pos,
    foldM (axis_map_step cs sd (Z.of_nat n)) (ops, am, Z.of_nat pos) l
    = Ok (ops ++ ops_of sd n pos l,
          assign_positions (slot_names n l) (Z.of_nat pos) am,
          Z.of_nat (pos + length (slot_names n l))).
Proof.
  induction 1 as [|ax l Hax _ IH]; intros Hsd ops am pos.
  - simpl. rewrite app_nil_r. do 2 f_equal. lia.
  - rewrite slot_names_cons in *. apply Forall_app in Hsd as [Hsd1 Hsd2].
    cbn [foldM]. rewrite axis_map_step_wf, bind_Ok by done.
    rewrite IH by done. cbn [ops_of].
    rewrite assign_positions_app, length_app, app_assoc, Nat2Z.inj_add.
    do 3 f_equal. lia.
Qed.

(** *** The loop of lines 182-204 on well-formed tokens *)

Lemma wrap64_small (z : Z) : (- 2 ^ 63 ≤ z < 2 ^ 63)%Z → wrap64 z = z.
Proof. intros Hz. unfold wrap64. rewrite Z.mod_small; lia. Qed.

Lemma output_ellipsis_closed (sd am : gmap string Z) (l : list nat) fs pm :
  Forall (λ k, is_Some (sd !! k)) (ellipsis_name <$> l) →
  Forall (λ k, is_Some (am !! k)) (ellipsis_name <$> l) →
  foldM (λ '(fs, pm) i,
           d ← dict_get sd (ellipsis_name i);
           p ← dict_get am (ellipsis_name i);
           Ok (fs ++ [d], pm ++ [p])) (fs, pm) l
  = Ok (fs ++ lookups sd (ellipsis_name <$> l),
        pm ++ lookups am (ellipsis_name <$> l)).
Proof.
  revert fs pm. induction l as [|i l IH]; intros fs pm Hsd Ham.
  - simpl. by rewrite !app_nil_r.
  - rewrite fmap_cons in Hsd, Ham.
    apply Forall_cons in Hsd as [[d Hd] Hsd], Ham as [[p Hp] Ham].
    cbn [foldM].
    rewrite (proj2 (dict_get_Ok _ _ _) Hd), bind_Ok.
    rewrite (proj2 (dict_get_Ok _ _ _) Hp), bind_Ok.
    rewrite bind_Ok. rewrite IH by done.
    unfold lookups. rewrite !fmap_cons, Hd, Hp.
    simpl. by rewrite <-!app_assoc.
Qed.

Lemma output_step_wf ins cs (sd am H : gmap string Z) n fs pm ax :
  wf_token ax →
  Forall (λ k, is_Some (sd !! k)) (token_names n ax) →
  Forall (λ k, is_Some (am !! k)) (token_names n ax) →
  (- 2 ^ 63 ≤ prodZ (lookups sd (token_names n ax)) < 2 ^ 63)%Z →
  output_step ins cs sd am H (Z.of_nat n) (fs, pm) ax
  = Ok (fs ++ token_dims sd n ax, pm ++ lookups am (token_names n ax)).
Proof.
  intros [->|[Hid|(Ht & Hname & Hmem)]] Hsd Ham Hb.
  - unfold output_step, token_dims. rewrite parse_axis_ellipsis.
    rewrite !bool_decide_eq_true_2 by done. rewrite range_of_nat.
    by apply output_ellipsis_closed.
  - unfold output_step, token_dims. rewrite (token_names_ident _ _ Hid) in *.
    rewrite (ident_parse _ Hid). destruct Hid as (Hne & _).
    rewrite (bool_decide_eq_false_2 (ax = "...")) by done.
    simpl truthy. cbv iota.
    apply Forall_singleton in Hsd as [d Hd], Ham as [p Hp].
    assert (is_Some (am !! ax)) as Hsome by done.
    rewrite (bool_decide_eq_true_2 (is_Some (am !! ax))) by done.
    rewrite andb_false_r.
    rewrite (proj2 (dict_get_Ok _ _ _) Hd), bind_Ok.
    rewrite (proj2 (dict_get_Ok _ _ _) Hp), bind_Ok.
    unfold lookups. simpl. rewrite Hd, Hp. simpl. unfold prodZ. simpl.
    by rewrite Z.mul_1_r.
  - destruct (token_names_group n ax Ht) as [Hne Hnames].
    unfold output_step, token_dims. rewrite Hnames in *.
    destruct (parse_axis ax) as [name comps]. simpl in *.
    rewrite (bool_decide_eq_false_2 (name = "...")) by done. rewrite Ht.
    rewrite !mapR_dict_get_lookups by done. rewrite !bind_Ok.
    rewrite (bool_decide_eq_false_2 (ax = "...")) by done.
    unfold np_prod. by rewrite wrap64_small.
Qed.

Lemma output_closed ins cs (sd am H : gmap string Z) n l :
  Forall wf_token l →
  Forall (λ k, is_Some (sd !! k)) (slot_names n l) →
  Forall (λ k, is_Some (am !! k)) (slot_names n l) →
  Forall (λ ax, - 2 ^ 63 ≤ prodZ (lookups sd (token_names n ax)) < 2 ^ 63)%Z l →
  ∀ fs pm,
    foldM (output_step ins cs sd am H (Z.of_nat n)) (fs, pm) l
    = Ok (fs ++ side_dims sd n l, pm ++ lookups am (slot_names n l)).
Proof.
  induction 1 as [|ax l Hax _ IH]; intros Hsd Ham Hb fs pm.
  - simpl. by rewrite !app_nil_r.
  - rewrite slot_names_cons in *.
    apply Forall_app in Hsd as [Hsd1 Hsd2], Ham as [Ham1 Ham2].
    apply Forall_cons in Hb as [Hb1 Hb2].
    cbn [foldM]. rewrite output_step_wf, bind_Ok by done.
    rewrite IH by done. rewrite side_dims_cons, lookups_app.
    by rewrite !app_assoc.
Qed.

(** *** The loop of lines 66-94 when every name is hinted *)

Lemma known_sizes_of_values (sd : gmap string Z) comps :
  NoDup comps → Forall (λ k, is_Some (sd !! k)) comps →
  dict_values (known_sizes_of sd comps) ≡ₚ lookups sd comps.
Proof.
  intros Hnd Hsd.
  assert (known_sizes_of sd comps
          = list_to_map ((λ c, (c, default 0%Z (sd !! c))) <$> comps)) as ->.
  { apply map_eq. intros c. rewrite known_sizes_of_lookup.
    destruct (decide (c ∈ comps)) as [Hc|Hc].
    - rewrite Forall_forall in Hsd. destruct (Hsd c Hc) as [v Hv].
      rewrite Hv. symmetry. apply elem_of_list_to_map_1.
      + rewrite <-list_fmap_compose. by rewrite list_fmap_id.
      + apply list_elem_of_fmap. exists c. by rewrite Hv.
    - symmetry. apply not_elem_of_list_to_map_1.
      rewrite <-list_fmap_compose. by rewrite list_fmap_id. }
  unfold dict_values. rewrite map_to_list_to_map.
  - unfold lookups. by rewrite <-list_fmap_compose.
  - rewrite <-list_fmap_compose. by rewrite list_fmap_id.
Qed.

Lemma filter_none {X : Type} (P : X → Prop) `{!∀ x, Decision (P x)} (l : list X) :
  Forall (λ x, ¬ P x) l → filter P l = [].
Proof.
  induction 1 as [|x l Hx _ IH]; [done|].
  by rewrite filter_cons, decide_False.
Qed.

Lemma bind_sizes_ext (sd known : gmap string Z) (r : Z) comps w :
  (∀ c, c ∈ comps → known !! c = sd !! c ∧ is_Some (sd !! c)) →
  foldl (λ sd' comp, <[comp := default r (known !! comp)]> sd') w comps
  = bind_sizes sd comps w.
Proof.
  unfold bind_sizes. revert w. induction comps as [|c comps IH]; intros w Hk; [done|].
  cbn [foldl]. destruct (Hk c) as [-> [v ->]]; [by left|]. simpl.
  apply IH. intros c' Hc'. apply Hk. by right.
Qed.

Lemma resolve_split_exact (sd w : gmap string Z) comps :
  comps ≠ [] → NoDup comps → Forall (λ k, is_Some (sd !! k)) comps →
  (- 2 ^ 63 ≤ prodZ (lookups sd comps) < 2 ^ 63)%Z →
  resolve_split sd comps (prodZ (lookups sd comps)) w
  = Ok (bind_sizes sd comps w).
Proof.
  intros Hne Hnd Hsd Hb. unfold resolve_split.
  assert (∀ c, c ∈ comps →
               known_sizes_of sd comps !! c = sd !! c ∧ is_Some (sd !! c)) as Hk.
  { intros c Hc. rewrite known_sizes_of_lookup, decide_True by done.
    split; [done|]. rewrite Forall_forall in Hsd. auto. }
  rewrite bool_decide_eq_false_2.
  2: { destruct comps as [|c comps]; [done|]. intros He.
       destruct (Hk c) as [Hc [v Hv]]; [by left|].
       rewrite He, Hv, lookup_empty in Hc. done. }
  unfold np_prod. rewrite (prodZ_Permutation _ _ (known_sizes_of_values _ _ Hnd Hsd)).
  rewrite wrap64_small by done.
  assert (np_mod (prodZ (lookups sd comps)) (prodZ (lookups sd comps)) = 0%Z) as ->.
  { unfold np_mod. destruct (prodZ (lookups sd comps) =? 0)%Z eqn:Hz; [done|].
    apply Z.mod_same. by apply Z.eqb_neq. }
  simpl.
  assert (filter (λ c, known_sizes_of sd comps !! c = None) comps = []) as ->.
  { apply filter_none, Forall_forall. intros c Hc.
    destruct (Hk c Hc) as [-> [v ->]]. done. }
  simpl. f_equal. by apply bind_sizes_ext.
Qed.

Lemma bind_sizes_app (sd : gmap string Z) l1 l2 w :
  bind_sizes sd (l1 ++ l2) w = bind_sizes sd l2 (bind_sizes sd l1 w).
Proof. apply foldl_app. Qed.

Lemma bind_sizes_lookup (sd : gmap string Z) names w k :
  bind_sizes sd names w !! k
  = if decide (k ∈ names) then Some (default 0%Z (sd !! k)) else w !! k.
Proof.
  unfold bind_sizes. revert w. induction names as [|c names IH]; intros w.
  - by rewrite decide_False by apply not_elem_of_nil.
  - cbn [foldl]. rewrite IH. destruct (decide (k ∈ names)) as [Hk|Hk].
    + by rewrite decide_True by by right.
    + destruct (decide (c = k)) as [->|Hck].
      * by rewrite lookup_insert_eq, decide_True by by left.
      * rewrite lookup_insert_ne by done. rewrite decide_False; [done|].
        intros [->|?]%elem_of_cons; done.
Qed.

Lemma walk_ellipsis_closed cs (sd : gmap string Z) a m w idx :
  (∀ j, j < m →
        cs !! (idx + j) = Some (default 0%Z (sd !! ellipsis_name (a + j)))) →
  foldM (λ '(sd', idx) i,
           d ← py_index cs (Z.of_nat idx);
           Ok (<[ellipsis_name i := d]> sd', S idx))
        (w, idx) (seq a m)
  = Ok (bind_sizes sd (ellipsis_name <$> seq a m) w, idx + m).
Proof.
  revert a w idx. induction m as [|m IH]; intros a w idx Hcs.
  - simpl. by rewrite Nat.add_0_r.
  - cbn [seq foldM]. cbv beta iota.
    rewrite (py_index_nat cs idx (default 0%Z (sd !! ellipsis_name a))).
    2: { specialize (Hcs 0 ltac:(lia)). by rewrite !Nat.add_0_r in Hcs. }
    rewrite !bind_Ok, IH.
    + rewrite fmap_cons. unfold bind_sizes. cbn [foldl]. do 2 f_equal. lia.
    + intros j Hj. specialize (Hcs (S j) ltac:(lia)).
      by rewrite <-!Nat.add_succ_comm in Hcs.
Qed.

Lemma lookup_drop_app {X : Type} (cs ds rest : list X) idx j :
  drop idx cs = ds ++ rest → j < length ds → cs !! (idx + j) = ds !! j.
Proof.
  intros Hd Hj. by rewrite <-lookup_drop, Hd, lookup_app_l.
Qed.

Lemma lookup_drop_head {X : Type} (cs rest : list X) idx d :
  drop idx cs = d :: rest → cs !! idx = Some d.
Proof.
  intros Hd. rewrite <-(Nat.add_0_r idx), <-lookup_drop. by rewrite Hd.
Qed.

Lemma validate_step_wf cs (sd w : gmap string Z) n idx ax rest :
  wf_token ax →
  drop idx cs = token_dims sd n ax ++ rest →
  Forall (λ k, is_Some (sd !! k)) (token_names n ax) →
  NoDup (token_names n ax) →
  (- 2 ^ 63 ≤ prodZ (lookups sd (token_names n ax)) < 2 ^ 63)%Z →
  validate_step cs sd (Z.of_nat n) (w, idx) ax
  = Ok (bind_sizes sd (token_names n ax) w, idx + length (token_dims sd n ax)).
Proof.
  intros [->|[Hid|(Ht & Hname & Hmem)]] Hd Hsd Hnd Hb.
  - rewrite validate_step_ellipsis, range_of_nat.
    unfold token_dims in *. rewrite bool_decide_eq_true_2 in * by done.
    rewrite length_lookups, length_token_names_ellipsis.
    rewrite token_names_ellipsis in *. apply walk_ellipsis_closed.
    intros j Hj. rewrite (lookup_drop_app _ _ _ _ _ Hd).
    + unfold lookups. rewrite <-list_fmap_compose, list_lookup_fmap.
      by rewrite lookup_seq_lt.
    + by rewrite length_lookups, length_fmap, length_seq.
  - rewrite validate_step_token by apply Hid.
    unfold token_dims in *. rewrite (token_names_ident _ _ Hid) in *.
    rewrite (ident_parse _ Hid). destruct Hid as (Hne & _).
    rewrite (bool_decide_eq_false_2 (ax = "...")) in * by done.
    rewrite (py_index_nat cs idx (prodZ (lookups sd [ax]))).
    2: { by apply lookup_drop_head in Hd. }
    rewrite bind_Ok. simpl. unfold prodZ, lookups, bind_sizes. simpl.
    rewrite Z.mul_1_r. do 2 f_equal. lia.
  - destruct (token_names_group n ax Ht) as [Hne Hnames].
    rewrite validate_step_token by done.
    unfold token_dims in *. rewrite Hnames in *.
    rewrite (bool_decide_eq_false_2 (ax = "...")) in * by done.
    rewrite (py_index_nat cs idx
               (prodZ (lookups sd (components_of (parse_axis ax).2)))).
    2: { by apply lookup_drop_head in Hd. }
    rewrite bind_Ok, Ht. rewrite resolve_split_exact; try done.
    + rewrite bind_Ok. simpl. do 2 f_equal. lia.
    + destruct (parse_axis ax).2 as [[|]|]; done.
Qed.

Lemma walk_closed cs (sd : gmap string Z) n l :
  Forall wf_token l →
  Forall (λ k, is_Some (sd !! k)) (slot_names n l) →
  NoDup (slot_names n l) →
  Forall (λ ax, - 2 ^ 63 ≤ prodZ (lookups sd (token_names n ax)) < 2 ^ 63)%Z l →
  ∀ w idx rest,
    drop idx cs = side_dims sd n l ++ rest →
    foldM (validate_step cs sd (Z.of_nat n)) (w, idx) l
    = Ok (bind_sizes sd (slot_names n l) w, idx + length (side_dims sd n l)).
Proof.
  induction 1 as [|ax l Hax _ IH]; intros Hsd Hnd Hb w idx rest Hd.
  - simpl. by rewrite Nat.add_0_r.
  - rewrite slot_names_cons in *. rewrite side_dims_cons in *.
    apply Forall_app in Hsd as [Hsd1 Hsd2].
    apply NoDup_app in Hnd as (Hnd1 & _ & Hnd2).
    apply Forall_cons in Hb as [Hb1 Hb2].
    rewrite <-app_assoc in Hd.
    cbn [foldM]. rewrite (validate_step_wf _ _ _ _ _ _ _ Hax Hd) by done.
    rewrite bind_Ok.
    rewrite (IH Hsd2 Hnd2 Hb2 _ _ rest).
    + rewrite bind_sizes_app, length_app. do 2 f_equal. lia.
    + rewrite <-drop_drop, Hd. by rewrite drop_app_length.
Qed.


(** ** Calls of numpy that succeed *)

Lemma prodZ_prefix_le (l1 l2 : list Z) :
  Forall (λ d, 0 < d)%Z (l1 ++ l2) → (0 < prodZ l1 ≤ prodZ (l1 ++ l2))%Z.
Proof.
  intros [H1 H2]%Forall_app. rewrite prodZ_app.
  pose proof (prodZ_pos _ H1). pose proof (prodZ_pos _ H2). nia.
Qed.

Lemma known_size_pos_acc (dims : list Z) (s : Z) :
  Forall (λ d, 0 < d)%Z dims → (0 < s)%Z → (s * prodZ dims < 2 ^ 63)%Z →
  foldl (λ acc d,
           s ← acc;
           if (d <? 0)%Z then Some s
           else if (s * d <? 2 ^ 63)%Z then Some (s * d)%Z else None)
        (Some s) dims = Some (s * prodZ dims)%Z.
Proof.
  intros Hpos. revert s. induction Hpos as [|d dims Hd Hdims IH]; intros s Hs Hb.
  - simpl. unfold prodZ. simpl. f_equal. lia.
  - rewrite prodZ_cons in *. pose proof (prodZ_pos _ Hdims) as Hp.
    cbn [foldl]. simpl.
    rewrite (proj2 (Z.ltb_ge d 0)) by lia.
    rewrite (proj2 (Z.ltb_lt (s * d) (2 ^ 63))) by nia.
    rewrite IH by nia. f_equal. lia.
Qed.

Lemma known_size_pos (dims : list Z) :
  Forall (λ d, 0 < d)%Z dims → (prodZ dims < 2 ^ 63)%Z →
  known_size dims = Some (prodZ dims).
Proof.
  intros Hpos Hb. unfold known_size.
  rewrite known_size_pos_acc by (done || lia). f_equal. lia.
Qed.

Lemma filter_neg_pos (l : list Z) :
  Forall (λ d, 0 < d)%Z l → filter (λ d, (d < 0)%Z) l = [].
Proof.
  intros Hl. apply filter_none. eapply Forall_impl; [exact Hl|].
  intros d Hd. simpl in *. lia.
Qed.

(** A reshape to positive dimensions of the same product. *)
Lemma np_reshape_exact {A : Type} (a : ndarray A) (newshape : list Z) :
  Forall (λ d, 0 < d)%Z newshape →
  prodZ newshape = Z.of_nat (size a) → (Z.of_nat (size a) < 2 ^ 63)%Z →
  np_reshape a newshape = Ok (mk_ndarray (Z.to_nat <$> newshape) (data a)).
Proof.
  intros Hpos Hprod Hb. unfold np_reshape.
  rewrite filter_neg_pos by done.
  rewrite known_size_pos by (done || lia).
  by rewrite Hprod, Z.eqb_refl.
Qed.

Lemma to_nat_of_nat (l : list nat) : Z.to_nat <$> (Z.of_nat <$> l) = l.
Proof.
  rewrite <-list_fmap_compose. rewrite <-(list_fmap_id l) at 2.
  apply list_fmap_ext. intros i d _. simpl. lia.
Qed.

Lemma of_nat_to_nat (l : list Z) :
  Forall (λ d, 0 ≤ d)%Z l → Z.of_nat <$> (Z.to_nat <$> l) = l.
Proof.
  intros Hl. rewrite <-list_fmap_compose. rewrite <-(list_fmap_id l) at 2.
  apply Forall_fmap_ext_1. eapply Forall_impl; [exact Hl|].
  intros d Hd. simpl in *. lia.
Qed.

Lemma offset_zeroed (idx sh strd : list nat) :
  Forall2 lt idx sh →
  offset idx (zip_with (λ s k, if s =? 1 then 0 else k) sh strd)
  = offset idx strd.
Proof.
  intros Hv. revert strd. induction Hv as [|i s idx sh Hi Hv IH]; intros strd.
  - done.
  - destruct strd as [|k strd]; [by destruct idx|].
    cbn [zip_with]. rewrite !offset_cons, IH.
    destruct (s =? 1) eqn:Hs; [|done].
    apply Nat.eqb_eq in Hs. assert (i = 0) as -> by lia. done.
Qed.

(** A broadcast to the shape the array already has. *)
Lemma np_broadcast_to_same {A : Type} (a : ndarray A) :
  length (data a) = size a →
  np_broadcast_to a (Z.of_nat <$> shape a) = Ok a.
Proof.
  intros Hlen. unfold np_broadcast_to.
  assert (existsb (λ d, (d <? 0)%Z) (Z.of_nat <$> shape a) = false) as ->.
  { apply not_true_iff_false. intros (d & Hd & Hneg)%existsb_exists.
    apply in_map_iff in Hd as (s & <- & _). by rewrite Z_of_nat_ltb_0 in Hneg. }
  rewrite length_fmap, Nat.ltb_irrefl, Nat.sub_diag. simpl replicate.
  rewrite !app_nil_l, to_nat_of_nat.
  assert (forallb (λ '(s, t), (s =? t) || (s =? 1)) (zip (shape a) (shape a))
          = true) as ->.
  { apply forallb_forall. intros [s t] Hst%list_elem_of_In.
    rewrite zip_diag in Hst. apply list_elem_of_fmap in Hst as (s' & [= -> ->] & _).
    by rewrite Nat.eqb_refl. }
  destruct a as [sh dat]. simpl in *. do 2 f_equal.
  apply gather_Forall2.
  eapply Forall2_impl; [apply (gather_identity dat sh Hlen)|].
  intros idx x [Hv Hx]. simpl. by rewrite offset_zeroed.
Qed.

(** A transposition by a permutation of the axes; with no axes at all the
    program does not call numpy, and the array has one element. *)
Lemma transpose_step_closed {A : Type} (sh : list nat) (dat : list A)
    (p : list nat) tr :
  length dat = prodn sh → p ≡ₚ seq 0 (length sh) →
  (transpose_step (Z.of_nat <$> p) (mk_ndarray sh dat) tr).2
  = Ok (mk_ndarray (take_axes sh p)
          (gather dat (take_axes sh p) (take_axes (strides sh) p))).
Proof.
  intros Hlen Hp. destruct p as [|i p].
  - apply Permutation_nil_l in Hp. symmetry in Hp.
    destruct sh; [|done]. simpl in *.
    destruct dat as [|d [|]]; done.
  - pose proof (np_transpose_nat (mk_ndarray sh dat) (i :: p) Hp) as Ht.
    simpl in Ht. simpl. by rewrite Ht.
Qed.

(** ** Positions of names *)

Section positions.
Context (L1 : list string).
Hypothesis nodup : NoDup L1.

Lemma positions_of_lookup i k :
  L1 !! i = Some k → positions_of L1 !! k = Some (Z.of_nat i).
Proof.
  intros Hi. unfold positions_of.
  by rewrite (assign_positions_lookup _ _ _ i k nodup Hi), Z.add_0_l.
Qed.

Lemma slot_positions_self :
  slot_positions (positions_of L1) L1 = seq 0 (length L1).
Proof.
  apply list_eq. intros i. unfold slot_positions. rewrite list_lookup_fmap.
  destruct (L1 !! i) as [k|] eqn:Hk; simpl.
  - rewrite (positions_of_lookup _ _ Hk). simpl. rewrite Nat2Z.id.
    symmetry. apply lookup_seq. split; [done|]. by apply lookup_lt_Some in Hk.
  - symmetry. apply lookup_seq_ge. by apply lookup_ge_None in Hk.
Qed.

Lemma slot_positions_perm L2 :
  L2 ≡ₚ L1 → slot_positions (positions_of L1) L2 ≡ₚ seq 0 (length L1).
Proof.
  intros Hp. rewrite <-slot_positions_self. unfold slot_positions.
  by apply fmap_Permutation.
Qed.

Lemma lookups_positions L2 :
  L2 ⊆ L1 →
  lookups (positions_of L1) L2
  = Z.of_nat <$> slot_positions (positions_of L1) L2.
Proof.
  intros Hsub. unfold lookups, slot_positions. rewrite <-list_fmap_compose.
  apply Forall_fmap_ext_1, Forall_forall. intros k Hk.
  apply Hsub, list_elem_of_lookup in Hk as [i Hi].
  unfold compose. rewrite (positions_of_lookup _ _ Hi). simpl.
  by rewrite Nat2Z.id.
Qed.

(** Taking along the positions of [L2] carries a list indexed by [L1] to
    the list indexed by [L2]. *)
Lemma take_axes_positions (f : string → nat) L2 :
  L2 ⊆ L1 →
  take_axes (f <$> L1) (slot_positions (positions_of L1) L2) = f <$> L2.
Proof.
  intros Hsub. unfold take_axes, slot_positions. rewrite <-list_fmap_compose.
  apply Forall_fmap_ext_1, Forall_forall. intros k Hk.
  apply Hsub, list_elem_of_lookup in Hk as [i Hi].
  unfold compose. rewrite (positions_of_lookup _ _ Hi). simpl.
  by rewrite Nat2Z.id, list_lookup_fmap, Hi.
Qed.

End positions.

(** The positions of two sides with the same names are inverse
    permutations. *)
Lemma slot_positions_inverse (L1 L2 : list string) :
  NoDup L1 → L1 ≡ₚ L2 →
  take_axes (slot_positions (positions_of L1) L2)
            (slot_positions (positions_of L2) L1)
  = seq 0 (length L1).
Proof.
  intros Hnd Hp. assert (NoDup L2) as Hnd2 by by rewrite <-Hp.
  unfold slot_positions at 1.
  rewrite (take_axes_positions L2 Hnd2).
  - by apply slot_positions_self.
  - intros k. by rewrite Hp.
Qed.

(** ** Names and dimensions of well-formed sides *)

Lemma prefix_app_self (s t : string) : String.prefix s (s +:+ t) = true.
Proof.
  induction s as [|c s IH]; sapp; [by destruct t|].
  simpl. by destruct (ascii_dec c c).
Qed.



Lemma wf_token_names n ax k :
  wf_token ax → k ∈ token_names n ax →
  (ax = "..." ∧ ∃ j, j < n ∧ k = ellipsis_name j) ∨ (ax ≠ "..." ∧ ident k).
Proof.
  intros [->|[Hid|(Ht & Hname & Hmem)]] Hk.
  - left. split; [done|]. rewrite token_names_ellipsis in Hk.
    apply list_elem_of_fmap in Hk as (j & -> & Hj%elem_of_seq). exists j.
    split; [lia|done].
  - right. rewrite (token_names_ident _ _ Hid) in Hk.
    apply list_elem_of_singleton in Hk as ->. split; [apply Hid|done].
  - right. destruct (token_names_group n ax Ht) as [Hne Hnames].
    split; [done|]. rewrite Hnames in Hk. rewrite Forall_forall in Hmem. auto.
Qed.

Lemma token_dims_no_group sd n ax :
  truthy (parse_axis ax).2 = false →
  token_dims sd n ax = lookups sd (token_names n ax).
Proof.
  intros Ht. unfold token_dims, token_names.
  destruct (bool_decide (ax = "...")); [done|]. rewrite Ht.
  unfold lookups, prodZ. simpl. by rewrite Z.mul_1_r.
Qed.

Lemma token_dims_group sd n ax :
  truthy (parse_axis ax).2 = true →
  token_dims sd n ax = [prodZ (lookups sd (token_names n ax))].
Proof.
  intros [Hne _]%(token_names_group n). unfold token_dims.
  by rewrite bool_decide_eq_false_2.
Qed.

Lemma wf_token_truthy ax :
  wf_token ax → truthy (parse_axis ax).2 = has_parens ax.
Proof.
  intros [->|[Hid|(Ht & _)]].
  - done.
  - rewrite (ident_parse _ Hid). symmetry. apply Hid.
  - rewrite Ht. destruct (parse_axis ax) as [name [comps|]] eqn:Hp; [|done].
    symmetry. by apply parse_axis_some_parens in Hp as [_ ?].
Qed.

Lemma side_dims_no_groups sd n l :
  Forall wf_token l → existsb has_parens l = false →
  side_dims sd n l = lookups sd (slot_names n l).
Proof.
  induction 1 as [|ax l Hax _ IH]; [done|].
  cbn [existsb]. intros [Hp Hl]%orb_false_iff.
  rewrite side_dims_cons, slot_names_cons, lookups_app, IH by done.
  rewrite token_dims_no_group; [done|]. by rewrite wf_token_truthy.
Qed.

Lemma prodZ_token_dims sd n ax :
  prodZ (token_dims sd n ax) = prodZ (lookups sd (token_names n ax)).
Proof.
  unfold token_dims. destruct (bool_decide (ax = "...")); [done|].
  unfold prodZ at 1. simpl. by rewrite Z.mul_1_r.
Qed.

Lemma prodZ_side_dims sd n l :
  prodZ (side_dims sd n l) = prodZ (lookups sd (slot_names n l)).
Proof.
  induction l as [|ax l IH]; [done|].
  by rewrite side_dims_cons, slot_names_cons, lookups_app, !prodZ_app,
    prodZ_token_dims, IH.
Qed.

Lemma token_dims_pos sd n ax :
  Forall (λ d, 0 < d)%Z (lookups sd (token_names n ax)) →
  Forall (λ d, 0 < d)%Z (token_dims sd n ax).
Proof.
  intros Hpos. unfold token_dims. destruct (bool_decide (ax = "...")); [done|].
  apply Forall_singleton. by apply prodZ_pos.
Qed.

Lemma side_dims_pos sd n l :
  Forall (λ d, 0 < d)%Z (lookups sd (slot_names n l)) →
  Forall (λ d, 0 < d)%Z (side_dims sd n l).
Proof.
  induction l as [|ax l IH]; [done|].
  rewrite side_dims_cons, slot_names_cons, lookups_app.
  intros [H1 H2]%Forall_app. apply Forall_app. split; [|auto].
  by apply token_dims_pos.
Qed.

(** The product of the members of a token is at most the product of all
    slots. *)
Lemma token_bounds sd n l :
  Forall (λ d, 0 < d)%Z (lookups sd (slot_names n l)) →
  Forall (λ ax, 0 < prodZ (lookups sd (token_names n ax))
                ≤ prodZ (lookups sd (slot_names n l)))%Z l.
Proof.
  induction l as [|ax l IH]; [done|].
  rewrite slot_names_cons, lookups_app. intros Hpos.
  pose proof (prodZ_prefix_le _ _ Hpos) as Hle.
  apply Forall_app in Hpos as [H1 H2].
  pose proof (prodZ_pos _ H1) as Hp1. pose proof (prodZ_pos _ H2) as Hp2.
  constructor; [done|].
  eapply Forall_impl; [apply IH, H2|]. intros ax' Hax'. simpl in *.
  rewrite prodZ_app. nia.
Qed.

Lemma lookups_pos (sd : gmap string Z) names :
  Forall (λ k, ∃ v, sd !! k = Some v ∧ (0 < v)%Z) names →
  Forall (λ d, 0 < d)%Z (lookups sd names)
  ∧ Forall (λ k, is_Some (sd !! k)) names.
Proof.
  intros Hn. split.
  - unfold lookups. apply Forall_fmap. eapply Forall_impl; [exact Hn|].
    intros k (v & Hk & Hv). simpl. by rewrite Hk.
  - eapply Forall_impl; [exact Hn|]. intros k (v & Hk & _). by rewrite Hk.
Qed.

(** *** Counting the dimensions of a side *)

Lemma length_token_dims sd n ax :
  length (token_dims sd n ax) = if bool_decide (ax = "...") then n else 1.
Proof.
  unfold token_dims. case_bool_decide as Hax; [|done]. subst.
  by rewrite length_lookups, length_token_names_ellipsis.
Qed.

Lemma length_side_dims sd n l :
  length (side_dims sd n l)
  = length (filter (λ ax, ax ≠ "...") l)
    + n * length (filter (λ ax, ax = "...") l).
Proof.
  induction l as [|ax l IH]; [simpl; lia|].
  rewrite side_dims_cons, length_app, length_token_dims, IH, !filter_cons.
  case_bool_decide as Hax.
  - rewrite decide_False, decide_True by (done || by intros []). simpl. lia.
  - rewrite decide_True, decide_False by done. simpl. lia.
Qed.


(** ** The executing part on a well-formed side *)

Lemma py_take_app {X : Type} (l1 l2 : list X) :
  py_take (l1 ++ l2) (Z.of_nat (length l1)) = l1.
Proof.
  unfold py_take. by rewrite Z_of_nat_ltb_0, Nat2Z.id, take_app_length.
Qed.

Lemma py_drop_app {X : Type} (l1 l2 : list X) (d : X) :
  py_drop (l1 ++ d :: l2) (Z.of_nat (length l1) + 1) = l2.
Proof.
  unfold py_drop. rewrite (proj2 (Z.ltb_ge _ 0)) by lia.
  replace (Z.to_nat (Z.of_nat (length l1) + 1)) with (length l1 + 1) by lia.
  by rewrite <-drop_drop, drop_app_length.
Qed.

Lemma apply_ops_closed {A : Type} (sd : gmap string Z) n (D : list A) l :
  Forall wf_token l →
  Forall (λ d, 0 < d)%Z (lookups sd (slot_names n l)) →
  ∀ done rest tr,
    Forall (λ d, 0 < d)%Z done → Forall (λ d, 0 < d)%Z rest →
    (prodZ (done ++ side_dims sd n l ++ rest) < 2 ^ 63)%Z →
    ∃ tr',
      apply_ops (ops_of sd n (length done) l)
        (mk_ndarray (Z.to_nat <$> done ++ side_dims sd n l ++ rest) D)
        (done ++ side_dims sd n l ++ rest) tr
      = (tr', Ok (mk_ndarray
                    (Z.to_nat <$> done ++ lookups sd (slot_names n l) ++ rest) D,
                  done ++ lookups sd (slot_names n l) ++ rest)).
Proof.
  induction 1 as [|ax l Hax Hl IH]; intros Hpos done rest tr Hdone Hrest Hb.
  - by exists tr.
  - rewrite slot_names_cons, lookups_app in Hpos.
    apply Forall_app in Hpos as [Hpos1 Hpos2].
    rewrite side_dims_cons, slot_names_cons, lookups_app in *.
    cbn [ops_of]. unfold token_ops.
    destruct (truthy (parse_axis ax).2) eqn:Ht.
    + destruct (token_names_group n ax Ht) as [Hne Hnames].
      rewrite bool_decide_eq_false_2 by done.
      rewrite (token_dims_group _ _ _ Ht) in *.
      assert (prodZ (done ++ lookups sd (token_names n ax)
                       ++ side_dims sd n l ++ rest)
              = prodZ (done ++ ([prodZ (lookups sd (token_names n ax))]
                                  ++ side_dims sd n l) ++ rest)) as Hprod.
      { rewrite !prodZ_app. unfold prodZ at 6. simpl. lia. }
      assert (Forall (λ d, 0 ≤ d)%Z
                (done ++ ([prodZ (lookups sd (token_names n ax))]
                            ++ side_dims sd n l) ++ rest)) as Hnonneg.
      { eapply Forall_impl.
        - repeat (apply Forall_app; split); [exact Hdone| | |exact Hrest].
          + apply Forall_singleton. by apply prodZ_pos.
          + by apply side_dims_pos.
        - intros d Hd. simpl in *. lia. }
      cbn [app apply_ops]. unfold bbind, bcall.
      rewrite py_take_app, py_drop_app.
      rewrite np_reshape_exact.
      * specialize (IH Hpos2 (done ++ lookups sd (token_names n ax)) rest
                      (tr ++ [PReshape (done ++ lookups sd (token_names n ax)
                                          ++ side_dims sd n l ++ rest)])).
        rewrite length_app, length_lookups in IH.
        rewrite <-!app_assoc in IH. rewrite <-!app_assoc.
        apply IH; [by apply Forall_app|done|]. by rewrite Hprod.
      * repeat (apply Forall_app; split); try done. by apply side_dims_pos.
      * unfold size. simpl. by rewrite prodn_to_nat.
      * unfold size. simpl. by rewrite prodn_to_nat.
    + rewrite (token_dims_no_group _ _ _ Ht) in *.
      assert ((if bool_decide (ax = "...") then [] else @nil op) = []) as ->
        by by destruct (bool_decide _).
      cbn [app].
      specialize (IH Hpos2 (done ++ lookups sd (token_names n ax)) rest tr).
      rewrite length_app, length_lookups in IH.
      rewrite <-!app_assoc in IH. rewrite <-!app_assoc.
      apply IH; [by apply Forall_app|done|].
      by rewrite <-!app_assoc in Hb.
Qed.

(** ** The checks on well-formed sides *)

Lemma check_rank_ok hs hm ell rank nbase (n : nat) :
  (rank - nbase)%Z = Z.of_nat n →
  (hs = true → n = 0) →
  (hs = false → hm = false → ell = false → n = 0) →
  check_rank hs hm ell rank nbase = Ok ().
Proof.
  intros Hn Hs He. unfold check_rank. destruct hs; simpl.
  - specialize (Hs eq_refl). rewrite (proj2 (Z.eqb_eq nbase rank)) by lia. done.
  - destruct hm; simpl; [done|]. destruct ell.
    + rewrite (proj2 (Z.ltb_ge _ 0)) by lia. done.
    + specialize (He eq_refl eq_refl eq_refl).
      rewrite (proj2 (Z.eqb_eq nbase rank)) by lia. done.
Qed.

Lemma check_merge_ok hm (sd : gmap string Z) n outs :
  Forall wf_token outs →
  Forall (λ k, is_Some (sd !! k)) (slot_names n outs) →
  check_merge hm outs sd = Ok ().
Proof.
  intros Hwf Hsd. unfold check_merge. destruct hm; [|done].
  rewrite bool_decide_eq_true_2; [done|].
  set (X := dom sd ∖ filter (λ k, String.prefix "_ellipsis_" k = true) (dom sd)).
  assert (∀ acc : gset string, acc ⊆ X →
            foldl (λ acc ax,
                     let '(_, comps) := parse_axis ax in
                     if truthy comps then acc ∪ list_to_set (components_of comps)
                     else acc) acc outs ⊆ X) as Hfold; [|by apply Hfold].
  induction Hwf as [|ax l Hax _ IH]; intros acc Hacc; [done|].
  rewrite slot_names_cons in Hsd. apply Forall_app in Hsd as [Hsd1 Hsd2].
  cbn [foldl]. apply IH; [done|].
  destruct (parse_axis ax) as [name comps] eqn:Hp.
  destruct (truthy comps) eqn:Ht; [|done].
  assert (truthy (parse_axis ax).2 = true) as Ht' by by rewrite Hp.
  destruct (token_names_group n ax Ht') as [Hne Hnames].
  rewrite Hp in Hnames. simpl in Hnames.
  apply union_subseteq. split; [done|]. intros k Hk%elem_of_list_to_set.
  rewrite <-Hnames in Hk.
  destruct (wf_token_names n ax k Hax Hk) as [[? _]|[_ (_ & _ & _ & Hpre)]];
    [done|].
  rewrite Forall_forall in Hsd1. specialize (Hsd1 k Hk).
  apply elem_of_difference. split; [by apply elem_of_dom|].
  intros [Hpre' _]%elem_of_filter. congruence.
Qed.

Lemma check_output_ok (sd : gmap string Z) n outs :
  Forall wf_token outs →
  Forall (λ k, is_Some (sd !! k)) (slot_names n outs) →
  check_output outs sd = Ok ().
Proof.
  intros Hwf Hsd. unfold check_output.
  induction Hwf as [|ax l Hax _ IH]; [done|].
  rewrite slot_names_cons in Hsd. apply Forall_app in Hsd as [Hsd1 Hsd2].
  cbn [foldM].
  assert ((let '(name, comps) := parse_axis ax in
           if negb (bool_decide (name = "...")) && negb (truthy comps)
              && negb (bool_decide (is_Some (sd !! name)))
           then Raise (Error MsgUnknownAxis) else Ok ()) = Ok ()) as ->;
    [|rewrite bind_Ok; auto].
  destruct Hax as [->|[Hid|(Ht & _)]].
  - done.
  - rewrite (token_names_ident _ _ Hid), Forall_singleton in Hsd1.
    rewrite (ident_parse _ Hid).
    rewrite (bool_decide_eq_true_2 (is_Some (sd !! ax))) by done.
    simpl. by rewrite andb_false_r.
  - destruct (parse_axis ax) as [name comps]. simpl in Ht.
    by rewrite Ht, andb_false_r.
Qed.

Lemma broadcast_closed (sd H : gmap string Z) n l :
  Forall wf_token l →
  Forall (λ k, is_Some (sd !! k)) (slot_names n l) →
  existsb has_parens l = false →
  ∀ bs, foldM (broadcast_step sd H (Z.of_nat n)) bs l
        = Ok (bs ++ lookups sd (slot_names n l)).
Proof.
  induction 1 as [|ax l Hax _ IH]; intros Hsd Hng bs.
  - simpl. by rewrite app_nil_r.
  - rewrite slot_names_cons in *. apply Forall_app in Hsd as [Hsd1 Hsd2].
    cbn [existsb] in Hng. apply orb_false_iff in Hng as [Hp Hng].
    cbn [foldM].
    assert (broadcast_step sd H (Z.of_nat n) bs ax
            = Ok (bs ++ lookups sd (token_names n ax))) as ->.
    { unfold broadcast_step.
      pose proof (wf_token_truthy ax Hax) as Htr. rewrite Hp in Htr.
      destruct Hax as [->|[Hid|(Ht & _)]].
      - rewrite bool_decide_eq_true_2 by done. rewrite range_of_nat.
        rewrite token_names_ellipsis in *.
        rewrite (mapR_dict_get sd ellipsis_name (seq 0 n)
                   (lookups sd (ellipsis_name <$> seq 0 n))); [done|].
        unfold lookups. rewrite <-list_fmap_compose. apply Forall2_fmap_r.
        apply Forall_Forall2_diag. rewrite Forall_fmap in Hsd1.
        eapply Forall_impl; [exact Hsd1|]. intros j [v Hv]. simpl in *.
        by rewrite Hv.
      - rewrite (token_names_ident _ _ Hid) in *.
        apply Forall_singleton in Hsd1 as [v Hv].
        rewrite (ident_parse _ Hid). destruct Hid as (Hne & _).
        rewrite bool_decide_eq_false_2 by done. simpl.
        unfold lookups. simpl. by rewrite Hv.
      - congruence. }
    rewrite bind_Ok, IH by done. by rewrite lookups_app, app_assoc.
Qed.

Lemma side_dims_nil sd n l : side_dims sd n l = [] → slot_names n l = [].
Proof.
  induction l as [|ax l IH]; [done|].
  rewrite side_dims_cons, slot_names_cons.
  intros [Ht Hl]%app_eq_nil. rewrite (IH Hl), app_nil_r.
  unfold token_dims in Ht. destruct (bool_decide (ax = "...")); [|done].
  unfold lookups in Ht. by apply fmap_nil_inv in Ht.
Qed.

(** ** A call on a well-formed pattern *)

Section run.
Context {A : Type} (x : ndarray A) (pattern : string) (ins outs : list string).
Context (n : nat) (sd H : gmap string Z).
Hypothesis parsed : parser pattern = Ok (ins, outs).
Hypothesis wf_ins : Forall wf_token ins.
Hypothesis wf_outs : Forall wf_token outs.
Hypothesis nodup : NoDup (slot_names n ins).
Hypothesis perm : slot_names n ins ≡ₚ slot_names n outs.
Hypothesis sized :
  Forall (λ k, ∃ v, sd !! k = Some v ∧ (0 < v)%Z) (slot_names n ins).
Hypothesis shaped : Z.of_nat <$> shape x = side_dims sd n ins.
Hypothesis wf_x : wf_array x.
Hypothesis width :
  (Z.of_nat (length (shape x))
   - Z.of_nat (length (filter (λ ax, ax ≠ "...") ins)))%Z = Z.of_nat n.
Hypothesis split_width : existsb has_parens ins = true → n = 0.
Hypothesis validated : validate_shapes x ins outs H = Ok sd.

Local Notation "'names_in'" := (slot_names n ins).
Local Notation "'names_out'" := (slot_names n outs).
Local Notation "'S1'" := (Z.to_nat <$> lookups sd (slot_names n ins)).
Local Notation "'am'" := (positions_of (slot_names n ins)).
Local Notation "'p'" := (slot_positions (positions_of (slot_names n ins))
                          (slot_names n outs)).
Local Notation "'q'" := (slot_positions (positions_of (slot_names n outs))
                          (slot_names n ins)).

Lemma sized_out :
  Forall (λ k, ∃ v, sd !! k = Some v ∧ (0 < v)%Z) names_out.
Proof. by rewrite <-perm. Qed.

Lemma total_in : prodZ (lookups sd names_in) = Z.of_nat (size x).
Proof. by rewrite <-prodZ_side_dims, <-shaped, prodZ_of_nat. Qed.

Lemma total_out : prodZ (lookups sd names_out) = Z.of_nat (size x).
Proof.
  rewrite <-total_in. apply prodZ_Permutation. unfold lookups.
  by apply fmap_Permutation.
Qed.

Lemma bounds_in :
  Forall (λ ax, - 2 ^ 63 ≤ prodZ (lookups sd (token_names n ax)) < 2 ^ 63)%Z ins.
Proof.
  destruct wf_x as [_ Hb]. destruct (lookups_pos _ _ sized) as [Hpos _].
  eapply Forall_impl; [apply (token_bounds sd n ins Hpos)|].
  intros ax Hax. simpl in *. rewrite total_in in Hax. lia.
Qed.

Lemma bounds_out :
  Forall (λ ax, - 2 ^ 63 ≤ prodZ (lookups sd (token_names n ax)) < 2 ^ 63)%Z outs.
Proof.
  destruct wf_x as [_ Hb]. destruct (lookups_pos _ _ sized_out) as [Hpos _].
  eapply Forall_impl; [apply (token_bounds sd n outs Hpos)|].
  intros ax Hax. simpl in *. rewrite total_out in Hax. lia.
Qed.

Lemma rank_checked :
  check_rank (existsb has_parens ins) (existsb has_parens outs)
    (bool_decide ("..." ∈ ins) || bool_decide ("..." ∈ outs))
    (Z.of_nat (length (shape x)))
    (Z.of_nat (length (filter (λ ax, ax ≠ "...") ins))) = Ok ().
Proof.
  apply (check_rank_ok _ _ _ _ _ n width split_width).
  intros _ _ [Hin _]%orb_false_iff. apply bool_decide_eq_false in Hin.
  pose proof (f_equal length shaped) as Hlen.
  rewrite length_fmap, length_side_dims in Hlen.
  rewrite (filter_none (λ ax, ax = "...") ins) in Hlen.
  - simpl in Hlen. lia.
  - apply Forall_forall. by intros ax Hax ->.
Qed.

Lemma positions_bound : Forall (λ k, is_Some (am !! k)) names_out.
Proof.
  apply Forall_forall. intros k Hk. rewrite <-perm in Hk.
  apply list_elem_of_lookup in Hk as [i Hi].
  by rewrite (positions_of_lookup _ nodup _ _ Hi).
Qed.

Lemma compile_closed :
  compile x pattern H
  = Ok (mk_plan ins outs (existsb has_parens ins) (existsb has_parens outs)
          (Z.of_nat n) sd (Z.of_nat <$> shape x) (ops_of sd n 0 ins) am
          (side_dims sd n outs) (lookups am names_out)).
Proof.
  destruct (lookups_pos _ _ sized) as [_ Hin].
  destruct (lookups_pos _ _ sized_out) as [_ Hout].
  unfold compile. rewrite parsed, bind_Ok. cbv beta iota zeta.
  rewrite rank_checked, bind_Ok, validated, bind_Ok.
  rewrite (check_merge_ok _ sd n outs wf_outs Hout), bind_Ok.
  rewrite (check_output_ok sd n outs wf_outs Hout), bind_Ok.
  rewrite width.
  pose proof (axis_map_closed (Z.of_nat <$> shape x) sd n ins wf_ins Hin [] ∅ 0)
    as Ham.
  change (Z.of_nat 0) with 0%Z in Ham. rewrite Ham, bind_Ok. cbv beta iota.
  rewrite (output_closed ins (Z.of_nat <$> shape x) sd _ H n outs wf_outs Hout
             positions_bound bounds_out [] []).
  by rewrite bind_Ok.
Qed.

Lemma perm_p : p ≡ₚ seq 0 (length S1).
Proof.
  rewrite length_fmap, length_lookups. by apply slot_positions_perm.
Qed.

Lemma perm_q : q ≡ₚ seq 0 (length S1).
Proof.
  rewrite length_fmap, length_lookups, (Permutation_length perm).
  apply slot_positions_perm; [by rewrite <-perm|done].
Qed.

Lemma inverse_pq : take_axes p q = seq 0 (length S1).
Proof.
  rewrite length_fmap, length_lookups. by apply slot_positions_inverse.
Qed.

Lemma shape_out : take_axes S1 p = Z.to_nat <$> lookups sd names_out.
Proof.
  unfold lookups. rewrite <-!list_fmap_compose.
  apply take_axes_positions; [done|]. intros k. by rewrite perm.
Qed.

Lemma length_data : length (data x) = prodn S1.
Proof.
  destruct wf_x as [-> _]. apply Nat2Z.inj.
  destruct (lookups_pos _ _ sized) as [Hpos _].
  rewrite prodn_to_nat, total_in; [done|].
  eapply Forall_impl; [exact Hpos|]. intros d Hd. simpl in *. lia.
Qed.

Lemma execute_closed tr :
  (execute x H
     (mk_plan ins outs (existsb has_parens ins) (existsb has_parens outs)
        (Z.of_nat n) sd (Z.of_nat <$> shape x) (ops_of sd n 0 ins) am
        (side_dims sd n outs) (lookups am names_out)) tr).2
  = Ok (mk_ndarray (Z.to_nat <$> side_dims sd n outs)
          (gather (data x) (take_axes S1 p) (take_axes (strides S1) p))).
Proof.
  destruct (lookups_pos _ _ sized) as [Hpos_in Hin].
  destruct (lookups_pos _ _ sized_out) as [Hpos_out Hout].
  destruct wf_x as [Hlen Hb].
  unfold execute. cbn [ops current_shape permutation].
  destruct (apply_ops_closed sd n (data x) ins wf_ins Hpos_in [] [] tr)
    as (tr1 & Hops); [done|done| |].
  { rewrite !app_nil_l, app_nil_r, <-shaped, prodZ_of_nat. apply Hb. }
  rewrite !app_nil_l, !app_nil_r in Hops. simpl length in Hops.
  rewrite <-shaped, to_nat_of_nat in Hops.
  assert (mk_ndarray (shape x) (data x) = x) as Hx by by destruct x.
  rewrite Hx in Hops. unfold bbind at 1. rewrite Hops.
  rewrite lookups_positions by (done || intros k; by rewrite perm).
  unfold bbind.
  pose proof (transpose_step_closed S1 (data x) p tr1 length_data perm_p) as Htr.
  destruct (transpose_step (Z.of_nat <$> p) _ tr1) as [tr2 r2].
  simpl in Htr. subst r2.
  pose proof (transposed_length (data x) S1 p q length_data perm_p perm_q
                inverse_pq) as Hlen2.
  unfold terminal_step. cbn [final_shape has_split has_merge output_axes
                               shape_dict n_ellipsis].
  destruct (side_dims sd n outs) as [|f0 fs] eqn:Hfs.
  { apply side_dims_nil in Hfs. unfold bpure. simpl.
    unfold slot_positions. rewrite Hfs. done. }
  rewrite <-Hfs. clear f0 fs Hfs.
  destruct (existsb (λ s, (s =? 1)%Z) (lookups sd names_in)
            && negb (existsb has_parens ins) && negb (existsb has_parens outs))
    eqn:Hc.
  - apply andb_true_iff in Hc as [[_ Hs]%andb_true_iff Hm].
    apply negb_true_iff in Hs, Hm.
    unfold blift, bcall, broadcast_shape_of.
    rewrite (broadcast_closed sd H n outs wf_outs Hout Hm []). simpl.
    rewrite (side_dims_no_groups sd n outs wf_outs Hm).
    assert (lookups sd names_out
            = Z.of_nat <$> shape (mk_ndarray (take_axes S1 p)
                (gather (data x) (take_axes S1 p) (take_axes (strides S1) p))))
      as Hbs.
    { simpl. rewrite shape_out, of_nat_to_nat; [done|].
      eapply Forall_impl; [exact Hpos_out|]. intros d Hd. simpl in *. lia. }
    rewrite Hbs at 1. rewrite np_broadcast_to_same by done.
    by rewrite shape_out.
  - unfold bcall. simpl. rewrite np_reshape_exact; [done| | |].
    + by apply side_dims_pos.
    + unfold size. simpl. rewrite shape_out, prodn_to_nat.
      * by rewrite prodZ_side_dims.
      * eapply Forall_impl; [exact Hpos_out|]. intros d Hd. simpl in *. lia.
    + unfold size. simpl. rewrite shape_out, prodn_to_nat.
      * rewrite total_out. apply Hb.
      * eapply Forall_impl; [exact Hpos_out|]. intros d Hd. simpl in *. lia.
Qed.

(** The result of a call on a well-formed pattern over an array of the
    shape the input side describes. *)
Lemma run_closed :
  rearrange x pattern H
  = Ok (mk_ndarray (Z.to_nat <$> side_dims sd n outs)
          (gather (data x) (take_axes S1 p) (take_axes (strides S1) p))).
Proof.
  unfold rearrange, rearrange_run. rewrite compile_closed.
  apply execute_closed.
Qed.

End run.

(** ** What a successful call says about the input *)

Lemma ellipsis_name_inj (i j : nat) : ellipsis_name i = ellipsis_name j → i = j.
Proof.
  unfold ellipsis_name. intros Heq.
  apply (inj pretty). revert Heq. generalize (pretty i) (pretty j).
  intros s1 s2. sapp. by intros [= ->].
Qed.

(** *** The input walk, read backwards *)

Lemma resolve_split_inv (H : gmap string Z) comps d w w1 :
  resolve_split H comps d w = Ok w1 →
  Forall (λ k, is_Some (w1 !! k)) comps
  ∧ ∀ k, k ∉ comps → w1 !! k = w !! k.
Proof.
  unfold resolve_split. case_bool_decide; [done|].
  destruct (negb _); [done|]. destruct (1 <? _); [done|].
  intros [= <-]. generalize (np_floordiv d
    (np_prod (dict_values (known_sizes_of H comps)))) as r.
  generalize (known_sizes_of H comps) as known. intros known r.
  clear. revert w. induction comps as [|c comps IH]; intros w.
  - split; [constructor|done].
  - cbn [foldl]. destruct (IH (<[c := default r (known !! c)]> w)) as [Hb Hf].
    split.
    + constructor; [|done]. destruct (decide (c ∈ comps)) as [Hc|Hc].
      * rewrite Forall_forall in Hb. auto.
      * rewrite (Hf c Hc), lookup_insert_eq. done.
    + intros k [Hkc Hk]%not_elem_of_cons. rewrite (Hf k Hk).
      by rewrite lookup_insert_ne.
Qed.

Lemma ellipsis_walk_inv cs a m (w w1 : gmap string Z) idx idx1 :
  foldM (λ '(sd', idx) i,
           d ← py_index cs (Z.of_nat idx);
           Ok (<[ellipsis_name i := d]> sd', S idx))
        (w, idx) (seq a m) = Ok (w1, idx1) →
  idx1 = idx + m
  ∧ (∀ k, k ∉ ellipsis_name <$> seq a m → w1 !! k = w !! k)
  ∧ ∃ ds, drop idx cs = ds ++ drop idx1 cs
          ∧ Forall2 (λ k d, w1 !! k = Some d) (ellipsis_name <$> seq a m) ds.
Proof.
  revert a w idx. induction m as [|m IH]; intros a w idx.
  - simpl. intros [= <- <-]. split_and!; [lia|done|]. by exists [].
  - cbn [seq foldM]. cbv beta iota.
    intros (st & (d & Hd%py_index_nat_inv & [= <-])%bind_Ok_inv & Hrest)%bind_Ok_inv.
    apply IH in Hrest as (-> & Hframe & ds & Hdrop & Hds).
    split_and!; [lia| |].
    + intros k Hk. rewrite fmap_cons in Hk.
      apply not_elem_of_cons in Hk as [Hka Hk].
      by rewrite (Hframe k Hk), lookup_insert_ne.
    + exists (d :: ds). split.
      * rewrite (drop_S _ _ _ Hd). by rewrite Hdrop.
      * rewrite fmap_cons. constructor; [|done].
        rewrite Hframe, lookup_insert_eq; [done|].
        intros (j & Hj & Hin%elem_of_seq)%list_elem_of_fmap.
        apply ellipsis_name_inj in Hj. lia.
Qed.

Lemma validate_step_inv cs (H : gmap string Z) n w idx ax w1 idx1 :
  validate_step cs H (Z.of_nat n) (w, idx) ax = Ok (w1, idx1) →
  (∀ k, k ∉ token_names n ax → w1 !! k = w !! k)
  ∧ Forall (λ k, is_Some (w1 !! k)) (token_names n ax)
  ∧ idx1 = idx + (if bool_decide (ax = "...") then n else 1)
  ∧ ∃ ds, drop idx cs = ds ++ drop idx1 cs
          ∧ (bool_decide (ax = "...") = false → length ds = 1)
          ∧ (truthy (parse_axis ax).2 = false →
             Forall2 (λ k d, w1 !! k = Some d) (token_names n ax) ds).
Proof.
  destruct (decide (ax = "...")) as [->|Hne].
  - rewrite validate_step_ellipsis, range_of_nat, token_names_ellipsis.
    intros (-> & Hframe & ds & Hdrop & Hds)%ellipsis_walk_inv.
    split_and!; [done| |done|].
    + eapply Forall2_Forall_l; [exact Hds|]. apply Forall_forall.
      intros d _ k Hk. by rewrite Hk.
    + exists ds. split_and!; try done.
  - rewrite validate_step_token by done.
    intros (d & Hd%py_index_nat_inv & Hrest)%bind_Ok_inv.
    unfold token_names. rewrite !bool_decide_eq_false_2 by done.
    destruct (truthy (parse_axis ax).2) eqn:Ht.
    + apply bind_Ok_inv in Hrest as (w2 & Hsplit & [= <- <-]).
      apply resolve_split_inv in Hsplit as [Hb Hf].
      split_and!; [done|done|lia|]. exists [d]. split_and!; [|done|done].
      by rewrite (drop_S _ _ _ Hd).
    + injection Hrest as <- <-. split_and!.
      * intros k [Hk _]%not_elem_of_cons. by rewrite lookup_insert_ne.
      * constructor; [|done]. by rewrite lookup_insert_eq.
      * lia.
      * exists [d]. split_and!; [by rewrite (drop_S _ _ _ Hd)|done|].
        intros _. constructor; [|done]. by rewrite lookup_insert_eq.
Qed.

Lemma walk_frame cs (H : gmap string Z) n l w idx w' idx' k :
  foldM (validate_step cs H (Z.of_nat n)) (w, idx) l = Ok (w', idx') →
  k ∉ slot_names n l → w' !! k = w !! k.
Proof.
  revert w idx. induction l as [|ax l IH]; intros w idx.
  - by intros [= <- <-].
  - cbn [foldM]. intros ([w1 idx1] & Hstep & Hrest)%bind_Ok_inv.
    rewrite slot_names_cons. intros [Hk1 Hk2]%not_elem_of_app.
    apply validate_step_inv in Hstep as (Hframe & _).
    by rewrite (IH _ _ Hrest Hk2), Hframe.
Qed.

Lemma walk_binds cs (H : gmap string Z) n l w idx w' idx' :
  foldM (validate_step cs H (Z.of_nat n)) (w, idx) l = Ok (w', idx') →
  Forall (λ k, is_Some (w' !! k)) (slot_names n l).
Proof.
  revert w idx. induction l as [|ax l IH]; intros w idx.
  - constructor.
  - cbn [foldM]. intros ([w1 idx1] & Hstep & Hrest)%bind_Ok_inv.
    rewrite slot_names_cons. apply Forall_app. split; [|by eapply IH].
    apply validate_step_inv in Hstep as (_ & Hb & _).
    eapply Forall_impl; [exact Hb|]. intros k Hk. simpl in *.
    by eapply validate_loop_mono.
Qed.

(** The walk consumes one dimension per token that is not the ellipsis. *)
Lemma walk_consumes cs (H : gmap string Z) nZ l w idx w' idx' :
  foldM (validate_step cs H nZ) (w, idx) l = Ok (w', idx') →
  idx ≤ length cs →
  idx + length (filter (λ ax, ax ≠ "...") l) ≤ idx' ∧ idx' ≤ length cs.
Proof.
  revert w idx. induction l as [|ax l IH]; intros w idx.
  - intros [= <- <-] Hidx. simpl. lia.
  - cbn [foldM]. intros ([w1 idx1] & Hstep & Hrest)%bind_Ok_inv Hidx.
    rewrite filter_cons.
    assert (idx + (if decide (ax ≠ "...") then 1 else 0) ≤ idx1
            ∧ idx1 ≤ length cs) as [Hlo Hhi].
    { destruct (decide (ax = "...")) as [->|Hne].
      - rewrite decide_False by (by intros []).
        rewrite validate_step_ellipsis in Hstep.
        revert Hstep Hidx. clear. revert w idx.
        induction (range nZ) as [|i r IHr]; intros w idx.
        + intros [= <- <-]. lia.
        + cbn [foldM]. cbv beta iota.
          intros (st & (d & Hd%py_index_nat_inv & [= <-])%bind_Ok_inv & Hr)%bind_Ok_inv
            Hidx.
          apply lookup_lt_Some in Hd. apply IHr in Hr; lia.
      - rewrite decide_True by done.
        rewrite validate_step_token in Hstep by done.
        apply bind_Ok_inv in Hstep as (d & Hd%py_index_nat_inv & Hrest').
        apply lookup_lt_Some in Hd.
        destruct (truthy (parse_axis ax).2).
        + apply bind_Ok_inv in Hrest' as (? & _ & [= <- <-]). lia.
        + injection Hrest' as <- <-. lia. }
    destruct (IH _ _ Hrest Hhi) as [Hlo' Hhi'].
    split; [|done]. destruct (decide (ax ≠ "...")); simpl; lia.
Qed.

Lemma walk_length cs (H : gmap string Z) n l w idx w' idx' :
  foldM (validate_step cs H (Z.of_nat n)) (w, idx) l = Ok (w', idx') →
  idx' = idx + length (filter (λ ax, ax ≠ "...") l)
         + n * length (filter (λ ax, ax = "...") l).
Proof.
  revert w idx. induction l as [|ax l IH]; intros w idx.
  - intros [= <- <-]. simpl. lia.
  - cbn [foldM]. intros ([w1 idx1] & Hstep & Hrest)%bind_Ok_inv.
    apply validate_step_inv in Hstep as (_ & _ & -> & _).
    rewrite (IH _ _ Hrest), !filter_cons. case_bool_decide as Hax.
    + rewrite decide_False, decide_True by (done || by intros []). simpl. lia.
    + rewrite decide_True, decide_False by done. simpl. lia.
Qed.


(** *** Every split of a successful call is exact *)



(** ** The reversed pattern *)






(** ** The round trip on an array of the shape the input side describes *)

Section round_trip.
Context {A : Type} (x : ndarray A) (pattern : string) (ins outs : list string).
Context (n : nat) (sd H : gmap string Z).
Hypothesis parsed : parser pattern = Ok (ins, outs).
Hypothesis wf_ins : Forall wf_token ins.
Hypothesis wf_outs : Forall wf_token outs.
Hypothesis nodup : NoDup (slot_names n ins).
Hypothesis perm : slot_names n ins ≡ₚ slot_names n outs.
Hypothesis sized :
  Forall (λ k, ∃ v, sd !! k = Some v ∧ (0 < v)%Z) (slot_names n ins).
Hypothesis shaped : Z.of_nat <$> shape x = side_dims sd n ins.
Hypothesis wf_x : wf_array x.
Hypothesis width :
  (Z.of_nat (length (shape x))
   - Z.of_nat (length (filter (λ ax, ax ≠ "...") ins)))%Z = Z.of_nat n.
Hypothesis split_width : existsb has_parens ins = true → n = 0.
Hypothesis merge_width : existsb has_parens outs = true → n = 0.

Local Notation "'S1'" := (Z.to_nat <$> lookups sd (slot_names n ins)).
Local Notation "'p'" := (slot_positions (positions_of (slot_names n ins))
                          (slot_names n outs)).
Local Notation "'q'" := (slot_positions (positions_of (slot_names n outs))
                          (slot_names n ins)).
Local Notation "'b'" :=
  (mk_ndarray (Z.to_nat <$> side_dims sd n outs)
     (gather (data x) (take_axes S1 p) (take_axes (strides S1) p))).







End round_trip.

(** ** What a call that returns says about its input *)






(** ** What a call returns *)

(** The shape resolver, read backwards: its walk, with the width of the
    ellipsis as a natural number. *)
Lemma validate_shapes_walk {A : Type} (x : ndarray A) ins outs H sd :
  validate_shapes x ins outs H = Ok sd →
  ∃ w idx,
    foldM (validate_step (Z.of_nat <$> shape x) H
             (Z.of_nat (ellipsis_width x ins))) (∅, 0) ins = Ok (w, idx)
    ∧ sd = merge_hints w H
    ∧ length (filter (λ ax, ax ≠ "...") ins) ≤ idx ≤ length (shape x)
    ∧ (Z.of_nat (length (shape x))
       - Z.of_nat (length (filter (λ ax, ax ≠ "...") ins)))%Z
      = Z.of_nat (ellipsis_width x ins).
Proof.
  unfold validate_shapes. cbv zeta.
  intros ([w idx] & Hwalk & [= <-])%bind_Ok_inv.
  unfold input_walk in Hwalk. rewrite length_fmap in Hwalk.
  destruct (walk_consumes _ _ _ _ _ _ _ _ Hwalk) as [Hlo Hhi]; [lia|].
  rewrite length_fmap in Hhi. simpl in Hlo.
  assert ((Z.of_nat (length (shape x))
           - Z.of_nat (length (filter (λ ax, ax ≠ "...") ins)))%Z
          = Z.of_nat (ellipsis_width x ins)) as Hwidth
    by (unfold ellipsis_width; lia).
  rewrite Hwidth in Hwalk. by exists w, idx.
Qed.

(** The hypotheses of [run_closed] from those of a caller. *)
Lemma resolved_sizes {A : Type} (x : ndarray A) ins outs H sd :
  validate_shapes x ins outs H = Ok sd →
  Forall (λ d, 0 < d)%Z (lookups sd (slot_names (ellipsis_width x ins) ins)) →
  Forall (λ k, ∃ v, sd !! k = Some v ∧ (0 < v)%Z)
    (slot_names (ellipsis_width x ins) ins)
  ∧ (Z.of_nat (length (shape x))
     - Z.of_nat (length (filter (λ ax, ax ≠ "...") ins)))%Z
    = Z.of_nat (ellipsis_width x ins).
Proof.
  intros (w & idx & Hwalk & -> & _ & Hwidth)%validate_shapes_walk Hpos.
  split; [|done].
  pose proof (walk_binds _ _ _ _ _ _ _ _ Hwalk) as Hbound.
  apply Forall_forall. intros k Hk.
  rewrite Forall_forall in Hbound. destruct (Hbound k Hk) as [v Hv].
  exists v. rewrite merge_hints_lookup, Hv. split; [done|].
  unfold lookups in Hpos. rewrite Forall_fmap, Forall_forall in Hpos.
  specialize (Hpos k Hk). simpl in Hpos.
  by rewrite merge_hints_lookup, Hv in Hpos.
Qed.

Ltac names_ok :=
  repeat first [apply Forall_nil_2 | done | apply Forall_cons; split | split].
Ltac plain_token := right; left; repeat split; by vm_compute.







(** ** Sides without groups *)

(** Without a group the walk does not read the hints. *)
Lemma validate_step_no_group cs (H H' : gmap string Z) n st ax :
  truthy (parse_axis ax).2 = false →
  validate_step cs H n st ax = validate_step cs H' n st ax.
Proof.
  intros Ht. destruct st as [w idx].
  destruct (decide (ax = "...")) as [->|Hne].
  - by rewrite !validate_step_ellipsis.
  - rewrite !validate_step_token by done. by rewrite Ht.
Qed.

Lemma walk_no_groups cs (H H' : gmap string Z) n st l :
  Forall wf_token l → existsb has_parens l = false →
  foldM (validate_step cs H n) st l = foldM (validate_step cs H' n) st l.
Proof.
  intros Hwf Hng. apply foldM_ext_elem. intros st' ax Hax.
  apply validate_step_no_group.
  rewrite Forall_forall in Hwf. rewrite wf_token_truthy by auto.
  apply not_true_iff_false. intros Hp.
  assert (existsb has_parens l = true) as Hex; [|congruence].
  apply existsb_exists. exists ax. split; [by apply list_elem_of_In|done].
Qed.

Lemma lookups_zip (names : list string) (vs : list Z) :
  NoDup names → length names = length vs →
  lookups (list_to_map (zip names vs)) names = vs
  ∧ Forall (λ k, is_Some ((list_to_map (zip names vs) : gmap string Z) !! k)) names.
Proof.
  intros Hnd Hlen.
  assert (∀ i k, names !! i = Some k →
            (list_to_map (zip names vs) : gmap string Z) !! k = vs !! i
            ∧ is_Some (vs !! i)) as Hlk.
  { intros i k Hk.
    destruct (lookup_lt_is_Some_2 vs i) as [v Hv];
      [rewrite <-Hlen; by eapply lookup_lt_Some|].
    split; [|by rewrite Hv]. rewrite Hv. apply elem_of_list_to_map_1.
    - by rewrite fst_zip by lia.
    - apply list_elem_of_lookup. exists i. by rewrite lookup_zip_with, Hk, Hv. }
  split.
  - apply list_eq. intros i. unfold lookups. rewrite list_lookup_fmap.
    destruct (names !! i) as [k|] eqn:Hk; simpl.
    + destruct (Hlk i k Hk) as [-> [v ->]]. done.
    + symmetry. apply lookup_ge_None. rewrite <-Hlen. by apply lookup_ge_None.
  - apply Forall_forall. intros k [i Hi]%list_elem_of_lookup.
    destruct (Hlk i k Hi) as [-> ?]. done.
Qed.

Lemma length_slot_names_no_groups n l :
  Forall wf_token l → existsb has_parens l = false →
  length (slot_names n l)
  = length (filter (λ ax, ax ≠ "...") l)
    + n * length (filter (λ ax, ax = "...") l).
Proof.
  intros Hwf Hng.
  rewrite <-(length_side_dims ∅ n l), (side_dims_no_groups ∅ n l Hwf Hng).
  by rewrite length_lookups.
Qed.

(** A side without groups whose names are distinct and as many as the
    array has dimensions validates, whatever the hints, and its names get
    the dimensions in order. *)
Lemma validate_no_groups {A : Type} (x : ndarray A) ins outs H :
  wf_array x → Forall (λ d, 0 < d) (shape x) →
  Forall wf_token ins → existsb has_parens ins = false →
  NoDup (slot_names (ellipsis_width x ins) ins) →
  length (shape x) = length (slot_names (ellipsis_width x ins) ins) →
  ∃ sd, validate_shapes x ins outs H = Ok sd
        ∧ lookups sd (slot_names (ellipsis_width x ins) ins)
          = Z.of_nat <$> shape x
        ∧ Forall (λ k, is_Some (sd !! k)) (slot_names (ellipsis_width x ins) ins).
Proof.
  intros [_ Hb] Hpos Hwf Hng Hnd Hlen.
  set (n := ellipsis_width x ins) in *.
  set (cs := Z.of_nat <$> shape x).
  set (sdw := list_to_map (zip (slot_names n ins) cs) : gmap string Z).
  destruct (lookups_zip (slot_names n ins) cs Hnd) as [Hlk Hbound];
    [by unfold cs; rewrite length_fmap|].
  fold sdw in Hlk, Hbound.
  assert (Forall (λ d, 0 < d)%Z cs) as Hcs.
  { unfold cs. apply Forall_fmap. eapply Forall_impl; [exact Hpos|].
    intros d Hd. unfold compose. simpl in *. lia. }
  assert ((Z.of_nat (length (shape x))
           - Z.of_nat (length (filter (λ ax, ax ≠ "...") ins)))%Z
          = Z.of_nat n) as Hwidth.
  { rewrite (length_slot_names_no_groups n ins Hwf Hng) in Hlen.
    unfold n, ellipsis_width in *.
    destruct (decide (length (filter (λ ax, ax ≠ "...") ins)
                      ≤ length (shape x))) as [Hle|Hgt]; [lia|].
    replace (length (shape x) - length (filter (λ ax, ax ≠ "...") ins))
      with 0 in Hlen by lia.
    lia. }
  assert (foldM (validate_step cs sdw (Z.of_nat n)) (∅, 0) ins
          = Ok (bind_sizes sdw (slot_names n ins) ∅,
                0 + length (side_dims sdw n ins))) as Hwalk.
  { apply (walk_closed cs sdw n ins Hwf Hbound Hnd) with (rest := []).
    - eapply Forall_impl; [apply (token_bounds sdw n ins)|]; rewrite Hlk.
      + done.
      + intros ax Hax. simpl in *. unfold cs in Hax.
        rewrite prodZ_of_nat in Hax. unfold size in Hb. lia.
    - by rewrite (side_dims_no_groups sdw n ins Hwf Hng), Hlk, app_nil_r. }
  exists (merge_hints (bind_sizes sdw (slot_names n ins) ∅) H).
  assert (∀ k, k ∈ slot_names n ins →
             merge_hints (bind_sizes sdw (slot_names n ins) ∅) H !! k
             = sdw !! k) as Hsd.
  { intros k Hk. rewrite merge_hints_lookup, bind_sizes_lookup, decide_True by done.
    rewrite Forall_forall in Hbound. by destruct (Hbound k Hk) as [v ->]. }
  split_and!.
  - unfold validate_shapes. cbv zeta. rewrite length_fmap, Hwidth.
    unfold input_walk. fold cs.
    rewrite (walk_no_groups cs H sdw _ _ ins Hwf Hng), Hwalk. by rewrite bind_Ok.
  - transitivity (lookups sdw (slot_names n ins)); [|exact Hlk].
    unfold lookups. apply Forall_fmap_ext_1, Forall_forall.
    intros k Hk. by rewrite Hsd.
  - apply Forall_forall. intros k Hk. rewrite Hsd by done.
    rewrite Forall_forall in Hbound. auto.
Qed.

(** X4.  A pattern without groups is a transposition, whatever the hints.
    For an array without a dimension of size zero, when the tokens of both
    sides are names and the ellipsis, the names of the input side are
    distinct and as many as the array has dimensions, and the output side
    has the same names, the call returns what [np.transpose] returns for
    the positions the output names have on the input side. *)
Theorem rearrange_plain_is_transpose {A : Type} (x : ndarray A)
    pattern H ins outs :
  wf_array x → Forall (λ d, 0 < d) (shape x) →
  parser pattern = Ok (ins, outs) →
  Forall wf_token ins → Forall wf_token outs →
  existsb has_parens ins = false → existsb has_parens outs = false →
  NoDup (slot_names (ellipsis_width x ins) ins) →
  slot_names (ellipsis_width x ins) ins ≡ₚ slot_names (ellipsis_width x ins) outs →
  length (shape x) = length (slot_names (ellipsis_width x ins) ins) →
  rearrange x pattern H
  = np_transpose x
      (Z.of_nat <$> slot_positions
                      (positions_of (slot_names (ellipsis_width x ins) ins))
                      (slot_names (ellipsis_width x ins) outs)).
Proof.
  intros Hwf Hpos Hparse Hwf_in Hwf_out Hng_in Hng_out Hnd Hperm Hlen.
  destruct (validate_no_groups x ins outs H Hwf Hpos Hwf_in Hng_in Hnd Hlen)
    as (sd & Hval & Hlk & Hbound).
  set (n := ellipsis_width x ins) in *.
  assert (Forall (λ d, 0 < d)%Z (lookups sd (slot_names n ins))) as Hpos'.
  { rewrite Hlk. apply Forall_fmap. eapply Forall_impl; [exact Hpos|].
    intros d Hd. unfold compose. simpl in *. lia. }
  destruct (resolved_sizes x ins outs H sd Hval Hpos') as [Hsized Hwidth].
  fold n in Hsized, Hwidth.
  assert (Z.of_nat <$> shape x = side_dims sd n ins) as Hshaped
    by by rewrite (side_dims_no_groups sd n ins Hwf_in Hng_in).
  rewrite (run_closed x pattern ins outs n sd H Hparse Hwf_in Hwf_out Hnd
             Hperm Hsized Hshaped Hwf Hwidth); [|congruence|done].
  rewrite (side_dims_no_groups sd n outs Hwf_out Hng_out).
  rewrite <-(shape_out ins outs n sd Hnd Hperm), Hlk, to_nat_of_nat.
  rewrite np_transpose_nat; [done|].
  rewrite Hlen. by apply slot_positions_perm.
Qed.

Lemma rearrange_plain_is_transpose_witness :
  rearrange (arange [2; 3; 4]) "... h w -> w ... h" (hints [("h", 999%Z)])
  = np_transpose (arange [2; 3; 4]) [2; 0; 1]%Z.
Proof.
  apply (rearrange_plain_is_transpose (arange [2; 3; 4]) "... h w -> w ... h"
           (hints [("h", 999%Z)]) ["..."; "h"; "w"] ["w"; "..."; "h"]).
  - split; [reflexivity|]. vm_compute. reflexivity.
  - names_ok; lia.
  - reflexivity.
  - apply Forall_cons; split; [by left|].
    apply Forall_cons; split; [plain_token|].
    apply Forall_cons; split; [plain_token|apply Forall_nil_2].
  - apply Forall_cons; split; [plain_token|].
    apply Forall_cons; split; [by left|].
    apply Forall_cons; split; [plain_token|apply Forall_nil_2].
  - reflexivity.
  - reflexivity.
  - vm_compute. apply (bool_decide_unpack _). vm_compute. exact I.
  - vm_compute. symmetry.
    apply (Permutation_cons_append ["_ellipsis_0"; "h"] "w").
  - reflexivity.
Defined.

(** ** What the shape resolver returns *)

(** X5.  The dictionary of a successful [validate_shapes] binds the names
    of the input side to the dimensions of the array in order: a token
    that is not a group (a name, or the ellipsis with its slots) that
    stands after the tokens [pre] gets the dimensions from the position
    that counts one for every earlier token and the width of the ellipsis
    for every earlier ellipsis, unless a later token binds the same name
    again. *)
Theorem validate_shapes_binds_dimensions {A : Type} (x : ndarray A)
    ins outs H sd pre ax post :
  validate_shapes x ins outs H = Ok sd →
  ins = pre ++ ax :: post →
  truthy (parse_axis ax).2 = false →
  (∀ k, k ∈ token_names (ellipsis_width x ins) ax →
        k ∉ slot_names (ellipsis_width x ins) post) →
  Forall2 (λ k d, sd !! k = Some d)
    (token_names (ellipsis_width x ins) ax)
    (take (length (token_names (ellipsis_width x ins) ax))
       (drop (length (filter (λ a, a ≠ "...") pre)
              + ellipsis_width x ins * length (filter (λ a, a = "...") pre))
          (Z.of_nat <$> shape x))).
Proof.
  intros (w & idx & Hwalk & -> & _ & _)%validate_shapes_walk -> Ht Hlater.
  set (n := ellipsis_width x (pre ++ ax :: post)) in *.
  rewrite foldM_app in Hwalk.
  apply bind_Ok_inv in Hwalk as ([w0 idx0] & Hpre & Hrest).
  apply walk_length in Hpre. simpl in Hpre. subst idx0.
  cbn [foldM] in Hrest. apply bind_Ok_inv in Hrest as ([w1 idx1] & Hstep & Hpost).
  apply validate_step_inv in Hstep as (_ & _ & _ & ds & Hdrop & _ & Hplain).
  specialize (Hplain Ht). rewrite Hdrop.
  rewrite (Forall2_length _ _ _ Hplain), take_app_length.
  apply Forall2_same_length_lookup_2; [by eapply Forall2_length|].
  intros i k d Hk Hd. pose proof (Forall2_lookup_lr _ _ _ _ _ _ Hplain Hk Hd) as Hw.
  assert (k ∈ token_names n ax) as Hin by by eapply list_elem_of_lookup_2.
  rewrite merge_hints_lookup.
  rewrite (walk_frame _ _ _ _ _ _ _ _ _ Hpost (Hlater k Hin)). by rewrite Hw.
Qed.

Lemma validate_shapes_binds_dimensions_witness :
  Forall2 (λ k d, hints [("h", 3%Z); ("w", 4%Z); ("c", 10%Z)] !! k = Some d)
    ["c"] [10%Z].
Proof.
  apply (validate_shapes_binds_dimensions (arange [12; 10]) ["(h w)"; "c"]
           ["h"; "w"; "c"] (hints [("h", 3%Z)])
           (hints [("h", 3%Z); ("w", 4%Z); ("c", 10%Z)]) ["(h w)"] "c" []).
  - vm_compute. reflexivity.
  - reflexivity.
  - reflexivity.
  - intros k _. apply not_elem_of_nil.
Defined.

(** X6.  A name that no token of the input side binds is a key of the
    dictionary exactly when it is a hint, with the value of the hint: the
    hints for names that occur only on the output side reach the rest of
    the call unchanged, and the resolver adds no other key. *)
Theorem validate_shapes_passes_hints {A : Type} (x : ndarray A)
    ins outs H sd k :
  validate_shapes x ins outs H = Ok sd →
  k ∉ slot_names (ellipsis_width x ins) ins →
  sd !! k = H !! k.
Proof.
  intros (w & idx & Hwalk & -> & _ & _)%validate_shapes_walk Hk.
  rewrite merge_hints_lookup, (walk_frame _ _ _ _ _ _ _ _ _ Hwalk Hk).
  by rewrite lookup_empty.
Qed.

Lemma validate_shapes_passes_hints_witness :
  hints [("a", 3%Z); ("1", 1%Z); ("c", 5%Z); ("b", 4%Z)] !! "b"
  = hints [("b", 4%Z)] !! "b".
Proof.
  apply (validate_shapes_passes_hints (arange [3; 1; 5]) ["a"; "1"; "c"]
           ["a"; "b"; "c"]).
  - vm_compute. reflexivity.
  - apply (bool_decide_unpack _). vm_compute. exact I.
Defined.

(** The resolver reads the width of the ellipsis only through [range]. *)
Lemma validate_step_width cs (H : gmap string Z) nZ st ax :
  validate_step cs H nZ st ax
  = validate_step cs H (Z.of_nat (Z.to_nat nZ)) st ax.
Proof.
  unfold validate_step, range. by rewrite Nat2Z.id.
Qed.

Lemma validate_shapes_width {A : Type} (x : ndarray A) ins outs H :
  validate_shapes x ins outs H
  = ('(w, _) ← foldM (validate_step (Z.of_nat <$> shape x) H
                        (Z.of_nat (ellipsis_width x ins))) (∅, 0) ins;
     Ok (merge_hints w H)).
Proof.
  unfold validate_shapes, input_walk. cbv zeta. f_equal.
  apply foldM_ext_elem. intros st ax _.
  rewrite validate_step_width. do 3 f_equal.
  unfold ellipsis_width. rewrite length_fmap. lia.
Qed.

Lemma ellipsis_walk_raises cs a m (w : gmap string Z) idx e :
  foldM (λ '(sd', idx) i,
           d ← py_index cs (Z.of_nat idx);
           Ok (<[ellipsis_name i := d]> sd', S idx))
        (w, idx) (seq a m) = Raise e →
  e = IndexError ∧ length cs < idx + m.
Proof.
  revert a w idx. induction m as [|m IH]; intros a w idx; [done|].
  cbn [seq foldM]. cbv beta iota.
  intros [[Hi|(d & _ & ?)]%bind_Raise_inv|(st & Hst & Hrest)]%bind_Raise_inv;
    [|done|].
  - split; [by eapply py_index_raises|].
    unfold py_index in Hi. cbv zeta in Hi.
    rewrite !Z_of_nat_ltb_0, Nat2Z.id in Hi.
    destruct (cs !! idx) eqn:Hl; [done|]. apply lookup_ge_None in Hl. lia.
  - apply bind_Ok_inv in Hst as (d & _ & [= <-]).
    apply IH in Hrest as [-> ?]. split; [done|lia].
Qed.

Lemma ellipsis_walk_Ok cs a m (w : gmap string Z) idx :
  idx + m ≤ length cs →
  ∃ w1, foldM (λ '(sd', idx) i,
                 d ← py_index cs (Z.of_nat idx);
                 Ok (<[ellipsis_name i := d]> sd', S idx))
              (w, idx) (seq a m) = Ok (w1, idx + m).
Proof.
  intros Hle.
  destruct (foldM _ (w, idx) (seq a m)) as [[w1 idx1]|e] eqn:Hw.
  - apply ellipsis_walk_inv in Hw as (-> & _). by exists w1.
  - apply ellipsis_walk_raises in Hw. lia.
Qed.

(** How the walk over the input side fails: it runs out of dimensions, or
    a group does not resolve. *)
Lemma walk_raises cs (H : gmap string Z) n l w idx e :
  foldM (validate_step cs H (Z.of_nat n)) (w, idx) l = Raise e →
  (e = IndexError
   ∧ length cs < idx + length (filter (λ ax, ax ≠ "...") l)
                 + n * length (filter (λ ax, ax = "...") l))
  ∨ (existsb has_parens l = true
     ∧ (e = Error MsgSplitNeedsHint ∨ e = Error MsgCannotSplit
        ∨ e = Error MsgOneUnknown)).
Proof.
  revert w idx. induction l as [|ax l IH]; intros w idx; [done|].
  cbn [foldM existsb]. rewrite !filter_cons.
  intros [Hstep|([w1 idx1] & Hstep & Hrest)]%bind_Raise_inv.
  - destruct (decide (ax = "...")) as [->|Hne].
    + rewrite validate_step_ellipsis, range_of_nat in Hstep.
      apply ellipsis_walk_raises in Hstep as [-> ?]. left. split; [done|].
      rewrite decide_False by (by intros []). simpl. lia.
    + rewrite validate_step_token in Hstep by done.
      apply bind_Raise_inv in Hstep as [Hi|(d & _ & Hr)].
      * left. split; [by eapply py_index_raises|].
        unfold py_index in Hi. cbv zeta in Hi.
        rewrite !Z_of_nat_ltb_0, Nat2Z.id in Hi.
        destruct (cs !! idx) eqn:Hl; [done|]. apply lookup_ge_None in Hl.
        rewrite decide_True by done. simpl. lia.
      * right. destruct (truthy (parse_axis ax).2) eqn:Ht; [|done].
        assert (has_parens ax = true) as ->.
        { destruct (parse_axis ax) as [nm [comps|]] eqn:Hp; [|done].
          by apply parse_axis_some_parens in Hp as [_ ?]. }
        split; [done|].
        apply bind_Raise_inv in Hr as [Hr|(? & _ & ?)]; [|done].
        revert Hr. unfold resolve_split.
        repeat case_match; intros [= <-]; auto.
  - apply validate_step_inv in Hstep as (_ & _ & -> & _).
    apply IH in Hrest as [[-> Hlt]|[Hg He]].
    + left. split; [done|]. case_bool_decide as Hax.
      * rewrite decide_False, decide_True by (done || by intros []).
        simpl. lia.
      * rewrite decide_True, decide_False by done. simpl. lia.
    + right. split; [|done]. rewrite Hg. apply orb_true_r.
Qed.

(** Without groups the walk succeeds as soon as the dimensions suffice. *)
Lemma validate_shapes_plain_Ok {A : Type} (x : ndarray A) ins outs H :
  existsb has_parens ins = false →
  length (filter (λ ax, ax ≠ "...") ins)
  + ellipsis_width x ins * length (filter (λ ax, ax = "...") ins)
  ≤ length (shape x) →
  ∃ sd, validate_shapes x ins outs H = Ok sd.
Proof.
  intros Hng Hneed. destruct (validate_shapes x ins outs H) as [sd|e] eqn:Hv;
    [by exists sd|].
  rewrite validate_shapes_width in Hv.
  apply bind_Raise_inv in Hv as [Hw|([w idx] & _ & ?)]; [|done].
  apply walk_raises in Hw as [[_ Hlt]|[Hg _]]; [|congruence].
  rewrite length_fmap in Hlt. lia.
Qed.



(** *** The sizes of the members of a group *)

Lemma foldl_insert_frame (val : string → Z) l (m : gmap string Z) k :
  k ∉ l → foldl (λ acc c, <[c := val c]> acc) m l !! k = m !! k.
Proof.
  revert m. induction l as [|c l IH]; intros m; [done|].
  intros [Hkc Hk]%not_elem_of_cons. cbn [foldl].
  by rewrite IH, lookup_insert_ne.
Qed.

Lemma foldl_insert_lookup (val : string → Z) l (m : gmap string Z) k :
  k ∈ l → foldl (λ acc c, <[c := val c]> acc) m l !! k = Some (val k).
Proof.
  revert m. induction l as [|c l IH]; intros m; [by intros ?%elem_of_nil|].
  intros Hk. cbn [foldl]. destruct (decide (k ∈ l)) as [Hin|Hout].
  - by apply IH.
  - apply elem_of_cons in Hk as [->|?]; [|done].
    by rewrite foldl_insert_frame, lookup_insert_eq.
Qed.

Lemma NoDup_hinted (H : gmap string Z) comps :
  NoDup comps → NoDup (omap (λ c, (c,.) <$> H !! c) comps).
Proof.
  induction 1 as [|c comps Hc _ IH]; [constructor|].
  cbn [omap list_omap]. destruct (H !! c) as [v|]; [|done]. simpl.
  constructor; [|done].
  intros (c' & Hc' & Heq)%list_elem_of_omap.
  destruct (H !! c'); [|done]. by injection Heq as -> _.
Qed.

(** The hints a group finds, in a row: the values of [known_sizes]. *)
Lemma known_sizes_of_hinted (H : gmap string Z) comps :
  NoDup comps → dict_values (known_sizes_of H comps) ≡ₚ omap (H !!.) comps.
Proof.
  intros Hnd. unfold dict_values.
  assert (omap (H !!.) comps = (omap (λ c, (c,.) <$> H !! c) comps).*2) as ->.
  { clear. induction comps as [|c comps IH]; [done|].
    cbn [omap list_omap]. destruct (H !! c); simpl; by rewrite IH. }
  apply fmap_Permutation, NoDup_Permutation.
  - apply NoDup_map_to_list.
  - by apply NoDup_hinted.
  - intros [c v]. rewrite elem_of_map_to_list, known_sizes_of_lookup.
    rewrite list_elem_of_omap. split.
    + case_decide as Hc; [|done]. intros Hv. exists c. by rewrite Hv.
    + intros (c' & Hc' & Heq). destruct (H !! c') eqn:Hv; [|done].
      injection Heq as -> ->. by rewrite decide_True.
Qed.

Lemma prodZ_one_inferred (sd H : gmap string Z) comps c r :
  NoDup comps → H !! c = None → sd !! c = Some r →
  (∀ k, k ∈ comps → k ≠ c → sd !! k = H !! k ∧ is_Some (H !! k)) →
  prodZ (lookups sd comps)
  = (prodZ (omap (H !!.) comps) * (if decide (c ∈ comps) then r else 1))%Z.
Proof.
  intros Hnd Hc Hr. induction Hnd as [|k comps Hk _ IH]; intros Hrest.
  - destruct (decide (c ∈ [])) as [Hin|_]; [by apply elem_of_nil in Hin|done].
  - unfold lookups in *. rewrite fmap_cons, prodZ_cons.
    cbn [omap list_omap].
    rewrite IH by (intros k' Hk'; apply Hrest; by right).
    destruct (decide (k = c)) as [->|Hne].
    + rewrite Hc, Hr. simpl.
      rewrite decide_False, decide_True by (done || by left). lia.
    + destruct (Hrest k) as [Hsd [v Hv]]; [by left|done|].
      rewrite Hsd, Hv. cbn [default from_option id]. rewrite prodZ_cons.
      destruct (decide (c ∈ comps)) as [Hin|Hout].
      * rewrite decide_True by by right. lia.
      * rewrite decide_False; [lia|].
        by intros [?|?]%elem_of_cons.
Qed.

(** A group with one member left to infer. *)
Lemma resolve_split_infers (H : gmap string Z) comps d w w1 c :
  resolve_split H comps d w = Ok w1 →
  NoDup comps → c ∈ comps → H !! c = None →
  (- 2 ^ 63 ≤ prodZ (omap (H !!.) comps) < 2 ^ 63)%Z →
  prodZ (omap (H !!.) comps) ≠ 0%Z →
  w1 !! c = Some (d / prodZ (omap (H !!.) comps))%Z
  ∧ (∀ k, k ∈ comps → k ≠ c → w1 !! k = H !! k ∧ is_Some (H !! k))
  ∧ d = (prodZ (omap (H !!.) comps) * (d / prodZ (omap (H !!.) comps)))%Z.
Proof.
  intros Hr Hnd Hc Hnone Hb Hnz. unfold resolve_split in Hr.
  case_bool_decide; [done|].
  unfold np_prod in Hr.
  rewrite (prodZ_Permutation _ _ (known_sizes_of_hinted H comps Hnd)) in Hr.
  rewrite wrap64_small in Hr by done.
  set (kp := prodZ (omap (H !!.) comps)) in *.
  unfold np_mod, np_floordiv in Hr.
  apply Z.eqb_neq in Hnz as Hnz'. rewrite Hnz' in Hr.
  destruct (d mod kp =? 0)%Z eqn:Hmod; [|done]. apply Z.eqb_eq in Hmod.
  simpl in Hr. rewrite remaining_comps_unhinted in Hr.
  destruct (1 <? length (unhinted H comps)) eqn:Hone; [done|].
  apply Nat.ltb_ge in Hone. injection Hr as <-.
  assert (∀ k, k ∈ comps → k ≠ c → is_Some (H !! k)) as Hothers.
  { intros k Hk Hkc. destruct (H !! k) eqn:Hv; [done|]. exfalso.
    assert (c ∈ unhinted H comps) as Hc1 by by apply list_elem_of_filter.
    assert (k ∈ unhinted H comps) as Hk1 by by apply list_elem_of_filter.
    destruct (unhinted H comps) as [|a [|b l]]; simpl in Hone; [|..|lia].
    - by apply elem_of_nil in Hc1.
    - apply list_elem_of_singleton in Hc1, Hk1. congruence. }
  split_and!.
  - rewrite foldl_insert_lookup by done.
    by rewrite known_sizes_of_lookup, decide_True, Hnone by done.
  - intros k Hk Hkc. destruct (Hothers k Hk Hkc) as [v Hv].
    rewrite foldl_insert_lookup by done.
    by rewrite known_sizes_of_lookup, decide_True, Hv by done.
  - by apply Z.div_exact.
Qed.

(** X8.  A group of the input side with one member that has no hint: the
    hints of the other members are kept, the member without a hint gets the
    dimension divided by the product of the hints, and the sizes of the
    members multiply to the dimension.  The members are distinct and are
    not bound again by a later token; the product of the hints is not zero
    and fits the 64-bit integer of [np.prod]. *)
Theorem validate_shapes_infers_member {A : Type} (x : ndarray A)
    ins outs H sd pre ax post c :
  validate_shapes x ins outs H = Ok sd →
  ins = pre ++ ax :: post →
  truthy (parse_axis ax).2 = true →
  NoDup (components_of (parse_axis ax).2) →
  c ∈ components_of (parse_axis ax).2 →
  H !! c = None →
  (∀ k, k ∈ components_of (parse_axis ax).2 →
        k ∉ slot_names (ellipsis_width x ins) post) →
  (- 2 ^ 63 ≤ prodZ (omap (H !!.) (components_of (parse_axis ax).2)) < 2 ^ 63)%Z →
  prodZ (omap (H !!.) (components_of (parse_axis ax).2)) ≠ 0%Z →
  ∃ d, (Z.of_nat <$> shape x)
         !! (length (filter (λ a, a ≠ "...") pre)
             + ellipsis_width x ins * length (filter (λ a, a = "...") pre))
       = Some d
    ∧ sd !! c
      = Some (d / prodZ (omap (H !!.) (components_of (parse_axis ax).2)))%Z
    ∧ (∀ k, k ∈ components_of (parse_axis ax).2 → k ≠ c → sd !! k = H !! k)
    ∧ prodZ (lookups sd (components_of (parse_axis ax).2)) = d.
Proof.
  intros (w & idx & Hwalk & -> & _ & _)%validate_shapes_walk -> Ht Hnd Hc Hnone
    Hlater Hb Hnz.
  set (n := ellipsis_width x (pre ++ ax :: post)) in *.
  set (comps := components_of (parse_axis ax).2) in *.
  assert (ax ≠ "...") as Hne by (by intros ->).
  rewrite foldM_app in Hwalk.
  apply bind_Ok_inv in Hwalk as ([w0 idx0] & Hpre & Hrest).
  apply walk_length in Hpre. simpl in Hpre. subst idx0.
  cbn [foldM] in Hrest. apply bind_Ok_inv in Hrest as ([w1 idx1] & Hstep & Hpost).
  rewrite validate_step_token in Hstep by done.
  apply bind_Ok_inv in Hstep as (d & Hd%py_index_nat_inv & Hstep).
  rewrite Ht in Hstep. fold comps in Hstep.
  apply bind_Ok_inv in Hstep as (w2 & Hsplit & [= <- <-]).
  destruct (resolve_split_infers _ _ _ _ _ _ Hsplit Hnd Hc Hnone Hb Hnz)
    as (Hwc & Hothers & Hexact).
  assert (∀ k, k ∈ comps → merge_hints w H !! k = w2 !! k) as Hsd.
  { intros k Hk. rewrite merge_hints_lookup.
    rewrite (walk_frame _ _ _ _ _ _ _ _ _ Hpost (Hlater k Hk)).
    destruct (decide (k = c)) as [->|Hkc]; [by rewrite Hwc|].
    destruct (Hothers k Hk Hkc) as [-> [v ->]]. done. }
  exists d. split_and!.
  - exact Hd.
  - by rewrite Hsd.
  - intros k Hk Hkc. rewrite Hsd by done. by apply Hothers.
  - rewrite (prodZ_one_inferred _ H comps c
               (d / prodZ (omap (H !!.) comps))%Z); try done.
    + rewrite decide_True by done. by rewrite <-Hexact.
    + by rewrite Hsd.
    + intros k Hk Hkc. rewrite Hsd by done. by apply Hothers.
Qed.

Lemma validate_shapes_infers_member_witness :
  ∃ d, [12%Z; 10%Z] !! 0 = Some d
    ∧ hints [("h", 3%Z); ("w", 4%Z); ("c", 10%Z)] !! "w" = Some (d / 3)%Z
    ∧ (∀ k, k ∈ ["h"; "w"] → k ≠ "w" →
         hints [("h", 3%Z); ("w", 4%Z); ("c", 10%Z)] !! k
         = hints [("h", 3%Z)] !! k)
    ∧ prodZ (lookups (hints [("h", 3%Z); ("w", 4%Z); ("c", 10%Z)]) ["h"; "w"])
      = d.
Proof.
  apply (validate_shapes_infers_member (arange [12; 10]) ["(h w)"; "c"]
           ["h"; "w"; "c"] (hints [("h", 3%Z)])
           (hints [("h", 3%Z); ("w", 4%Z); ("c", 10%Z)]) [] "(h w)" ["c"] "w").
  - vm_compute. reflexivity.
  - reflexivity.
  - reflexivity.
  - apply (bool_decide_unpack _). vm_compute. exact I.
  - apply (bool_decide_unpack _). vm_compute. exact I.
  - reflexivity.
  - intros k Hk. apply (bool_decide_unpack _).
    apply elem_of_cons in Hk as [->|Hk]; [vm_compute; exact I|].
    apply list_elem_of_singleton in Hk as ->. vm_compute. exact I.
  - vm_compute. split; [discriminate|reflexivity].
  - vm_compute. discriminate.
Defined.

(** ** Edges of a call *)

(** *** Members of an output group *)

Lemma output_comps_elem (outs : list string) (acc : gset string) ax c :
  ax ∈ outs → truthy (parse_axis ax).2 = true →
  c ∈ components_of (parse_axis ax).2 →
  c ∈ foldl (λ acc ax,
               let '(_, comps) := parse_axis ax in
               if truthy comps then acc ∪ list_to_set (components_of comps)
               else acc) acc outs.
Proof.
  intros Hin Ht Hc.
  assert (∀ l (acc : gset string), c ∈ acc →
            c ∈ foldl (λ acc ax,
                         let '(_, comps) := parse_axis ax in
                         if truthy comps
                         then acc ∪ list_to_set (components_of comps)
                         else acc) acc l) as Hmono.
  { induction l as [|a l IH]; intros acc' Hacc; [done|].
    cbn [foldl]. apply IH. destruct (parse_axis a) as [nm comps].
    destruct (truthy comps); set_solver. }
  revert acc. induction outs as [|a outs IH]; intros acc;
    [by apply elem_of_nil in Hin|].
  cbn [foldl]. apply elem_of_cons in Hin as [<-|Hin]; [|by apply IH].
  apply Hmono. destruct (parse_axis ax) as [nm comps]. simpl in *.
  rewrite Ht. set_solver.
Qed.

(** X9.  The check of the output groups (lines 133-142).  Once the
    tokenizer, the rank checks and the shape resolver have passed, a member
    of an output group that is no key of the shape dictionary, or whose
    name starts with the prefix of the ellipsis slots, makes the call raise
    the error "Merge contains unknown components". *)
Theorem rearrange_unknown_merge_member {A : Type} (x : ndarray A)
    pattern H ins outs sd ax c :
  resolves x pattern H ins outs sd →
  ax ∈ outs →
  truthy (parse_axis ax).2 = true →
  c ∈ components_of (parse_axis ax).2 →
  sd !! c = None ∨ String.prefix "_ellipsis_" c = true →
  rearrange x pattern H = Raise (Error MsgMergeUnknown).
Proof.
  intros Hres Hin Ht Hc Hunknown. unfold rearrange.
  rewrite (rearrange_compile_raise _ _ _ (Error MsgMergeUnknown)); [done|].
  eapply compile_checks_raise; [exact Hres|].
  assert (existsb has_parens outs = true) as ->.
  { apply existsb_exists. exists ax. split; [by apply list_elem_of_In|].
    destruct (parse_axis ax) as [nm [comps|]] eqn:Hp; [|done].
    by apply parse_axis_some_parens in Hp as [_ ?]. }
  unfold check_merge. rewrite bool_decide_eq_false_2; [done|].
  intros Hsub.
  pose proof (Hsub c (output_comps_elem outs ∅ ax c Hin Ht Hc)) as Hcin.
  apply elem_of_difference in Hcin as [Hdom Hnot].
  destruct Hunknown as [Hnone|Hpre].
  - apply elem_of_dom in Hdom as [v Hv]. congruence.
  - apply Hnot. by apply elem_of_filter.
Qed.

Lemma rearrange_unknown_merge_member_witness :
  rearrange (arange [2; 3]) "a b -> (a c)" ∅ = Raise (Error MsgMergeUnknown).
Proof.
  apply (rearrange_unknown_merge_member (arange [2; 3]) "a b -> (a c)" ∅
           ["a"; "b"] ["(a c)"] (hints [("a", 2%Z); ("b", 3%Z)]) "(a c)" "c").
  - split_and!; vm_compute; reflexivity.
  - apply list_elem_of_singleton. reflexivity.
  - reflexivity.
  - apply (bool_decide_unpack _). vm_compute. exact I.
  - left. reflexivity.
Defined.

(** *** A new axis without a singleton *)

Lemma singleton_scan_none (f : nat → string → nat * string) ins cs acc :
  (∀ i a, (f i a).2 = a) → Forall (λ a, a ≠ "1") ins →
  foldM (λ acc '(i, ax),
           if bool_decide (ax = "1") then
             d ← py_index cs (Z.of_nat i);
             Ok (if (d =? 1)%Z then acc ++ [Z.of_nat i] else acc)
           else Ok acc)
        acc (imap f ins) = Ok acc.
Proof.
  intros Hf Hall. revert f Hf.
  induction Hall as [|a ins Ha _ IH]; intros f Hf; [done|].
  rewrite imap_cons. cbn [foldM].
  pose proof (Hf 0 a) as Ha0. destruct (f 0 a) as [i ax]. simpl in Ha0. subst ax.
  rewrite bool_decide_eq_false_2, bind_Ok by done.
  apply IH. intros j b. apply Hf.
Qed.



Lemma assign_positions_elem l pos (am : gmap string Z) k :
  k ∈ l → is_Some (assign_positions l pos am !! k).
Proof.
  revert pos am. induction l as [|c l IH]; intros pos am;
    [by intros ?%elem_of_nil|].
  rewrite assign_positions_cons. intros [->|Hk]%elem_of_cons; [|by apply IH].
  apply assign_positions_is_Some. by rewrite lookup_insert_eq.
Qed.

Lemma check_output_known outs (sd : gmap string Z) :
  existsb has_parens outs = false →
  Forall (λ a, a ≠ "..." → is_Some (sd !! a)) outs →
  check_output outs sd = Ok ().
Proof.
  unfold check_output. induction outs as [|a outs IH]; [done|].
  cbn [existsb foldM]. intros [Ha Houts]%orb_false_iff [Hk Hrest]%Forall_cons.
  rewrite (parse_axis_no_parens _ Ha).
  destruct (decide (a = "...")) as [->|Hne].
  - rewrite bool_decide_eq_true_2 by done. simpl. by apply IH.
  - rewrite (bool_decide_eq_true_2 _ (Hk Hne)), andb_false_r. simpl.
    by apply IH.
Qed.




(** *** An empty output side *)

(** Without groups the loop of lines 156-175 follows the walk of the
    resolver and builds no operation. *)
Lemma axis_map_after_walk cs (H sd : gmap string Z) n l :
  existsb has_parens l = false →
  ∀ w idx w' idx' ops am,
    foldM (validate_step cs H (Z.of_nat n)) (w, idx) l = Ok (w', idx') →
    ∃ am', foldM (axis_map_step cs sd (Z.of_nat n)) (ops, am, Z.of_nat idx) l
           = Ok (ops, am', Z.of_nat idx').
Proof.
  induction l as [|ax l IH]; intros Hng w idx w' idx' ops am; cbn [foldM].
  { intros [= <- <-]. by eexists. }
  cbn [existsb] in Hng. apply orb_false_iff in Hng as [Hax Hl].
  intros ([w1 idx1] & Hstep & Hrest)%bind_Ok_inv.
  destruct (decide (ax = "...")) as [->|Hne].
  - apply validate_step_inv in Hstep as (_ & _ & -> & _).
    rewrite bool_decide_eq_true_2 in Hrest by done.
    unfold axis_map_step. rewrite bool_decide_eq_true_2 by done.
    rewrite bind_Ok.
    replace (Z.of_nat idx + Z.of_nat n)%Z with (Z.of_nat (idx + n)) by lia.
    by eapply IH.
  - rewrite validate_step_token, (parse_axis_no_parens _ Hax) in Hstep by done.
    simpl in Hstep. apply bind_Ok_inv in Hstep as (d & Hd & [= <- <-]).
    unfold axis_map_step. rewrite bool_decide_eq_false_2 by done.
    rewrite (parse_axis_no_parens _ Hax). simpl.
    assert ((if bool_decide (ax = "1")
             then py_index cs (Z.of_nat idx) ≫= λ _, Ok ()
             else Ok ()) = Ok ()) as ->.
    { case_bool_decide; [|done]. by rewrite Hd. }
    rewrite !bind_Ok.
    replace (Z.of_nat idx + 1)%Z with (Z.of_nat (S idx)) by lia.
    by eapply IH.
Qed.

(** X11.  An empty output side.  For a pattern whose right side has no
    token and whose left side has no group, a call that returns, returns
    the tensor it was given: no primitive of numpy is called.  The call
    does return when the rank checks pass and the tensor has the
    dimensions the tokens ask for. *)
Theorem rearrange_empty_output {A : Type} (x : ndarray A) pattern H ins :
  parser pattern = Ok (ins, []) →
  existsb has_parens ins = false →
  (∀ r, rearrange x pattern H = Ok r → r = x)
  ∧ (rank_ok x ins [] →
     length (filter (λ ax, ax ≠ "...") ins)
     + ellipsis_width x ins * length (filter (λ ax, ax = "...") ins)
     ≤ length (shape x) →
     rearrange_run x pattern H = ([], Ok x)).
Proof.
  intros Hp Hng. split.
  - intros r. unfold rearrange, rearrange_run.
    destruct (compile x pattern H) as [p|e] eqn:Hc; [|done].
    apply compile_Ok_inv in Hc
      as (ins' & outs' & sd & ops0 & am0 & last & fs & pm & Hc).
    cbv zeta in Hc.
    destruct Hc as (Hp' & _ & _ & _ & _ & Ham & Hout & ->).
    rewrite Hp in Hp'. injection Hp' as <- <-.
    apply axis_map_no_groups in Ham as ->; [|done].
    injection Hout as <- <-. simpl. by intros [= <-].
  - intros Hr Hneed.
    destruct (validate_shapes_plain_Ok x ins [] H Hng Hneed) as [sd Hv].
    unfold rearrange_run, compile. rewrite Hp, bind_Ok. cbv beta iota zeta.
    unfold rank_ok in Hr. cbn [existsb] in Hr |- *.
    rewrite Hr, bind_Ok, Hv, bind_Ok. unfold check_merge, check_output.
    cbn [foldM]. rewrite !bind_Ok.
    apply validate_shapes_walk in Hv as (w & idx & Hwalk & -> & _ & Hwidth).
    rewrite Hwidth. change 0%Z with (Z.of_nat 0).
    destruct (axis_map_after_walk _ _ (merge_hints w H) _ _ Hng _ _ _ _ [] ∅ Hwalk)
      as [am' ->].
    rewrite bind_Ok. cbv beta iota. by rewrite bind_Ok.
Qed.

Lemma rearrange_empty_output_witness :
  (∀ r, rearrange (arange [2; 3]) "h w ->" ∅ = Ok r → r = arange [2; 3])
  ∧ rearrange_run (arange [2; 3]) "h w ->" ∅ = ([], Ok (arange [2; 3])).
Proof.
  destruct (rearrange_empty_output (arange [2; 3]) "h w ->" ∅ ["h"; "w"])
    as [Hsame Hrun]; [reflexivity..|].
  split; [exact Hsame|]. apply Hrun; [reflexivity|]. vm_compute. lia.
Defined.

(** *** An ellipsis on the output side only *)



(** ** The two parsers *)

(** *** [parse_axis] on a group *)

Lemma char_in_parens (c : ascii) : char_in "()" c = is_paren c.
Proof.
  unfold char_in, is_paren. simpl.
  destruct (Ascii.eqb_spec c "(") as [->|H1]; [done|].
  destruct (Ascii.eqb_spec c ")") as [->|H2]; [done|].
  apply bool_decide_eq_false_2.
  intros [?|[?|?%elem_of_nil]%elem_of_cons]%elem_of_cons; done.
Qed.

Lemma isspace_not_paren (c : ascii) : isspace c = true → is_paren c = false.
Proof.
  unfold is_paren.
  destruct (Ascii.eqb_spec c "(") as [->|_]; [by vm_compute|].
  destruct (Ascii.eqb_spec c ")") as [->|_]; [by vm_compute|done].
Qed.

Lemma contains_app_r (sub s : string) : contains sub (s +:+ sub) = true.
Proof.
  induction s as [|c s IH]; sapp.
  - pose proof (prefix_app_self sub "") as Hp.
    rewrite string_app_nil_r in Hp.
    destruct sub as [|d sub]; [done|]. cbn [contains]. by rewrite Hp.
  - cbn [contains]. rewrite IH. apply orb_true_r.
Qed.

Lemma contains_prefix (sub s : string) :
  String.prefix sub s = true → contains sub s = true.
Proof. destruct s; cbn [contains]; by intros ->. Qed.

Lemma split_ws_go_run s rest cur :
  all_chars (λ c, negb (isspace c)) s = true →
  split_ws_go (s +:+ rest) cur = split_ws_go rest (cur +:+ s).
Proof.
  revert cur. induction s as [|c s IH]; intros cur; sapp.
  - by rewrite string_app_nil_r.
  - rewrite all_chars_cons. intros [Hc Hs]%andb_true_iff.
    cbn [split_ws_go]. apply negb_true_iff in Hc. rewrite Hc.
    rewrite IH by done. by rewrite snoc_app.
Qed.

Lemma split_ws_go_blank_empty w rest :
  blank w → split_ws_go (w +:+ rest) "" = split_ws_go rest "".
Proof.
  unfold blank. induction w as [|c w IH]; sapp; [done|].
  rewrite all_chars_cons. intros [Hc Hw]%andb_true_iff.
  cbn [split_ws_go]. rewrite Hc. simpl. auto.
Qed.

Lemma split_ws_go_blank w rest cur :
  blank w → nonempty w = true → nonempty cur = true →
  split_ws_go (w +:+ rest) cur = cur :: split_ws_go rest "".
Proof.
  unfold blank. destruct w as [|c w]; [done|]. sapp.
  rewrite all_chars_cons. intros [Hc Hw]%andb_true_iff _ Hcur.
  cbn [split_ws_go]. rewrite Hc, Hcur. f_equal.
  by apply split_ws_go_blank_empty.
Qed.

Lemma split_ws_go_units pieces :
  wf_pieces pieces → Forall bare_unit pieces.*1 →
  split_ws_go (render_units pieces) "" = pieces.*1.
Proof.
  induction pieces as [|[u w] rest IH]; [done|].
  cbn [wf_pieces render_units fmap list_fmap fst].
  intros (_ & Hw & Hne & Hrest) [[Hu Hb] Hbare]%Forall_cons.
  rewrite split_ws_go_run.
  2: { eapply all_chars_impl; [|exact Hb]. intros c; simpl.
       by intros [-> _]%andb_true_iff. }
  rewrite string_app_nil_l.
  destruct w as [|c w].
  - destruct rest as [|p rest]; [|by specialize (Hne ltac:(done))].
    sapp. simpl. by rewrite Hu.
  - rewrite split_ws_go_blank by done. f_equal. by apply IH.
Qed.

Lemma render_units_no_paren pieces :
  wf_pieces pieces → Forall bare_unit pieces.*1 →
  all_chars (λ c, negb (is_paren c)) (render_units pieces) = true.
Proof.
  induction pieces as [|[u w] rest IH]; [done|].
  cbn [wf_pieces render_units fmap list_fmap fst].
  intros (_ & Hw & _ & Hrest) [[_ Hb] Hbare]%Forall_cons.
  rewrite !all_chars_app, IH by done.
  rewrite andb_true_r. apply andb_true_iff. split.
  - eapply all_chars_impl; [|exact Hb]. intros c; simpl.
    by intros [_ ->]%andb_true_iff.
  - eapply all_chars_impl; [|exact Hw]. intros c Hc; simpl in *.
    by rewrite isspace_not_paren.
Qed.

Lemma strip_parens body :
  all_chars (λ c, negb (is_paren c)) body = true →
  strip_chars "()" ("(" +:+ body +:+ ")") = body.
Proof.
  intros Hbody. unfold strip_chars. sapp. cbn [lstrip_by].
  rewrite char_in_parens. change (is_paren "(") with true. cbv iota.
  assert (all_chars (λ c, negb (char_in "()" c)) body = true) as Hnone.
  { eapply all_chars_impl; [|exact Hbody]. intros c. simpl.
    by rewrite char_in_parens. }
  destruct body as [|c body]; [by vm_compute|].
  assert (char_in "()" c = false) as Hc.
  { rewrite all_chars_cons in Hnone.
    apply andb_true_iff in Hnone as [Hc%negb_true_iff _]. done. }
  sapp. rewrite lstrip_by_head by done.
  change (String c (body +:+ ")")) with (String c body +:+ ")").
  rewrite rstrip_by_app.
  - by apply rstrip_by_none.
  - by rewrite rstrip_by_none.
  - by rewrite all_chars_cons, char_in_parens.
Qed.

(** X13.  [parse_axis] on a group.  For names without whitespace and
    parentheses, written between a pair of parentheses with whitespace
    between them (and, if one likes, around them), the components are the
    names in order and the name is their concatenation. *)
Theorem parse_axis_of_group lead pieces :
  blank lead → wf_pieces pieces → Forall bare_unit pieces.*1 →
  parse_axis ("(" +:+ (lead +:+ render_units pieces) +:+ ")")
  = (join_empty pieces.*1, Some pieces.*1).
Proof.
  intros Hlead Hwf Hbare. unfold parse_axis.
  rewrite bool_decide_eq_false_2 by (sapp; intros [=]).
  assert (contains "(" ("(" +:+ (lead +:+ render_units pieces) +:+ ")") = true)
    as -> by apply contains_prefix, prefix_app_self.
  assert (contains ")" ("(" +:+ (lead +:+ render_units pieces) +:+ ")") = true)
    as -> by (rewrite <-string_app_assoc; apply contains_app_r).
  simpl andb. cbv iota.
  rewrite strip_parens.
  - unfold split_ws. rewrite split_ws_go_blank_empty by done.
    by rewrite split_ws_go_units.
  - rewrite all_chars_app, render_units_no_paren, andb_true_r by done.
    eapply all_chars_impl; [|exact Hlead]. intros c Hc; simpl in *.
    by rewrite isspace_not_paren.
Qed.

Lemma parse_axis_of_group_witness :
  parse_axis ("(" +:+ (" " +:+ render_units [("h2", "  "); ("w", "")]) +:+ ")")
  = (join_empty ["h2"; "w"], Some ["h2"; "w"]).
Proof.
  apply (parse_axis_of_group " " [("h2", "  "); ("w", "")]).
  - reflexivity.
  - repeat split; try (left; split; reflexivity); try reflexivity; done.
  - repeat constructor.
Defined.

(** *** More than one separator *)

Lemma split_arrow_length_pos (s : string) : 0 < length (split_arrow s).
Proof.
  destruct s as [|c s]; [simpl; lia|]. cbn [split_arrow].
  assert (0 < length (match split_arrow s with
                      | h :: t => String c h :: t
                      | [] => [String c EmptyString]
                      end)) as Hkeep
    by (destruct (split_arrow s); simpl; lia).
  destruct s as [|d s]; [done|].
  destruct (Ascii.eqb c "-" && Ascii.eqb d ">"); [simpl; lia|done].
Qed.

Lemma split_arrow_length_keep (c : ascii) (s : string) :
  length (match split_arrow s with
          | h :: t => String c h :: t
          | [] => [String c EmptyString]
          end) = length (split_arrow s).
Proof.
  pose proof (split_arrow_length_pos s).
  destruct (split_arrow s); simpl in *; lia.
Qed.

Lemma split_arrow_cons2 (c d : ascii) (s : string) :
  split_arrow (String c (String d s))
  = if Ascii.eqb c "-" && Ascii.eqb d ">" then EmptyString :: split_arrow s
    else match split_arrow (String d s) with
         | h :: t => String c h :: t
         | [] => [String c EmptyString]
         end.
Proof. done. Qed.

Lemma split_arrow_length_app_fuel (n : nat) (a b : string) :
  String.length a ≤ n →
  length (split_arrow (a +:+ "->" +:+ b))
  = length (split_arrow a) + length (split_arrow b).
Proof.
  revert a. induction n as [|n IH]; intros a Hn.
  - destruct a; [|simpl in Hn; lia]. done.
  - destruct a as [|c [|d a]].
    + done.
    + sapp. change ("->" +:+ b) with (String "-" (String ">" b)).
      cbn [split_arrow]. rewrite andb_false_r.
      simpl. by destruct (Ascii.eqb c "-").
    + sapp. rewrite !split_arrow_cons2. simpl in Hn.
      destruct (Ascii.eqb c "-" && Ascii.eqb d ">").
      * cbn [length]. rewrite IH by lia. done.
      * rewrite !split_arrow_length_keep.
        rewrite <-string_app_cons. apply IH. simpl. lia.
Qed.

Lemma split_arrow_length_app (a b : string) :
  length (split_arrow (a +:+ "->" +:+ b))
  = length (split_arrow a) + length (split_arrow b).
Proof. by apply (split_arrow_length_app_fuel (String.length a)). Qed.

Lemma contains_app_l (sub a t : string) : contains sub (a +:+ sub +:+ t) = true.
Proof.
  induction a as [|c a IH]; sapp.
  - apply contains_prefix, prefix_app_self.
  - cbn [contains]. rewrite IH. apply orb_true_r.
Qed.

(** X14.  A pattern with more than one separator.  Whatever stands before,
    between and after two occurrences of "->", the tokenizer does not raise
    the library's [Error]: the unpacking of line 41 raises Python's
    [ValueError]. *)
Theorem parser_two_separators (a b c : string) :
  parser (a +:+ "->" +:+ b +:+ "->" +:+ c) = Raise UnpackValueError.
Proof.
  unfold parser. rewrite contains_app_l. simpl negb. cbv iota.
  pose proof (split_arrow_length_app a (b +:+ "->" +:+ c)) as Hlen.
  rewrite (split_arrow_length_app b c) in Hlen.
  pose proof (split_arrow_length_pos a).
  pose proof (split_arrow_length_pos b).
  pose proof (split_arrow_length_pos c).
  destruct (split_arrow (a +:+ "->" +:+ b +:+ "->" +:+ c)) as [|x [|y [|z l]]];
    simpl in Hlen; try lia. done.
Qed.

(** ** The elements of the result *)









(** ** Two calls in a row *)

(** A transposed view of a transposed array is a transposed view of the
    array. *)
Section transposed_twice.
Context {A : Type} (D : list A) (S1 p1 q1 p2 q2 : list nat).
Hypothesis length_D : length D = prodn S1.
Hypothesis perm_p1 : p1 ≡ₚ seq 0 (length S1).
Hypothesis perm_q1 : q1 ≡ₚ seq 0 (length S1).
Hypothesis inverse1 : take_axes p1 q1 = seq 0 (length S1).
Hypothesis perm_p2 : p2 ≡ₚ seq 0 (length S1).
Hypothesis perm_q2 : q2 ≡ₚ seq 0 (length S1).
Hypothesis inverse2 : take_axes p2 q2 = seq 0 (length S1).
Hypothesis inverse2' : take_axes q2 p2 = seq 0 (length S1).

Local Notation "'S2'" := (take_axes S1 p1).
Local Notation "'st2'" := (take_axes (strides S1) p1).




End transposed_twice.



(** ** New axes *)

(** *** Sides made of plain tokens *)

Lemma plain_no_parens (l : list string) :
  Forall (λ a, a ≠ "..." ∧ has_parens a = false) l →
  existsb has_parens l = false.
Proof.
  induction 1 as [|a l [_ Ha] _ IH]; [done|]. cbn [existsb]. by rewrite Ha, IH.
Qed.

Lemma plain_no_ellipsis (l : list string) :
  Forall (λ a, a ≠ "..." ∧ has_parens a = false) l →
  ("..." ∉ l) ∧ filter (λ ax, ax ≠ "...") l = l.
Proof.
  induction 1 as [|a l [Ha _] _ [IH1 IH2]].
  - split; [apply not_elem_of_nil|done].
  - split.
    + by intros [?|?]%elem_of_cons.
    + by rewrite filter_cons, decide_True, IH2.
Qed.

Lemma token_names_plain n a :
  a ≠ "..." → has_parens a = false → token_names n a = [a].
Proof.
  intros Hne Hp. unfold token_names.
  by rewrite bool_decide_eq_false_2, (parse_axis_no_parens _ Hp).
Qed.

Lemma slot_names_plain n (l : list string) :
  Forall (λ a, a ≠ "..." ∧ has_parens a = false) l → slot_names n l = l.
Proof.
  induction 1 as [|a l [Ha Hp] _ IH]; [done|].
  by rewrite slot_names_cons, IH, token_names_plain.
Qed.

Lemma axis_map_step_plain cs (sd : gmap string Z) nZ ops am pos a :
  a ≠ "..." → has_parens a = false →
  axis_map_step cs sd nZ (ops, am, pos) a
  = (_ ← (if bool_decide (a = "1")
          then py_index cs pos ≫= λ _, Ok ()
          else Ok ());
     Ok (ops, <[a := pos]> am, (pos + 1)%Z)).
Proof.
  intros Hne Hp. unfold axis_map_step.
  by rewrite bool_decide_eq_false_2, (parse_axis_no_parens _ Hp).
Qed.

Lemma output_step_plain ins cs (sd am H : gmap string Z) nZ fs pm a :
  a ≠ "..." → has_parens a = false →
  output_step ins cs sd am H nZ (fs, pm) a
  = if bool_decide (is_Some (H !! a)) && negb (bool_decide (is_Some (am !! a)))
    then d ← dict_get H a; p ← singleton_pos ins cs;
         Ok (fs ++ [d], pm ++ [p])
    else d ← dict_get sd a; p ← dict_get am a;
         Ok (fs ++ [d], pm ++ [p]).
Proof.
  intros Hne Hp. unfold output_step.
  by rewrite (parse_axis_no_parens _ Hp), bool_decide_eq_false_2.
Qed.

(** The loop of lines 156-175 on plain tokens. *)
Lemma axis_map_plain cs (sd : gmap string Z) nZ l :
  Forall (λ a, a ≠ "..." ∧ has_parens a = false) l →
  ∀ ops am idx,
    idx + length l ≤ length cs →
    foldM (axis_map_step cs sd nZ) (ops, am, Z.of_nat idx) l
    = Ok (ops, assign_positions l (Z.of_nat idx) am, Z.of_nat (idx + length l)).
Proof.
  induction 1 as [|a l [Ha Hp] _ IH]; intros ops am idx Hle.
  - simpl. by rewrite Nat.add_0_r.
  - cbn [foldM length] in *. rewrite axis_map_step_plain by done.
    destruct (lookup_lt_is_Some_2 cs idx) as [d Hd]; [lia|].
    assert ((if bool_decide (a = "1")
             then py_index cs (Z.of_nat idx) ≫= λ _, Ok ()
             else Ok ()) = Ok ()) as ->.
    { case_bool_decide; [|done]. by rewrite (py_index_nat _ _ _ Hd). }
    rewrite !bind_Ok, assign_positions_cons.
    replace (Z.of_nat idx + 1)%Z with (Z.of_nat (S idx)) by lia.
    rewrite IH by lia. do 3 f_equal. lia.
Qed.

(** *** The first singleton (line 199) *)

Lemma singleton_scan_grows (f : nat → string → nat * string) l cs acc :
  (∀ i a, (f i a).2 = a) →
  (∀ i a, i < length l → (f i a).1 < length cs) →
  ∃ rest,
    foldM (λ acc '(i, ax),
             if bool_decide (ax = "1") then
               d ← py_index cs (Z.of_nat i);
               Ok (if (d =? 1)%Z then acc ++ [Z.of_nat i] else acc)
             else Ok acc)
          acc (imap f l) = Ok (acc ++ rest).
Proof.
  revert f acc. induction l as [|a l IH]; intros f acc Hf Hin.
  - exists []. by rewrite app_nil_r.
  - rewrite imap_cons. cbn [foldM].
    pose proof (Hf 0 a) as Ha. pose proof (Hin 0 a ltac:(simpl; lia)) as Hi.
    destruct (f 0 a) as [i ax]. simpl in Ha, Hi. subst ax.
    destruct (lookup_lt_is_Some_2 cs i Hi) as [d Hd].
    case_bool_decide.
    + rewrite (py_index_nat _ _ _ Hd), !bind_Ok.
      destruct (IH (f ∘ S) (if (d =? 1)%Z then acc ++ [Z.of_nat i] else acc))
        as [rest Hrest].
      * intros j b. apply Hf.
      * intros j b Hj. apply Hin. simpl. lia.
      * rewrite Hrest. destruct (d =? 1)%Z; [|by eexists].
        rewrite <-app_assoc. by eexists.
    + rewrite bind_Ok. apply IH.
      * intros j b. apply Hf.
      * intros j b Hj. apply Hin. simpl. lia.
Qed.

Lemma singleton_pos_first pre post cs :
  "1" ∉ pre → cs !! length pre = Some 1%Z →
  length (pre ++ "1" :: post) ≤ length cs →
  singleton_pos (pre ++ "1" :: post) cs = Ok (Z.of_nat (length pre)).
Proof.
  intros Hpre Hone Hlen. unfold singleton_pos.
  rewrite imap_app, foldM_app.
  rewrite singleton_scan_none, bind_Ok; [|done|].
  2: { apply Forall_forall. by intros a Ha ->. }
  rewrite imap_cons. cbn [foldM]. rewrite Nat.add_0_r.
  rewrite bool_decide_eq_true_2, (py_index_nat _ _ _ Hone) by done.
  rewrite !bind_Ok. simpl (1 =? 1)%Z. cbv iota.
  destruct (singleton_scan_grows
              ((λ n, pair (length pre + n)) ∘ S) post cs
              ([] ++ [Z.of_nat (length pre)])) as [rest ->].
  - done.
  - intros j a Hj. simpl. rewrite length_app in Hlen. simpl in Hlen. lia.
  - rewrite bind_Ok. done.
Qed.

(** *** The loop over the output tokens *)

Lemma output_plain ins cs (sd am H : gmap string Z) nZ (i : Z) outs :
  singleton_pos ins cs = Ok i →
  Forall (λ a, a ≠ "..." ∧ has_parens a = false) outs →
  Forall (λ a, (is_Some (am !! a) ∧ is_Some (sd !! a))
               ∨ (am !! a = None ∧ is_Some (H !! a) ∧ sd !! a = H !! a)) outs →
  ∀ fs pm,
    foldM (output_step ins cs sd am H nZ) (fs, pm) outs
    = Ok (fs ++ lookups sd outs, pm ++ ((λ a, default i (am !! a)) <$> outs)).
Proof.
  intros Hsp Hplain Hall. revert Hall.
  induction Hplain as [|a outs [Ha Hp] _ IH]; intros Hall fs pm.
  - simpl. by rewrite !app_nil_r.
  - apply Forall_cons in Hall as [Hcase Hall].
    cbn [foldM]. rewrite output_step_plain by done.
    unfold lookups. rewrite !fmap_cons.
    destruct Hcase as [[[p Hpos] [d Hd]]|(Hnone & [v Hv] & Hsd)].
    + rewrite (bool_decide_eq_true_2 (is_Some (am !! a))) by by eexists.
      rewrite andb_false_r.
      rewrite (proj2 (dict_get_Ok _ _ _) Hd), bind_Ok.
      rewrite (proj2 (dict_get_Ok _ _ _) Hpos), !bind_Ok.
      rewrite IH by done. rewrite Hd, Hpos. simpl.
      by rewrite <-!app_assoc.
    + rewrite (bool_decide_eq_true_2 (is_Some (H !! a))) by by eexists.
      rewrite (bool_decide_eq_false_2 (is_Some (am !! a)))
        by (rewrite Hnone; by intros [? ?]).
      simpl andb. cbv iota.
      rewrite (proj2 (dict_get_Ok _ _ _) Hv), bind_Ok, Hsp, !bind_Ok.
      rewrite IH by done. rewrite Hsd, Hv, Hnone. simpl.
      by rewrite <-!app_assoc.
Qed.

Lemma broadcast_plain (sd H : gmap string Z) nZ outs :
  Forall (λ a, a ≠ "..." ∧ has_parens a = false) outs →
  Forall (λ a, is_Some (sd !! a)) outs →
  ∀ bs, foldM (broadcast_step sd H nZ) bs outs = Ok (bs ++ lookups sd outs).
Proof.
  induction 1 as [|a outs [Ha Hp] _ IH]; intros Hall bs.
  - simpl. by rewrite app_nil_r.
  - apply Forall_cons in Hall as [[d Hd] Hall].
    cbn [foldM]. rewrite broadcast_step_plain, bind_Ok by done.
    rewrite IH by done. unfold lookups. rewrite fmap_cons, Hd. simpl.
    by rewrite <-app_assoc.
Qed.

Lemma transpose_step_nonempty {A : Type} (pm : list Z) (a : ndarray A) tr :
  pm ≠ [] → transpose_step pm a tr = (tr ++ [PTranspose pm], np_transpose a pm).
Proof. by destruct pm. Qed.

Lemma terminal_step_broadcast {A : Type} (p : plan) (H : gmap string Z)
    (a : ndarray A) cs tr :
  final_shape p ≠ [] → existsb (λ s, (s =? 1)%Z) cs = true →
  has_split p = false → has_merge p = false →
  terminal_step p H a cs tr
  = bbind (blift (broadcast_shape_of (output_axes p) (shape_dict p) H
                    (n_ellipsis p)))
          (λ broadcast_shape,
             bcall (PBroadcastTo broadcast_shape)
                   (np_broadcast_to a broadcast_shape)) tr.
Proof.
  intros Hfs Hone Hs Hm. unfold terminal_step.
  destruct (final_shape p); [done|]. by rewrite Hone, Hs, Hm.
Qed.

(** The plan of a call with new axes. *)
Lemma new_axes_plan {A : Type} (x : ndarray A) pattern H ins outs pre post sd :
  parser pattern = Ok (ins, outs) →
  Forall (λ a, a ≠ "..." ∧ has_parens a = false) ins →
  Forall (λ a, a ≠ "..." ∧ has_parens a = false) outs →
  length ins = length (shape x) →
  ins = pre ++ "1" :: post → "1" ∉ pre →
  shape x !! length pre = Some 1 →
  validate_shapes x ins outs H = Ok sd →
  Forall (λ a, a ∈ ins ∨ is_Some (H !! a)) outs →
  compile x pattern H
  = Ok (mk_plan ins outs false false 0 sd (Z.of_nat <$> shape x) []
          (positions_of ins) (lookups sd outs)
          ((λ a, default (Z.of_nat (length pre)) (positions_of ins !! a))
             <$> outs))
  ∧ Forall (λ a, is_Some (sd !! a)) outs
  ∧ (∀ k, k ∉ ins → sd !! k = H !! k).
Proof.
  intros Hparse Hin Hout Hrank Hins Hpre Hone Hval Hknown.
  pose proof (plain_no_parens _ Hin) as Hng_in.
  pose proof (plain_no_parens _ Hout) as Hng_out.
  destruct (plain_no_ellipsis _ Hin) as [Hell_in Hbase].
  destruct (plain_no_ellipsis _ Hout) as [Hell_out _].
  set (cs := Z.of_nat <$> shape x).
  assert (cs !! length pre = Some 1%Z) as Hone'
    by (unfold cs; by rewrite list_lookup_fmap, Hone).
  assert (singleton_pos ins cs = Ok (Z.of_nat (length pre))) as Hsp.
  { rewrite Hins. apply singleton_pos_first; [done|done|].
    unfold cs. rewrite length_fmap, <-Hins. lia. }
  (* the shape dictionary *)
  pose proof Hval as Hval'.
  apply validate_shapes_walk in Hval' as (w & idx & Hwalk & Hsd & _ & Hwidth).
  pose proof (slot_names_plain (ellipsis_width x ins) ins Hin) as Hslots.
  pose proof (walk_binds _ _ _ _ _ _ _ _ Hwalk) as Hbound.
  rewrite Hslots in Hbound.
  assert (∀ k, k ∉ ins → sd !! k = H !! k) as Hframe.
  { intros k Hk. rewrite Hsd, merge_hints_lookup.
    rewrite (walk_frame _ _ _ _ _ _ _ _ _ Hwalk), lookup_empty; [done|].
    by rewrite Hslots. }
  assert (Forall (λ a, (is_Some (positions_of ins !! a) ∧ is_Some (sd !! a))
                       ∨ (positions_of ins !! a = None ∧ is_Some (H !! a)
                          ∧ sd !! a = H !! a)) outs) as Hcases.
  { eapply Forall_impl; [exact Hknown|]. intros a Ha. simpl in Ha.
    destruct (decide (a ∈ ins)) as [Hain|Hnot].
    - left. split; [by apply assign_positions_elem|].
      rewrite Forall_forall in Hbound. destruct (Hbound a Hain) as [d Hd].
      rewrite Hsd, merge_hints_lookup, Hd. by eexists.
    - right. destruct Ha as [?|Hh]; [done|]. split_and!; [|done|by apply Hframe].
      unfold positions_of. rewrite assign_positions_notin by done.
      apply lookup_empty. }
  assert (Forall (λ a, is_Some (sd !! a)) outs) as Hsized.
  { eapply Forall_impl; [exact Hcases|]. intros a [[_ ?]|(_ & Hh & ->)]; done. }
  split; [|done].
  unfold compile. rewrite Hparse, bind_Ok.
  cbv beta iota zeta. rewrite Hng_in, Hng_out, Hbase, Hrank.
  rewrite (bool_decide_eq_false_2 ("..." ∈ ins)) by done.
  rewrite (bool_decide_eq_false_2 ("..." ∈ outs)) by done.
  unfold check_rank. simpl negb. simpl andb. cbv iota.
  rewrite Z.eqb_refl. simpl negb. simpl orb. cbv iota.
  rewrite bind_Ok, Hval, bind_Ok.
  unfold check_merge. rewrite bind_Ok.
  rewrite check_output_known, bind_Ok; [|done|].
  2: { eapply Forall_impl; [exact Hsized|]. by intros a Ha _. }
  rewrite Z.sub_diag. fold cs. change 0%Z with (Z.of_nat 0) at 2.
  rewrite (axis_map_plain cs sd _ ins Hin [] ∅ 0), bind_Ok
    by (unfold cs; rewrite length_fmap; lia).
  cbv beta iota. fold (positions_of ins).
  rewrite (output_plain ins cs sd (positions_of ins) H _ _ outs Hsp Hout Hcases),
    bind_Ok.
  cbv beta iota. by rewrite !app_nil_l.
Qed.

(** The run of such a plan: a transposition, then a broadcast. *)
Lemma new_axes_run {A : Type} (x : ndarray A) H ins outs sd am pm p :
  Forall (λ a, a ≠ "..." ∧ has_parens a = false) outs →
  Forall (λ a, is_Some (sd !! a)) outs →
  outs ≠ [] → length pm = length outs →
  shape x !! p = Some 1 →
  (execute x H
     (mk_plan ins outs false false 0 sd (Z.of_nat <$> shape x) [] am
        (lookups sd outs) pm) []).2
  = (y ← np_transpose x pm; np_broadcast_to y (lookups sd outs)).
Proof.
  intros Hout Hsized Hne Hpm Hone.
  unfold execute. cbn [ops current_shape permutation apply_ops].
  unfold bbind at 1. unfold bpure at 1. cbv beta iota.
  unfold bbind at 1.
  rewrite transpose_step_nonempty by (by destruct pm, outs).
  destruct (np_transpose x _) as [y|e]; [|done]. rewrite bind_Ok.
  rewrite terminal_step_broadcast; cbn [final_shape has_split has_merge]; try done.
  - unfold bbind, blift, broadcast_shape_of.
    cbn [output_axes shape_dict n_ellipsis].
    by rewrite (broadcast_plain sd H _ outs Hout Hsized []).
  - unfold lookups. by destruct outs.
  - apply existsb_exists. exists 1%Z. split; [|done].
    apply list_elem_of_In. apply (list_elem_of_lookup_2 _ p).
    by rewrite list_lookup_fmap, Hone.
Qed.

(** X17.  New axes are broadcast.  Both sides are made of plain tokens, as
    many on the input side as the array has dimensions; the input side has
    a token "1" over a dimension of size 1 (the first token "1"), and every
    output token is a token of the input side or a name with a hint.  Then
    the call is a transposition followed by a broadcast: a token of the
    input side keeps its position, a new name takes the position of the
    singleton, and the target of the broadcast lists the sizes of the
    output tokens. *)
Theorem rearrange_new_axes_broadcast {A : Type} (x : ndarray A)
    pattern H ins outs pre post sd :
  parser pattern = Ok (ins, outs) →
  Forall (λ a, a ≠ "..." ∧ has_parens a = false) ins →
  Forall (λ a, a ≠ "..." ∧ has_parens a = false) outs →
  length ins = length (shape x) →
  ins = pre ++ "1" :: post → "1" ∉ pre →
  shape x !! length pre = Some 1 →
  validate_shapes x ins outs H = Ok sd →
  Forall (λ a, a ∈ ins ∨ is_Some (H !! a)) outs →
  outs ≠ [] →
  rearrange x pattern H
  = (y ← np_transpose x
           ((λ a, default (Z.of_nat (length pre)) (positions_of ins !! a))
              <$> outs);
     np_broadcast_to y (lookups sd outs)).
Proof.
  intros Hparse Hin Hout Hrank Hins Hpre Hone Hval Hknown Hne.
  destruct (new_axes_plan x pattern H ins outs pre post sd Hparse Hin Hout
              Hrank Hins Hpre Hone Hval Hknown) as (Hplan & Hsized & _).
  unfold rearrange, rearrange_run. rewrite Hplan.
  apply (new_axes_run x H ins outs sd _ _ (length pre)); try done.
  by rewrite length_fmap.
Qed.

Lemma rearrange_new_axes_broadcast_witness :
  rearrange (arange [3; 1; 5]) "a 1 c -> b a c" (hints [("b", 4%Z)])
  = (y ← np_transpose (arange [3; 1; 5]) [1; 0; 2]%Z;
     np_broadcast_to y [4; 3; 5]%Z).
Proof.
  apply (rearrange_new_axes_broadcast (arange [3; 1; 5]) "a 1 c -> b a c"
           (hints [("b", 4%Z)]) ["a"; "1"; "c"] ["b"; "a"; "c"] ["a"] ["c"]
           (hints [("a", 3%Z); ("1", 1%Z); ("c", 5%Z); ("b", 4%Z)])).
  - reflexivity.
  - repeat (apply Forall_cons; split; [split; [discriminate|reflexivity]|]).
    apply Forall_nil_2.
  - repeat (apply Forall_cons; split; [split; [discriminate|reflexivity]|]).
    apply Forall_nil_2.
  - reflexivity.
  - reflexivity.
  - apply (bool_decide_unpack _). vm_compute. exact I.
  - reflexivity.
  - vm_compute. reflexivity.
  - apply (bool_decide_unpack _). vm_compute. exact I.
  - discriminate.
Defined.

(** ** The errors of a group *)






(** ** Repeating a singleton *)









